(** * Renota: table parsing and PDF-to-record matching (src/services/logic.ts)

    A shallow embedding of the parsing and matching code of
    [src/services/logic.ts] together with the properties stated about it.

    Conventions of the embedding.
    - A JavaScript string is the list of its UTF-16 code units ([jsstring]);
      [length] is the JavaScript [.length].
    - Regular expressions are transcribed as data ([re]) and run by a
      backtracking matcher that follows the ECMAScript priorities (leftmost
      start, greedy quantifiers, alternatives from left to right).
    - Property access on [undefined] raises [TypeError]; array reads are
      therefore partial and the parsers live in the [outcome] monad.
    - Number-to-text conversions, [parseFloat] and [toUpperCase] are host
      built-ins: the code is embedded over an arbitrary [Host], and a
      concrete decimal host is provided for evaluation.
    - The logger is an observer that only receives strings; its calls are
      left out. *)

From Stdlib Require Import ZArith NArith List String Ascii Bool Lia.
From stdpp Require Import base option list gmap.

Local Open Scope nat_scope.

(** ** Strings as sequences of code units *)

Abbreviation jsstring := (list N).

Module Str.

(** Decoder used for literals only: the bytes of a UTF-8 literal of this file
    become code units (one to three byte sequences, that is the whole Basic
    Multilingual Plane, which is all the program's literals need). *)
Fixpoint utf8 (bs : list N) : jsstring :=
  match bs with
  | [] => []
  | b :: r =>
    if (b <? 128)%N then b :: utf8 r
    else if (b <? 224)%N then
      match r with
      | b2 :: r' => ((b - 192) * 64 + (b2 - 128))%N :: utf8 r'
      | [] => [b]
      end
    else
      match r with
      | b2 :: b3 :: r' =>
        ((b - 224) * 4096 + (b2 - 128) * 64 + (b3 - 128))%N :: utf8 r'
      | _ => [b]
      end
  end.

Definition js (s : string) : jsstring :=
  utf8 (map N_of_ascii (list_ascii_of_string s)).

Definition eqb (a b : jsstring) : bool := bool_decide (a = b).

(** [WhiteSpace] and [LineTerminator] code units: the class [\s] and the set
    removed by [trim]. *)
Definition is_ws (c : N) : bool :=
  ((9 <=? c) && (c <=? 13) || (c =? 32) || (c =? 160) || (c =? 5760)
   || (8192 <=? c) && (c <=? 8202) || (c =? 8232) || (c =? 8233)
   || (c =? 8239) || (c =? 8287) || (c =? 12288) || (c =? 65279))%N.

Definition is_digit (c : N) : bool := ((48 <=? c) && (c <=? 57))%N.

(** [\w] is [A-Za-z0-9_]. *)
Definition is_word (c : N) : bool :=
  ((65 <=? c) && (c <=? 90) || (97 <=? c) && (c <=? 122)
   || is_digit c || (c =? 95))%N.

Fixpoint starts_with (x s : jsstring) : bool :=
  match x, s with
  | [], _ => true
  | a :: x', b :: s' => (a =? b)%N && starts_with x' s'
  | _ :: _, [] => false
  end.

(** [s.includes(x)] *)
Fixpoint includes (s x : jsstring) : bool :=
  starts_with x s ||
  match s with
  | [] => false
  | _ :: s' => includes s' x
  end.

(** [x] is a substring of [s]. *)
Definition part_of (x s : jsstring) : Prop := exists a b, s = a ++ x ++ b.

(** [s.endsWith(x)] *)
Definition ends_with (s x : jsstring) : bool :=
  starts_with (rev x) (rev s).

Fixpoint trim_start (s : jsstring) : jsstring :=
  match s with
  | c :: s' => if is_ws c then trim_start s' else s
  | [] => []
  end.

(** [s.trim()] *)
Definition trim (s : jsstring) : jsstring :=
  rev (trim_start (rev (trim_start s))).

(** [s.split('\n')]: always at least one piece. *)
Fixpoint split_lines (s : jsstring) : list jsstring :=
  match s with
  | [] => [[]]
  | c :: s' =>
    if (c =? 10)%N then [] :: split_lines s'
    else match split_lines s' with
         | l :: ls => (c :: l) :: ls
         | [] => [[c]]
         end
  end.

(** A line of [n] zeros. *)
Definition zeros (n : nat) : jsstring := repeat 48%N n.

(** Truthiness of a string: non-empty. *)
Definition truthy (s : jsstring) : bool :=
  match s with [] => false | _ => true end.

End Str.

Import Str.

(** Text of several lines, for examples: the lines joined by U+000A. *)
Fixpoint text_of (ls : list jsstring) : jsstring :=
  match ls with
  | [] => []
  | [l] => l
  | l :: ls' => l ++ 10%N :: text_of ls'
  end.

(** ** Regular expressions

    The constructs that occur in logic.ts: anchors, one code unit of a class,
    a greedy quantifier applied to a class, sequence, alternation and one
    capture group. *)

Inductive re : Type :=
| Eps
| Bol                                        (* ^ *)
| Eol                                        (* $ *)
| Cls (p : N -> bool)                        (* one code unit in a class *)
| Rep (p : N -> bool) (lo : nat) (hi : option nat)  (* class{lo,hi}, greedy *)
| Seq (a b : re)
| Alt (a b : re)
| Grp (a : re).                              (* capture group 1 *)

Module Re.

(** Continuation of a match attempt: position, remaining input, capture. *)
Definition kont (A : Type) : Type := nat -> jsstring -> option jsstring -> option A.

(** Greedy quantifier: take one more code unit first, give it back when the
    rest of the pattern fails. *)
Fixpoint rep {A} (p : N -> bool) (lo : nat) (hi : option nat)
    (pos : nat) (s : jsstring) (cap : option jsstring) (k : kont A) : option A :=
  let stop := match lo with 0 => k pos s cap | S _ => None end in
  match hi with
  | Some 0 => stop
  | _ =>
    match s with
    | c :: s' =>
      if p c then
        match rep p (pred lo) (pred <$> hi) (S pos) s' cap k with
        | Some x => Some x
        | None => stop
        end
      else stop
    | [] => stop
    end
  end.

Fixpoint run {A} (r : re) (pos : nat) (s : jsstring) (cap : option jsstring)
    (k : kont A) : option A :=
  match r with
  | Eps => k pos s cap
  | Bol => if Nat.eqb pos 0 then k pos s cap else None
  | Eol => match s with [] => k pos s cap | _ :: _ => None end
  | Cls p =>
    match s with
    | c :: s' => if p c then k (S pos) s' cap else None
    | [] => None
    end
  | Rep p lo hi => rep p lo hi pos s cap k
  | Seq a b => run a pos s cap (fun pos' s' cap' => run b pos' s' cap' k)
  | Alt a b =>
    match run a pos s cap k with
    | Some x => Some x
    | None => run b pos s cap k
    end
  | Grp a => run a pos s cap (fun pos' s' _ => k pos' s' (Some (take (pos' - pos) s)))
  end.

(** A successful match: start index, matched text, capture group 1. *)
Record found := { index : nat; whole : jsstring; group1 : option jsstring }.

(** Match attempt at the current position. *)
Definition at_pos (r : re) (pos : nat) (s : jsstring) : option found :=
  run r pos s None
    (fun pos' _ cap => Some {| index := pos; whole := take (pos' - pos) s; group1 := cap |}).

(** Leftmost match at or after the current position. *)
Fixpoint search (r : re) (pos : nat) (s : jsstring) : option found :=
  match at_pos r pos s with
  | Some m => Some m
  | None =>
    match s with
    | [] => None
    | _ :: s' => search r (S pos) s'
    end
  end.

(** [s.match(r)] for a pattern without the g flag. *)
Definition exec (r : re) (s : jsstring) : option found := search r 0 s.

(** [r.test(s)], and the truth value of [s.match(r)]. *)
Definition test (r : re) (s : jsstring) : bool :=
  match exec r s with Some _ => true | None => false end.

(** Global scan: after a match the search resumes where it ended, one code
    unit further after an empty match.  Every round consumes input or stops,
    so [S (length s)] rounds are never exhausted. *)
Fixpoint scan (fuel : nat) (r : re) (pos : nat) (s : jsstring) : list found :=
  match fuel with
  | 0 => []
  | S fuel' =>
    match search r pos s with
    | None => []
    | Some m =>
      let stop := index m + length (whole m) in
      let next := match whole m with [] => S stop | _ :: _ => stop end in
      m :: (if bool_decide (next - pos <= length s)
            then scan fuel' r next (drop (next - pos) s) else [])
    end
  end.

Definition scan_all (r : re) (s : jsstring) : list found :=
  scan (S (length s)) r 0 s.

(** [s.match(r)] for a pattern with the g flag: the matched texts, or [null]
    when there is none. *)
Definition match_g (r : re) (s : jsstring) : option (list jsstring) :=
  match scan_all r s with
  | [] => None
  | ms => Some (map whole ms)
  end.

(** [s.replace(r, by)] without the g flag: the leftmost match is replaced. *)
Definition replace (r : re) (by_ : jsstring) (s : jsstring) : jsstring :=
  match exec r s with
  | None => s
  | Some m => take (index m) s ++ by_ ++ drop (index m + length (whole m)) s
  end.

(** Rebuilds the text around the matches of a global scan. *)
Fixpoint splice (ms : list found) (by_ : jsstring) (pos : nat) (s : jsstring) : jsstring :=
  match ms with
  | [] => s
  | m :: ms' =>
    let stop := index m + length (whole m) in
    take (index m - pos) s ++ by_ ++ splice ms' by_ stop (drop (stop - pos) s)
  end.

(** [s.replace(r, by)] with the g flag. *)
Definition replace_g (r : re) (by_ : jsstring) (s : jsstring) : jsstring :=
  splice (scan_all r s) by_ 0 s.

(** *** Building patterns *)

Definition chr (c : N) : re := Cls (N.eqb c).
Definition opt (p : N -> bool) : re := Rep p 0 (Some 1).
Definition star (p : N -> bool) : re := Rep p 0 None.
Definition plus (p : N -> bool) : re := Rep p 1 None.

Fixpoint seq (rs : list re) : re :=
  match rs with
  | [] => Eps
  | [r] => r
  | r :: rs' => Seq r (seq rs')
  end.

Fixpoint alt (rs : list re) : re :=
  match rs with
  | [] => Eps
  | [r] => r
  | r :: rs' => Alt r (alt rs')
  end.

(** The i flag compares canonicalized code units: [Canonicalize] is the
    upper-case mapping of a single code unit, kept only when the result is
    one code unit and does not turn a non-ASCII unit into an ASCII one.  The
    table below covers Basic Latin and Latin-1; on the other code units it is
    the identity, which changes no comparison against a pattern whose
    characters are all Basic Latin or Latin-1 (no code unit outside Latin-1
    upper-cases into it, and U+00B5, U+00DF and U+00FF occur in no pattern). *)
Definition canon (c : N) : N :=
  if ((97 <=? c) && (c <=? 122))%N then (c - 32)%N
  else if ((224 <=? c) && (c <=? 254) && negb (c =? 247))%N then (c - 32)%N
  else c.

Definition chr_i (c : N) : N -> bool := fun x => (canon x =? canon c)%N.

(** A literal text under the i flag. *)
Definition lit_i (s : jsstring) : re := seq (map (fun c => Cls (chr_i c)) s).

Definition one_of (cs : jsstring) : N -> bool :=
  fun x => existsb (N.eqb x) cs.
Definition one_of_i (cs : jsstring) : N -> bool :=
  fun x => existsb (fun c => chr_i c x) cs.
Definition either (p q : N -> bool) : N -> bool := fun x => p x || q x.

(** *** Static measures of a pattern *)

(** Least number of code units a match of the pattern consumes. *)
Fixpoint min_len (r : re) : nat :=
  match r with
  | Eps | Bol | Eol => 0
  | Cls _ => 1
  | Rep _ lo _ => lo
  | Seq a b => min_len a + min_len b
  | Alt a b => Nat.min (min_len a) (min_len b)
  | Grp a => min_len a
  end.

Fixpoint no_group (r : re) : bool :=
  match r with
  | Seq a b | Alt a b => no_group a && no_group b
  | Grp _ => false
  | _ => true
  end.

(** Every successful path through the pattern leaves a non-empty capture. *)
Fixpoint captures (r : re) : bool :=
  match r with
  | Grp a => bool_decide (0 < min_len a)
  | Seq a b => captures a && no_group b || captures b
  | Alt a b => captures a && captures b
  | _ => false
  end.

Definition within (n : nat) (hi : option nat) : Prop :=
  match hi with Some h => n <= h | None => True end.

(** A text is a run of [lo] to [hi] code units of the class [p]. *)
Definition run_of (p : N -> bool) (lo : nat) (hi : option nat) (t : jsstring) : Prop :=
  lo <= length t /\ within (length t) hi /\ Forall (fun c => p c = true) t.

(** What a pattern accepts: [accepts r t c c'] when [r] can consume exactly
    the text [t], turning the capture [c] into [c'] (anchors accept the empty
    text; where they hold is the matcher's business). *)
Inductive accepts : re -> jsstring -> option jsstring -> option jsstring -> Prop :=
| accepts_eps c : accepts Eps [] c c
| accepts_bol c : accepts Bol [] c c
| accepts_eol c : accepts Eol [] c c
| accepts_cls p x c : p x = true -> accepts (Cls p) [x] c c
| accepts_rep p lo hi t c : run_of p lo hi t -> accepts (Rep p lo hi) t c c
| accepts_seq a b t1 t2 c c1 c2 :
    accepts a t1 c c1 -> accepts b t2 c1 c2 -> accepts (Seq a b) (t1 ++ t2) c c2
| accepts_alt_l a b t c c' : accepts a t c c' -> accepts (Alt a b) t c c'
| accepts_alt_r a b t c c' : accepts b t c c' -> accepts (Alt a b) t c c'
| accepts_grp a t c c' : accepts a t c c' -> accepts (Grp a) t c (Some t).

(** The same pattern without its capture group. *)
Fixpoint erase (r : re) : re :=
  match r with
  | Seq a b => Seq (erase a) (erase b)
  | Alt a b => Alt (erase a) (erase b)
  | Grp a => erase a
  | _ => r
  end.

(** *** Notions used to state facts about matches *)

(** [r] matches, at any position, exactly when the next code unit is in the
    class [p], and then consumes a non-empty run of that class. *)
Definition eats (r : re) (p : N -> bool) : Prop :=
  forall pos s,
    match at_pos r pos s with
    | None => match s with c :: _ => p c = false | [] => True end
    | Some m =>
      index m = pos /\ whole m <> [] /\ Forall (fun c => p c = true) (whole m)
      /\ exists post, s = whole m ++ post
    end.

End Re.

Import Re.

(** ** Host built-ins

    [number] is the type of JavaScript numbers; the conversions are those the
    program calls.  Everything below is stated for an arbitrary host. *)

Class Host : Type := {
  number : Type;
  parseFloat : jsstring -> number;
  toFixed2 : number -> jsstring;          (* v.toFixed(2) *)
  toLocaleStringBR : number -> jsstring;  (* v.toLocaleString('pt-BR', two fraction digits) *)
  numberToString : number -> jsstring;    (* v.toString() *)
  gtZero : number -> bool;                (* v > 0 *)
  toUpperCase : jsstring -> jsstring      (* s.toUpperCase() *)
}.

(** Decimal digits of a natural number. *)
Fixpoint uint_digits (u : Decimal.uint) : jsstring :=
  match u with
  | Decimal.Nil => []
  | Decimal.D0 u' => 48%N :: uint_digits u'
  | Decimal.D1 u' => 49%N :: uint_digits u'
  | Decimal.D2 u' => 50%N :: uint_digits u'
  | Decimal.D3 u' => 51%N :: uint_digits u'
  | Decimal.D4 u' => 52%N :: uint_digits u'
  | Decimal.D5 u' => 53%N :: uint_digits u'
  | Decimal.D6 u' => 54%N :: uint_digits u'
  | Decimal.D7 u' => 55%N :: uint_digits u'
  | Decimal.D8 u' => 56%N :: uint_digits u'
  | Decimal.D9 u' => 57%N :: uint_digits u'
  end.

Definition digits_of (n : N) : jsstring := uint_digits (N.to_uint n).

(** Value of a run of digits in the given radix, most significant first. *)
Definition digit_value (radix : N) (c : N) : option N :=
  let v := if is_digit c then Some (c - 48)%N
           else if ((97 <=? c) && (c <=? 122))%N then Some (c - 87)%N
           else if ((65 <=? c) && (c <=? 90))%N then Some (c - 55)%N
           else None in
  match v with
  | Some d => if (d <? radix)%N then Some d else None
  | None => None
  end.

Fixpoint digits_prefix (radix : N) (s : jsstring) (seen : bool) (acc : N) : option N :=
  match s with
  | c :: s' =>
    match digit_value radix c with
    | Some d => digits_prefix radix s' true (acc * radix + d)%N
    | None => if seen then Some acc else None
    end
  | [] => if seen then Some acc else None
  end.

(** The text that a template literal prints for [parseInt(x)], where [x] is a
    string or [undefined] ([None]): leading white space skipped, optional
    sign, optional [0x] prefix, the longest run of digits, [NaN] when that run
    is empty.  The integer is printed exactly, as JavaScript does below 2^53,
    which includes every two-digit fraction produced by [toFixed(2)]. *)
Definition parseInt_text (x : option jsstring) : jsstring :=
  let s := trim_start (default (js "undefined") x) in
  let '(neg, s) := match s with
                   | 45%N :: s' => (true, s')
                   | 43%N :: s' => (false, s')
                   | _ => (false, s)
                   end in
  let '(radix, s) := match s with
                     | 48%N :: 120%N :: s' => (16%N, s')
                     | 48%N :: 88%N :: s' => (16%N, s')
                     | _ => (10%N, s)
                     end in
  match digits_prefix radix s false 0%N with
  | None => js "NaN"
  | Some 0%N => js "0"
  | Some n => (if neg then js "-" else []) ++ digits_of n
  end.

(** [s.split(sep)] for a one code unit separator. *)
Fixpoint split_on (sep : N) (s : jsstring) : list jsstring :=
  match s with
  | [] => [[]]
  | c :: s' =>
    if (c =? sep)%N then [] :: split_on sep s'
    else match split_on sep s' with
         | l :: ls => (c :: l) :: ls
         | [] => [[c]]
         end
  end.

(** Text printed by a template literal for a string or [undefined]. *)
Definition template_text (x : option jsstring) : jsstring :=
  default (js "undefined") x.

(** ** The outcome monad: a value or an exception *)

Inductive outcome (A : Type) : Type :=
| Ok (a : A)
| TypeError
| OutOfFuel.

Arguments Ok {A} a.
Arguments TypeError {A}.
Arguments OutOfFuel {A}.

#[global] Instance outcome_ret : MRet outcome := fun A a => Ok a.
#[global] Instance outcome_bind : MBind outcome := fun A B f m =>
  match m with
  | Ok a => f a
  | TypeError => TypeError
  | OutOfFuel => OutOfFuel
  end.

(** [xs[i]] used as the receiver of a property access. *)
Definition at_ {A} (xs : list A) (i : nat) : outcome A :=
  match xs !! i with
  | Some x => Ok x
  | None => TypeError
  end.

(** [m[1]] used as the receiver of a method call. *)
Definition group_of (m : found) : outcome jsstring :=
  match group1 m with
  | Some t => Ok t
  | None => TypeError
  end.

(** [for (let i = start; i < n; i++) body]: the body may advance [i] itself
    and returns the value of [i] it ends with.  [i] grows by at least one in
    every round, so [n] rounds are enough. *)
Fixpoint for_loop {St : Type} (fuel n : nat)
    (body : nat -> St -> outcome (nat * St)) (i : nat) (st : St) : outcome St :=
  if bool_decide (i < n) then
    match fuel with
    | 0 => OutOfFuel
    | S fuel' => r ← body i st; for_loop fuel' n body (S (fst r)) (snd r)
    end
  else Ok st.

Definition for_upto {St : Type} (n : nat)
    (body : nat -> St -> outcome (nat * St)) (st : St) : outcome St :=
  for_loop n n body 0 st.

(** ** Data model (src/types) *)

(** The optional field [tipo?: string | null]. *)
Inductive tipo_field : Type :=
| TipoAbsent
| TipoNull
| TipoText (t : jsstring).

Record TableRow `{Host} : Type := {
  nf : option jsstring;          (* string | null *)
  valor : number;
  valorFormatado : jsstring;
  descricao : jsstring;
  tipo : tipo_field
}.

(** An amount cell collected by a parser: [{ text, num }]. *)
Record Valor `{Host} : Type := { text : jsstring; num : number }.

(** Result of [extractNFInfoFromPDF]. *)
Record NFInfo : Type := { info_nf : option jsstring; info_tipo : jsstring }.

(** Lists collected while classifying the lines of a table. *)
Record Columns `{Host} : Type := {
  descricoes : list jsstring;
  numeros : list jsstring;
  valores : list Valor
}.

(** ** Patterns of logic.ts *)

Module Pat.

Definition ws_or_colon : N -> bool := either is_ws (N.eqb 58).
Definition digit_or_dot : N -> bool := either is_digit (N.eqb 46).

(** [/Número da Nota[\s:]*(\d+)/i] *)
Definition numero_da_nota : re :=
  seq [lit_i (js "Número da Nota"); star ws_or_colon; Grp (plus is_digit)].

(** [/Número Nota Fiscal[\s:]*(\d+)/i] *)
Definition numero_nota_fiscal : re :=
  seq [lit_i (js "Número Nota Fiscal"); star ws_or_colon; Grp (plus is_digit)].

(** [/Nº da Nota[\s:]*(\d+)/i] *)
Definition n_ordinal_da_nota : re :=
  seq [lit_i (js "Nº da Nota"); star ws_or_colon; Grp (plus is_digit)].

(** [/N[ºo]\.?\s*da Nota[\s:]*(\d+)/i] *)
Definition n_abbrev_da_nota : re :=
  seq [Cls (chr_i 78); Cls (one_of_i (js "ºo")); opt (N.eqb 46); star is_ws;
       lit_i (js "da Nota"); star ws_or_colon; Grp (plus is_digit)].

(** [/Nota[\s:]*(\d{4,})/i] *)
Definition nota_digits : re :=
  seq [lit_i (js "Nota"); star ws_or_colon; Grp (Rep is_digit 4 None)].

(** [/^(NF-e|Número|Período de Serviço|Data de Emissão|Valor total)$/i] *)
Definition shopee_header : re :=
  seq [Bol;
       alt [lit_i (js "NF-e"); lit_i (js "Número"); lit_i (js "Período de Serviço");
            lit_i (js "Data de Emissão"); lit_i (js "Valor total")];
       Eol].

(** [/^\d{7,9}$/] *)
Definition digits_7_9_line : re := seq [Bol; Rep is_digit 7 (Some 9); Eol].

(** [/\d{7,9}/g] *)
Definition digits_7_9 : re := Rep is_digit 7 (Some 9).

(** [/^R?\$?\s*([\d.]+,\d{2})$/] *)
Definition valor_line : re :=
  seq [Bol; opt (N.eqb 82); opt (N.eqb 36); star is_ws;
       Grp (seq [plus digit_or_dot; chr 44; Rep is_digit 2 (Some 2)]); Eol].

(** [/^R?\$?\s*[\d.]+,\d{2}$/] *)
Definition valor_line_test : re :=
  seq [Bol; opt (N.eqb 82); opt (N.eqb 36); star is_ws;
       plus digit_or_dot; chr 44; Rep is_digit 2 (Some 2); Eol].

(** [/\s+\d{7,9}\s*$/] *)
Definition trailing_number : re :=
  seq [plus is_ws; Rep is_digit 7 (Some 9); star is_ws; Eol].

(** [/^\d+\s+de\s+\w+\s*-?\s*\d*\s+de\s+\w+\s+de\s+\d{4}$/i] *)
Definition date_range : re :=
  seq [Bol; plus is_digit; plus is_ws; lit_i (js "de"); plus is_ws; plus is_word;
       star is_ws; opt (N.eqb 45); star is_ws; star is_digit; plus is_ws;
       lit_i (js "de"); plus is_ws; plus is_word; plus is_ws; lit_i (js "de");
       plus is_ws; Rep is_digit 4 (Some 4); Eol].

(** [/^(Conceito de faturamento|Município|Número da NF-e|Total da fatura)$/i] *)
Definition ml_header : re :=
  seq [Bol;
       alt [lit_i (js "Conceito de faturamento"); lit_i (js "Município");
            lit_i (js "Número da NF-e"); lit_i (js "Total da fatura")];
       Eol].

(** [/^0+\d+$/] *)
Definition zero_padded : re := seq [Bol; plus (N.eqb 48); plus is_digit; Eol].

(** [/^0+/] *)
Definition leading_zeros : re := seq [Bol; plus (N.eqb 48)].

(** [/^\d+$/] *)
Definition digits_line : re := seq [Bol; plus is_digit; Eol].

(** [/^(Curitiba|Osasco|São Paulo|Rio de Janeiro|Belo Horizonte|Governador Celso Ramos|Lauro de Freitas)$/i] *)
Definition municipios_comuns : re :=
  seq [Bol;
       alt [lit_i (js "Curitiba"); lit_i (js "Osasco"); lit_i (js "São Paulo");
            lit_i (js "Rio de Janeiro"); lit_i (js "Belo Horizonte");
            lit_i (js "Governador Celso Ramos"); lit_i (js "Lauro de Freitas")];
       Eol].

(** [/^(Serviço prestado|Valor)/i] *)
Definition magalu_header : re :=
  seq [Bol; alt [lit_i (js "Serviço prestado"); lit_i (js "Valor")]].

(** [/R?\$?\s*([\d.]+,\d{2})/i] *)
Definition valor_anywhere : re :=
  seq [Rep (chr_i 82) 0 (Some 1); opt (N.eqb 36); star is_ws;
       Grp (seq [plus digit_or_dot; chr 44; Rep is_digit 2 (Some 2)])].

(** [/R?\$?\s*[\d.]+,\d{2}/i] *)
Definition valor_anywhere_test : re :=
  seq [Rep (chr_i 82) 0 (Some 1); opt (N.eqb 36); star is_ws;
       plus digit_or_dot; chr 44; Rep is_digit 2 (Some 2)].

(** [/[●•◆○J®©]/g] *)
Definition ornaments : re := Cls (one_of (js "●•◆○J®©")).

(** [/\./g], [','] as a search string, [/\s+/g] *)
Definition period : re := chr 46.
Definition comma : re := chr 44.
Definition spaces : re := plus is_ws.

End Pat.

(** ** The program *)

Section Logic.
Context `{Host}.

(** *** extractNFInfoFromPDF *)

Definition nota_debito_acento : jsstring := js "NOTA DE DÉBITO".
Definition nota_debito_sem_acento : jsstring := js "NOTA DE DEBITO".

Definition isNotaDebito (pdfText : jsstring) : bool :=
  includes (toUpperCase pdfText) nota_debito_acento
  || includes (toUpperCase pdfText) nota_debito_sem_acento.

Definition tipo_of (pdfText : jsstring) : jsstring :=
  if isNotaDebito pdfText then js "ND" else js "NFS".

Definition patterns : list re :=
  [Pat.numero_da_nota; Pat.numero_nota_fiscal; Pat.n_ordinal_da_nota;
   Pat.n_abbrev_da_nota; Pat.nota_digits].

(** [match && match[1]]: the captured number when the pattern matches and the
    capture is a non-empty string. *)
Definition captured (pattern : re) (pdfText : jsstring) : option jsstring :=
  match exec pattern pdfText with
  | Some m =>
    match group1 m with
    | Some t => if truthy t then Some t else None
    | None => None
    end
  | None => None
  end.

(** The loop over the patterns, leaving at the first capture. *)
Fixpoint first_captured (ps : list re) (pdfText : jsstring) : option jsstring :=
  match ps with
  | [] => None
  | pattern :: ps' =>
    match captured pattern pdfText with
    | Some t => Some t
    | None => first_captured ps' pdfText
    end
  end.

Definition extractNFInfoFromPDF (pdfText : jsstring) : NFInfo :=
  {| info_nf := first_captured patterns pdfText; info_tipo := tipo_of pdfText |}.

(** *** Parsers *)

(** [text.split('\n').map(line => line.trim()).filter(line => line)] *)
Definition lines_of (text : jsstring) : list jsstring :=
  List.filter truthy (map trim (split_lines text)).

(** [parseFloat(valorText.replace(/\./g, '').replace(',', '.'))] *)
Definition parse_valor (valorText : jsstring) : number :=
  parseFloat (replace Pat.comma (js ".") (replace_g Pat.period [] valorText)).

Definition no_columns : Columns :=
  {| descricoes := []; numeros := []; valores := [] |}.

Definition push_descricao (d : jsstring) (c : Columns) : Columns :=
  {| descricoes := descricoes c ++ [d]; numeros := numeros c; valores := valores c |}.
Definition push_numero (n : jsstring) (c : Columns) : Columns :=
  {| descricoes := descricoes c; numeros := numeros c ++ [n]; valores := valores c |}.
Definition push_valor (v : Valor) (c : Columns) : Columns :=
  {| descricoes := descricoes c; numeros := numeros c; valores := valores c ++ [v] |}.

Definition placeholder : jsstring := js "Serviço".

(** [i < descricoes.length ? descricoes[i] : 'Serviço'] *)
Definition descricao_at (ds : list jsstring) (i : nat) : jsstring :=
  if bool_decide (i < length ds) then default [] (ds !! i) else placeholder.

(** Body of the loop that classifies the lines of a Shopee table. *)
Definition shopee_line (lines : list jsstring) (i : nat) (c : Columns)
    : outcome (nat * Columns) :=
  line ← at_ lines i;
  if test Pat.shopee_header line then Ok (i, c)
  else if test Pat.digits_7_9_line line then Ok (i, push_numero line c)
  else
    match exec Pat.valor_line line with
    | Some valorMatch =>
      valorText ← group_of valorMatch;
      Ok (i, push_valor {| text := valorText; num := parse_valor valorText |} c)
    | None =>
      if includes line (js "-") then
        joined ←
          (if (ends_with line (js "-") || ends_with line (js "- "))
              && bool_decide (i + 1 < length lines)
           then
             next ← at_ lines (i + 1);
             let nextLine := trim next in
             if negb (test Pat.digits_7_9_line nextLine)
                && negb (test Pat.valor_line_test nextLine)
                && negb (test Pat.shopee_header nextLine)
             then Ok (line ++ js " " ++ nextLine, i + 1)
             else Ok (line, i)
           else Ok (line, i));
        let fullLine := fst joined in
        let descricao := trim fullLine in
        let descricao := trim (replace Pat.trailing_number [] descricao) in
        let isJustDate := test Pat.date_range descricao in
        if bool_decide (5 < length descricao) && negb isJustDate
        then Ok (snd joined, push_descricao descricao c)
        else Ok (snd joined, c)
      else Ok (i, c)
    end.

(** Body of the loop that builds the records of Shopee and Mercado Livre. *)
Definition paired_row (c : Columns) (i : nat) (data : list TableRow)
    : outcome (nat * list TableRow) :=
  v ← at_ (valores c) i;
  Ok (i, data ++ [ {| nf := numeros c !! i;
                      valor := num v;
                      valorFormatado := text v;
                      descricao := descricao_at (descricoes c) i;
                      tipo := TipoAbsent |} ]).

(** What follows the classification in Shopee and Mercado Livre. *)
Definition pair_columns (c : Columns) : outcome (list TableRow) :=
  if bool_decide (length (numeros c) = 0) || bool_decide (length (valores c) = 0)
  then Ok []
  else
    let totalRegistros := Nat.min (length (numeros c)) (length (valores c)) in
    for_upto totalRegistros (paired_row c) [].

Definition classifyShopee (text : jsstring) : outcome Columns :=
  let lines := lines_of text in
  for_upto (length lines) (shopee_line lines) no_columns.

Definition parseTableTextShopee (text : jsstring) : outcome (list TableRow) :=
  c ← classifyShopee text; pair_columns c.

(** Body of the loop that classifies the lines of a Mercado Livre table. *)
Definition ml_line (lines : list jsstring) (i : nat) (c : Columns)
    : outcome (nat * Columns) :=
  line ← at_ lines i;
  if test Pat.ml_header line then Ok (i, c)
  else if test Pat.zero_padded line then
    let numero := replace Pat.leading_zeros [] line in
    Ok (i, push_numero numero c)
  else
    match exec Pat.valor_line line with
    | Some valorMatch =>
      valorText ← group_of valorMatch;
      Ok (i, push_valor {| text := valorText; num := parse_valor valorText |} c)
    | None =>
      if negb (test Pat.digits_line line)
         && negb (test Pat.valor_line_test line)
         && negb (test Pat.municipios_comuns line)
         && negb (test Pat.ml_header line)
         && bool_decide (3 < length line)
      then Ok (i, push_descricao line c)
      else Ok (i, c)
    end.

Definition classifyMercadoLivre (text : jsstring) : outcome Columns :=
  let lines := lines_of text in
  for_upto (length lines) (ml_line lines) no_columns.

Definition parseTableTextMercadoLivre (text : jsstring) : outcome (list TableRow) :=
  c ← classifyMercadoLivre text; pair_columns c.

(** The description part of the Magalu loop body. *)
Definition magalu_descricao (line : jsstring) (c : Columns) : Columns :=
  if negb (test Pat.digits_line line)
     && negb (test Pat.valor_anywhere_test line)
     && negb (test Pat.magalu_header line)
     && bool_decide (2 < length line)
  then
    let cleanLine := trim (replace_g Pat.ornaments [] line) in
    if bool_decide (2 < length cleanLine) then push_descricao cleanLine c else c
  else c.

(** Body of the loop that classifies the lines of a Magalu table. *)
Definition magalu_line (lines : list jsstring) (i : nat) (c : Columns)
    : outcome (nat * Columns) :=
  line ← at_ lines i;
  if test Pat.magalu_header line then Ok (i, c)
  else
    match exec Pat.valor_anywhere line with
    | Some valorMatch =>
      valorText ← group_of valorMatch;
      let valorNum := parse_valor valorText in
      if gtZero valorNum
      then Ok (i, push_valor {| text := valorText; num := valorNum |} c)
      else Ok (i, magalu_descricao line c)
    | None => Ok (i, magalu_descricao line c)
    end.

(** Body of the loop that builds the records of Magalu. *)
Definition magalu_row (c : Columns) (i : nat) (data : list TableRow)
    : outcome (nat * list TableRow) :=
  v ← at_ (valores c) i;
  Ok (i, data ++ [ {| nf := None;
                      valor := num v;
                      valorFormatado := text v;
                      descricao := descricao_at (descricoes c) i;
                      tipo := TipoNull |} ]).

Definition classifyMagalu (text : jsstring) : outcome Columns :=
  let lines := lines_of text in
  for_upto (length lines) (magalu_line lines) no_columns.

Definition rows_of_valores (c : Columns) : outcome (list TableRow) :=
  if bool_decide (length (valores c) = 0) then Ok []
  else for_upto (length (valores c)) (magalu_row c) [].

Definition parseTableTextMagalu (text : jsstring) : outcome (list TableRow) :=
  c ← classifyMagalu text; rows_of_valores c.

Definition parseTableText (text marketplace : jsstring) : outcome (list TableRow) :=
  if Str.eqb marketplace (js "Shopee") then parseTableTextShopee text
  else if Str.eqb marketplace (js "Mercado Livre") then parseTableTextMercadoLivre text
  else if Str.eqb marketplace (js "Magalu") then parseTableTextMagalu text
  else Ok [].

(** The records that the two building loops append at index [i]. *)
Definition paired (c : Columns) (i : nat) (v : Valor) : TableRow :=
  {| nf := numeros c !! i; valor := num v; valorFormatado := text v;
     descricao := descricao_at (descricoes c) i; tipo := TipoAbsent |}.

Definition unpaired (c : Columns) (i : nat) (v : Valor) : TableRow :=
  {| nf := None; valor := num v; valorFormatado := text v;
     descricao := descricao_at (descricoes c) i; tipo := TipoNull |}.

(** The texts that the amount patterns capture, [[\d.]+,\d{2}]: digits and
    periods, the comma, two digits. *)
Definition amount_text (t : jsstring) : Prop :=
  exists body fraction,
    t = body ++ js "," ++ fraction
    /\ body <> [] /\ Forall (fun x => Pat.digit_or_dot x = true) body
    /\ length fraction = 2 /\ Forall (fun x => is_digit x = true) fraction.

(** Every collected amount is such a text and carries the value parsed from
    it. *)
Definition parsed_amounts (c : Columns) : Prop :=
  Forall (fun v => amount_text (text v) /\ num v = parse_valor (text v)) (valores c).

(** One round of a classification loop changes the columns by at most one
    push, and an amount is pushed together with its parsed value. *)
Inductive pushes : Columns -> Columns -> Prop :=
| pushes_nothing c : pushes c c
| pushes_numero c n : pushes c (push_numero n c)
| pushes_descricao c d : pushes c (push_descricao d c)
| pushes_valor c t :
    amount_text t -> pushes c (push_valor {| text := t; num := parse_valor t |} c).

End Logic.

(** *** Matchers *)

Section Matching.
Context `{Host}.

Definition placeholder_nf : jsstring := js "XXXX".

(** The list [valorFormats] of [findMatchingRowMagalu]. *)
Definition valorFormatsMagalu (row : TableRow) : list jsstring :=
  let valorBase := toFixed2 (valor row) in
  let parts := split_on 46 valorBase in
  let inteiro := template_text (parts !! 0) in
  let decimal := template_text (parts !! 1) in
  let decimalInt := parseInt_text (parts !! 1) in
  [ js "R$" ++ inteiro ++ js "," ++ decimal;
    js "R$ " ++ inteiro ++ js "," ++ decimal;
    js "R$" ++ inteiro ++ js "," ++ decimalInt;
    js "R$ " ++ inteiro ++ js "," ++ decimalInt;
    js "R$" ++ inteiro ++ js "." ++ decimal;
    js "R$ " ++ inteiro ++ js "." ++ decimal;
    js "R$" ++ inteiro ++ js "." ++ decimalInt;
    js "R$ " ++ inteiro ++ js "." ++ decimalInt;
    inteiro ++ js "," ++ decimal;
    inteiro ++ js "," ++ decimalInt;
    inteiro ++ js "." ++ decimal;
    inteiro ++ js "." ++ decimalInt;
    valorFormatado row ].

(** [x.replace(/\s+/g, '').toUpperCase()] *)
Definition normalizeMagalu (x : jsstring) : jsstring :=
  toUpperCase (replace_g Pat.spaces [] x).

(** The inner loop of [findMatchingRowMagalu]: some format of the row occurs
    in the normalized PDF text. *)
Definition valorFoundMagalu (normalizedPdfText : jsstring) (row : TableRow) : bool :=
  existsb (fun formato => includes normalizedPdfText (normalizeMagalu formato))
          (valorFormatsMagalu row).

(** [nfInfo.nf || 'XXXX'] *)
Definition nf_or_placeholder (x : option jsstring) : jsstring :=
  match x with
  | Some t => if truthy t then t else placeholder_nf
  | None => placeholder_nf
  end.

(** [{ ...row, nf: nfInfo.nf || 'XXXX', tipo: nfInfo.tipo }] *)
Definition updatedRow (row : TableRow) (nfInfo : NFInfo) : TableRow :=
  {| nf := Some (nf_or_placeholder (info_nf nfInfo));
     valor := valor row;
     valorFormatado := valorFormatado row;
     descricao := descricao row;
     tipo := TipoText (info_tipo nfInfo) |}.

Fixpoint findMagaluFrom (pdfText normalizedPdfText : jsstring)
    (tableData : list TableRow) : option TableRow :=
  match tableData with
  | [] => None
  | row :: rest =>
    if valorFoundMagalu normalizedPdfText row
    then Some (updatedRow row (extractNFInfoFromPDF pdfText))
    else findMagaluFrom pdfText normalizedPdfText rest
  end.

Definition findMatchingRowMagalu (pdfText : jsstring) (tableData : list TableRow)
    : option TableRow :=
  findMagaluFrom pdfText (normalizeMagalu pdfText) tableData.

(** The list [valorFormats] of [findMatchingRow]. *)
Definition valorFormats (row : TableRow) : list jsstring :=
  [ valorFormatado row;
    replace Pat.period (js ",") (toFixed2 (valor row));
    toLocaleStringBR (valor row);
    replace Pat.period (js ",") (numberToString (valor row));
    toFixed2 (valor row) ].

(** The inner loop of the second and third strategies. *)
Definition valorFound (normalizedPdfText : jsstring) (row : TableRow) : bool :=
  existsb (fun formato =>
             includes normalizedPdfText (replace_g Pat.spaces [] formato))
          (valorFormats row).

(** Truthiness of [row.nf] together with [normalizedPdfText.includes(row.nf)]. *)
Definition nfFound (normalizedPdfText : jsstring) (row : TableRow) : bool :=
  match nf row with
  | Some n => truthy n && includes normalizedPdfText n
  | None => false
  end.

(** [row.nf === fileNum] *)
Definition nf_is (fileNum : jsstring) (row : TableRow) : bool :=
  match nf row with
  | Some n => Str.eqb n fileNum
  | None => false
  end.

(** The loop over the numbers of the file name. *)
Fixpoint firstByFileNum (fileNameNumbers : list jsstring) (tableData : list TableRow)
    : option TableRow :=
  match fileNameNumbers with
  | [] => None
  | fileNum :: more =>
    match List.find (nf_is fileNum) tableData with
    | Some rowByFileName => Some rowByFileName
    | None => firstByFileNum more tableData
    end
  end.

(** First strategy: a number of the file name is the number of a row. *)
Definition matchByFileName (fileName : jsstring) (tableData : list TableRow)
    : option TableRow :=
  match match_g Pat.digits_7_9 fileName with
  | Some fileNameNumbers => firstByFileNum fileNameNumbers tableData
  | None => None
  end.

(** Second strategy: number and amount both occur in the PDF text. *)
Definition matchByNumberAndValue (normalizedPdfText : jsstring)
    (tableData : list TableRow) : option TableRow :=
  List.find (fun row => nfFound normalizedPdfText row && valorFound normalizedPdfText row)
            tableData.

(** Third strategy: the amount occurs in the PDF text. *)
Definition matchByValue (normalizedPdfText : jsstring) (tableData : list TableRow)
    : option TableRow :=
  List.find (valorFound normalizedPdfText) tableData.

(** Fourth strategy: the number occurs in the PDF text. *)
Definition matchByNumber (normalizedPdfText : jsstring) (tableData : list TableRow)
    : option TableRow :=
  List.find (nfFound normalizedPdfText) tableData.

(** [pdfText.replace(/\s+/g, ' ').toUpperCase()] *)
Definition normalizePdf (pdfText : jsstring) : jsstring :=
  toUpperCase (replace_g Pat.spaces (js " ") pdfText).

Definition findMatchingRow (pdfText : jsstring) (tableData : list TableRow)
    (fileName marketplace : jsstring) : option TableRow :=
  if Str.eqb marketplace (js "Magalu") then findMatchingRowMagalu pdfText tableData
  else
    let normalizedPdfText := normalizePdf pdfText in
    match matchByFileName fileName tableData with
    | Some row => Some row
    | None =>
      match matchByNumberAndValue normalizedPdfText tableData with
      | Some row => Some row
      | None =>
        match matchByValue normalizedPdfText tableData with
        | Some row => Some row
        | None => matchByNumber normalizedPdfText tableData
        end
      end
    end.

End Matching.

(** ** Records as objects in a store

    The same matchers over references: the table is a list of addresses of
    row objects, a returned row is an address, and the only allocation is the
    object literal built by [findMatchingRowMagalu]. *)

Module Heap.
Section Store.
Context `{Host}.

Definition deref (h : gmap positive TableRow) (l : positive) : outcome TableRow :=
  match h !! l with
  | Some row => Ok row
  | None => TypeError
  end.

(** A new object at an unused address. *)
Definition alloc (h : gmap positive TableRow) (row : TableRow)
    : gmap positive TableRow * positive :=
  let l := fresh (dom h) in (<[l := row]> h, l).

(** [for (const row of tableData) if (p(row)) return row], and
    [tableData.find(p)]: the first reference whose object satisfies [p]. *)
Fixpoint find_ref (h : gmap positive TableRow) (p : TableRow -> bool)
    (tableData : list positive) : outcome (option positive) :=
  match tableData with
  | [] => Ok None
  | l :: rest =>
    row ← deref h l;
    if p row then Ok (Some l) else find_ref h p rest
  end.

Definition findMatchingRowMagalu (h : gmap positive TableRow) (pdfText : jsstring)
    (tableData : list positive) : outcome (gmap positive TableRow * option positive) :=
  found ← find_ref h (valorFoundMagalu (normalizeMagalu pdfText)) tableData;
  match found with
  | Some l =>
    row ← deref h l;
    let (h', l') := alloc h (updatedRow row (extractNFInfoFromPDF pdfText)) in
    Ok (h', Some l')
  | None => Ok (h, None)
  end.

Fixpoint firstByFileNum (h : gmap positive TableRow) (fileNameNumbers : list jsstring)
    (tableData : list positive) : outcome (option positive) :=
  match fileNameNumbers with
  | [] => Ok None
  | fileNum :: more =>
    found ← find_ref h (nf_is fileNum) tableData;
    match found with
    | Some l => Ok (Some l)
    | None => firstByFileNum h more tableData
    end
  end.

Definition matchByFileName (h : gmap positive TableRow) (fileName : jsstring)
    (tableData : list positive) : outcome (option positive) :=
  match match_g Pat.digits_7_9 fileName with
  | Some fileNameNumbers => firstByFileNum h fileNameNumbers tableData
  | None => Ok None
  end.

Definition findMatchingRow (h : gmap positive TableRow) (pdfText : jsstring)
    (tableData : list positive) (fileName marketplace : jsstring)
    : outcome (gmap positive TableRow * option positive) :=
  if Str.eqb marketplace (js "Magalu") then findMatchingRowMagalu h pdfText tableData
  else
    let normalizedPdfText := normalizePdf pdfText in
    r1 ← matchByFileName h fileName tableData;
    match r1 with
    | Some l => Ok (h, Some l)
    | None =>
      r2 ← find_ref h (fun row => nfFound normalizedPdfText row
                                  && valorFound normalizedPdfText row) tableData;
      match r2 with
      | Some l => Ok (h, Some l)
      | None =>
        r3 ← find_ref h (valorFound normalizedPdfText) tableData;
        match r3 with
        | Some l => Ok (h, Some l)
        | None =>
          r4 ← find_ref h (nfFound normalizedPdfText) tableData;
          Ok (h, r4)
        end
      end
    end.

End Store.
End Heap.

(** ** Notions of the specification

    Definitions that follow the words of the specification, to be compared
    with the code: positional pairing, the lines that contribute identifiers
    and amounts, the renderings of an amount. *)

Module Spec.
Section Spec.
Context `{Host}.

(** The two table layouts whose records pair an identifier with an amount. *)
Inductive paired_variant : Type := VariantA | VariantB.

Definition classify_of (v : paired_variant) : jsstring -> outcome Columns :=
  match v with
  | VariantA => classifyShopee
  | VariantB => classifyMercadoLivre
  end.

Definition parse_of (v : paired_variant) : jsstring -> outcome (list TableRow) :=
  match v with
  | VariantA => parseTableTextShopee
  | VariantB => parseTableTextMercadoLivre
  end.

(** Positional pairing: the i-th identifier with the i-th amount and the i-th
    description, the placeholder once the descriptions run out; as many
    records as the shorter of the identifier and amount lists. *)
Fixpoint positional_pairing (ids : list jsstring) (amounts : list Valor)
    (descriptions : list jsstring) : list TableRow :=
  match ids, amounts with
  | n :: ids', v :: amounts' =>
    {| nf := Some n; valor := num v; valorFormatado := text v;
       descricao := match descriptions with d :: _ => d | [] => placeholder end;
       tipo := TipoAbsent |}
    :: positional_pairing ids' amounts' (tl descriptions)
  | _, _ => []
  end.

(** The five renderings of a record's amount that the matcher looks for:
    the display string, fixed two decimals with a comma, locale-grouped with
    a comma, the plain number with a comma, fixed two decimals with a
    period. *)
Definition amount_renderings (row : TableRow) : list jsstring :=
  [ valorFormatado row;
    replace Pat.period (js ",") (toFixed2 (valor row));
    toLocaleStringBR (valor row);
    replace Pat.period (js ",") (numberToString (valor row));
    toFixed2 (valor row) ].

Definition without_spaces (s : jsstring) : jsstring :=
  List.filter (fun c => negb (is_ws c)) s.

(** One of the renderings, white space removed, is a substring of the PDF
    text once that text is single-spaced and upper-cased. *)
Definition amount_occurs (pdfText : jsstring) (row : TableRow) : Prop :=
  exists rendering,
    In rendering (amount_renderings row)
    /\ part_of (without_spaces rendering)
               (toUpperCase (replace_g Pat.spaces (js " ") pdfText)).

(** The identifier and the amount that a line of the table contributes, in
    the two paired layouts: what the classification loop pushes for it. *)
Definition captured_valor (line : jsstring) : option Valor :=
  match exec Pat.valor_line line with
  | Some m =>
    match group1 m with
    | Some t => Some {| text := t; num := parse_valor t |}
    | None => None
    end
  | None => None
  end.

Definition numero_of (v : paired_variant) (line : jsstring) : option jsstring :=
  match v with
  | VariantA =>
    if test Pat.shopee_header line then None
    else if test Pat.digits_7_9_line line then Some line else None
  | VariantB =>
    if test Pat.ml_header line then None
    else if test Pat.zero_padded line
         then Some (replace Pat.leading_zeros [] line) else None
  end.

Definition valor_of (v : paired_variant) (line : jsstring) : option Valor :=
  match v with
  | VariantA =>
    if test Pat.shopee_header line || test Pat.digits_7_9_line line then None
    else captured_valor line
  | VariantB =>
    if test Pat.ml_header line || test Pat.zero_padded line then None
    else captured_valor line
  end.

(** The amount candidates of the Magalu matcher as the specification counts
    them: currency prefix or none, comma or period, and two forms of the
    fraction, which makes eight, then the display string.  [fraction] is the
    second form of the fraction. *)
Definition eight_combinations (inteiro decimal fraction : jsstring) : list jsstring :=
  [ js "R$" ++ inteiro ++ js "," ++ decimal;
    js "R$" ++ inteiro ++ js "," ++ fraction;
    js "R$" ++ inteiro ++ js "." ++ decimal;
    js "R$" ++ inteiro ++ js "." ++ fraction;
    inteiro ++ js "," ++ decimal;
    inteiro ++ js "," ++ fraction;
    inteiro ++ js "." ++ decimal;
    inteiro ++ js "." ++ fraction ].

(** A rendering with a single fraction digit: it ends with a comma or a
    period followed by one digit. *)
Definition single_fraction_digit (c : jsstring) : bool :=
  match rev c with
  | d :: sep :: _ => is_digit d && ((sep =? 44) || (sep =? 46))%N
  | _ => false
  end.

End Spec.
End Spec.

(** ** A concrete host for amounts in cents

    Amounts with two fraction digits, held exactly as a count of cents.  The
    conversions print what JavaScript prints for the binary64 number nearest
    to such an amount while it has at most 15 significant digits.
    [parseFloat] follows JavaScript on the texts the parsers hand to it
    (digits, a period, two digits); any other text is outside this host and
    answers [NaN].  [toUpperCase] is exact on Basic Latin and Latin-1 and
    leaves other code units unchanged. *)

Module DecimalHost.

Inductive amount : Type :=
| NaN
| Cents (c : N).

Definition two_digits (n : N) : jsstring :=
  digits_of (n / 10) ++ digits_of (n mod 10).

Fixpoint all_digits (s : jsstring) : bool :=
  match s with
  | [] => true
  | c :: s' => is_digit c && all_digits s'
  end.

Fixpoint value_of (s : jsstring) (acc : N) : N :=
  match s with
  | [] => acc
  | c :: s' => value_of s' (acc * 10 + (c - 48))%N
  end.

Definition parse (s : jsstring) : amount :=
  match split_on 46 s with
  | [int_part; frac] =>
    if all_digits int_part && all_digits frac && bool_decide (length frac = 2)
    then Cents (value_of int_part 0 * 100 + value_of frac 0)
    else NaN
  | _ => NaN
  end.

Definition fixed2 (v : amount) : jsstring :=
  match v with
  | NaN => js "NaN"
  | Cents c => digits_of (c / 100) ++ js "." ++ two_digits (c mod 100)
  end.

(** Groups of three digits, from the right, on the reversed digits. *)
Fixpoint group3_rev (ds : jsstring) : jsstring :=
  match ds with
  | a :: b :: c :: ((_ :: _) as more) => a :: b :: c :: 46%N :: group3_rev more
  | _ => ds
  end.

Definition locale_br (v : amount) : jsstring :=
  match v with
  | NaN => js "NaN"
  | Cents c =>
    rev (group3_rev (rev (digits_of (c / 100)))) ++ js "," ++ two_digits (c mod 100)
  end.

Definition to_string (v : amount) : jsstring :=
  match v with
  | NaN => js "NaN"
  | Cents c =>
    digits_of (c / 100) ++
    (if (c mod 100 =? 0)%N then []
     else if (c mod 10 =? 0)%N then js "." ++ digits_of (c mod 100 / 10)
     else js "." ++ two_digits (c mod 100))
  end.

Definition positive_amount (v : amount) : bool :=
  match v with
  | NaN => false
  | Cents c => (0 <? c)%N
  end.

Definition upper_unit (c : N) : jsstring :=
  if ((97 <=? c) && (c <=? 122))%N then [(c - 32)%N]
  else if ((224 <=? c) && (c <=? 254) && negb (c =? 247))%N then [(c - 32)%N]
  else if (c =? 223)%N then [83; 83]%N
  else if (c =? 255)%N then [376%N]
  else if (c =? 181)%N then [924%N]
  else [c].

Definition upper (s : jsstring) : jsstring := concat (map upper_unit s).

#[global] Instance host : Host := {|
  number := amount;
  parseFloat := parse;
  toFixed2 := fixed2;
  toLocaleStringBR := locale_br;
  numberToString := to_string;
  gtZero := positive_amount;
  toUpperCase := upper
|}.

(** A record and an amount cell of this host. *)
Definition row (n : option jsstring) (cents : N) (display description : jsstring)
    (t : tipo_field) : TableRow :=
  {| nf := n; valor := Cents cents; valorFormatado := display;
     descricao := description; tipo := t |}.

Definition cell (display : jsstring) (cents : N) : Valor :=
  {| text := display; num := Cents cents |}.

(** The scenario of the specification: one Shopee record, found again in a
    PDF text through number and amount. *)
Definition limpeza : TableRow :=
  {| nf := Some (js "1234567"); valor := Cents 15000; valorFormatado := js "150,00";
     descricao := js "Serviço - de Limpeza"; tipo := TipoAbsent |}.

(** A Magalu table of two records held in a store at addresses 1 and 2. *)
Definition frete : TableRow := row None 1205 (js "12,05") (js "Frete") TipoNull.
Definition taxa : TableRow := row None 15000 (js "150,00") (js "Taxa") TipoNull.
Definition store0 : gmap positive TableRow :=
  <[1%positive := frete]> (<[2%positive := taxa]> ∅).

End DecimalHost.

(** ** What a classification round pushes

    The same rounds as [pushes], with what is known of the pushed value. *)

Section Rounds.
Context `{Host}.

Inductive pushes_with (Pn Pd : jsstring -> Prop) (Pv : Valor -> Prop)
    : Columns -> Columns -> Prop :=
| with_nothing c : pushes_with Pn Pd Pv c c
| with_numero c n : Pn n -> pushes_with Pn Pd Pv c (push_numero n c)
| with_descricao c d : Pd d -> pushes_with Pn Pd Pv c (push_descricao d c)
| with_valor c v : Pv v -> pushes_with Pn Pd Pv c (push_valor v c).

Definition columns_hold (Pn Pd : jsstring -> Prop) (Pv : Valor -> Prop) (c : Columns) : Prop :=
  Forall Pn (numeros c) /\ Forall Pd (descricoes c) /\ Forall Pv (valores c).

(** An amount cell as the parsers build it: the captured text and the value
    parsed from it. *)
Definition parsed_cell (v : Valor) : Prop :=
  amount_text (text v) /\ num v = parse_valor (text v).

(** A run of digits that does not start with a zero (it may be empty). *)
Definition stripped_number (n : jsstring) : Prop :=
  Forall (fun x => is_digit x = true) n /\ head n <> Some 48%N.

(** The longest prefix of code units of a class. *)
Fixpoint prefix_of (p : N -> bool) (s : jsstring) : jsstring :=
  match s with
  | c :: s' => if p c then c :: prefix_of p s' else []
  | [] => []
  end.

End Rounds.

(** ** Files and outside services

    The OCR service (api.ocr.space, reached with [fetch]) and pdf.js are
    requests whose answers come from outside.  A program that uses them is a
    tree of requests; [perform] runs it against services that may answer
    differently from one request to the next.  Log lines are not part of the
    model. *)

Module IO.

(** A browser [File]: name, MIME type and content. *)
Record File : Type := { name : jsstring; type : jsstring; bytes : list N }.

(** [OcrSpace file pdf]: the form posted to the OCR service, with
    [filetype=PDF] when [pdf] holds; the answer is the [ParsedText] of the
    first result, or [None] when [fetch], the decoding or the service fails
    ([IsErroredOnProcessing]).
    [PdfJs file]: the document is opened and the text items ([item.str]) of
    every page are read, page by page; [None] when any of these steps
    throws. *)
Inductive io (A : Type) : Type :=
| Return (a : A)
| OcrSpace (file : File) (pdf : bool) (k : option jsstring -> io A)
| PdfJs (file : File) (k : option (list (list jsstring)) -> io A).

Arguments Return {A} a.
Arguments OcrSpace {A} file pdf k.
Arguments PdfJs {A} file k.

Fixpoint bind {A B} (f : A -> io B) (m : io A) : io B :=
  match m with
  | Return a => f a
  | OcrSpace file pdf k => OcrSpace file pdf (fun r => bind f (k r))
  | PdfJs file k => PdfJs file (fun r => bind f (k r))
  end.

#[global] Instance io_ret : MRet io := fun A a => Return a.
#[global] Instance io_bind : MBind io := fun A B f m => bind f m.

(** The requests a run makes, in order. *)
Inductive request : Type :=
| AskOcr (file : File) (pdf : bool)
| AskPdfJs (file : File).

(** Services with a state of their own. *)
Record Services (W : Type) : Type := {
  ocr_space : File -> bool -> W -> option jsstring * W;
  pdf_js : File -> W -> option (list (list jsstring)) * W
}.

Arguments ocr_space {W} _ _ _ _.
Arguments pdf_js {W} _ _ _.

Fixpoint perform {W A} (sv : Services W) (p : io A) (w : W) : A * list request * W :=
  match p with
  | Return a => (a, [], w)
  | OcrSpace file pdf k =>
    let '(r, w1) := ocr_space sv file pdf w in
    let '(a, asked, w2) := perform sv (k r) w1 in
    (a, AskOcr file pdf :: asked, w2)
  | PdfJs file k =>
    let '(r, w1) := pdf_js sv file w in
    let '(a, asked, w2) := perform sv (k r) w1 in
    (a, AskPdfJs file :: asked, w2)
  end.

(** What a run returns and the requests it makes. *)
Definition value {W A} (sv : Services W) (p : io A) (w : W) : A :=
  fst (fst (perform sv p w)).
Definition asked {W A} (sv : Services W) (p : io A) (w : W) : list request :=
  snd (fst (perform sv p w)).

End IO.

(** ** Text extraction (logic.ts) *)

(** [extractTextFromImage]: the text, or the exception thrown again
    ([None]). *)
Definition extractTextFromImage (file : IO.File) : IO.io (option jsstring) :=
  IO.OcrSpace file false (fun r => IO.Return r).

(** [extractTextFromPDFWithOCR]: the text, or the empty string after an
    exception. *)
Definition extractTextFromPDFWithOCR (file : IO.File) : IO.io jsstring :=
  IO.OcrSpace file true (fun r => IO.Return (default [] r)).

(** [parts.join(sep)] *)
Fixpoint join (sep : jsstring) (parts : list jsstring) : jsstring :=
  match parts with
  | [] => []
  | [x] => x
  | x :: more => x ++ sep ++ join sep more
  end.

(** The loop over the pages: [fullText += pageText + ' ']. *)
Definition fullText_of (pages : list (list jsstring)) : jsstring :=
  fold_left (fun fullText items => fullText ++ join (js " ") items ++ js " ") pages [].

Definition extractTextFromPDF (file : IO.File) (marketplace : jsstring) : IO.io jsstring :=
  IO.PdfJs file (fun r =>
    match r with
    | None => IO.Return []
    | Some pages =>
      let fullText := fullText_of pages in
      if Str.eqb marketplace (js "Magalu") && bool_decide (length (trim fullText) < 50)
      then
        ocrText ← extractTextFromPDFWithOCR file;
        if truthy ocrText && bool_decide (0 < length ocrText)
        then IO.Return ocrText
        else IO.Return fullText
      else IO.Return fullText
    end).

(** The requests that reading one PDF makes: pdf.js, then the OCR service
    when [ocr] holds. *)
Definition requests_for (file : IO.File) (ocr : bool) : list IO.request :=
  IO.AskPdfJs file :: (if ocr then [IO.AskOcr file true] else []).

(** ** The application (App.tsx)

    The state of the component without what only the display uses (theme,
    progress, log lines).  A run of [processDocuments] is taken as one step:
    it works on the files and settings it was started with. *)

Module App.

Record ProcessingResult : Type := {
  originalName : jsstring;
  newName : jsstring;
  file : IO.File;
  matched : bool
}.

Record State : Type := {
  marketplace : jsstring;
  unidade : jsstring;
  tableFile : option IO.File;
  pdfFiles : list IO.File;
  processing : bool;
  results : list ProcessingResult;
  showLog : bool
}.

(** The initial values of [useState]. *)
Definition initial : State :=
  {| marketplace := js "Shopee"; unidade := js "Ninja PR"; tableFile := None;
     pdfFiles := []; processing := false; results := []; showLog := false |}.

(** The options of the two [select] elements. *)
Definition marketplace_options : list jsstring :=
  [js "Shopee"; js "Mercado Livre"; js "Magalu"].
Definition unidade_options : list jsstring :=
  [js "Ninja PR"; js "Ninja SC"; js "Ninja SP"].

Definition is_image (f : IO.File) : bool := starts_with (js "image/") (IO.type f).
Definition is_pdf (f : IO.File) : bool := Str.eqb (IO.type f) (js "application/pdf").

(** [handleTableUpload]: the first file when it is an image (an alert
    otherwise). *)
Definition handleTableUpload (files : list IO.File) (st : State) : State :=
  match files with
  | [] => st
  | file :: _ =>
    if negb (is_image file) then st
    else {| marketplace := marketplace st; unidade := unidade st;
            tableFile := Some file; pdfFiles := pdfFiles st;
            processing := processing st; results := results st;
            showLog := showLog st |}
  end.

(** [handleTableDrop] *)
Definition handleTableDrop (files : list IO.File) (st : State) : State :=
  match files with
  | [] => st
  | file :: _ =>
    if is_image file
    then {| marketplace := marketplace st; unidade := unidade st;
            tableFile := Some file; pdfFiles := pdfFiles st;
            processing := processing st; results := results st;
            showLog := showLog st |}
    else st
  end.

(** [handlePdfUpload] and [handlePdfDrop]: the PDF files among the new ones
    are appended. *)
Definition handlePdfUpload (files : list IO.File) (st : State) : State :=
  match files with
  | [] => st
  | _ :: _ =>
    let newFiles := List.filter is_pdf files in
    {| marketplace := marketplace st; unidade := unidade st;
       tableFile := tableFile st; pdfFiles := pdfFiles st ++ newFiles;
       processing := processing st; results := results st;
       showLog := showLog st |}
  end.

Definition handlePdfDrop (files : list IO.File) (st : State) : State :=
  match files with
  | [] => st
  | _ :: _ =>
    let newFiles := List.filter is_pdf files in
    {| marketplace := marketplace st; unidade := unidade st;
       tableFile := tableFile st; pdfFiles := pdfFiles st ++ newFiles;
       processing := processing st; results := results st;
       showLog := showLog st |}
  end.

Definition clearTable (st : State) : State :=
  {| marketplace := marketplace st; unidade := unidade st;
     tableFile := None; pdfFiles := pdfFiles st;
     processing := processing st; results := results st; showLog := showLog st |}.

Definition clearPdfs (st : State) : State :=
  {| marketplace := marketplace st; unidade := unidade st;
     tableFile := tableFile st; pdfFiles := [];
     processing := processing st; results := results st; showLog := showLog st |}.

Definition resetAll (st : State) : State :=
  {| marketplace := marketplace st; unidade := unidade st;
     tableFile := None; pdfFiles := [];
     processing := processing st; results := []; showLog := false |}.

(** [onChange] of a [select]: the value of the chosen option, one of the
    options listed above since the element offers no other. *)
Definition setMarketplace (choice : nat) (st : State) : State :=
  match marketplace_options !! choice with
  | Some value =>
    {| marketplace := value; unidade := unidade st;
       tableFile := tableFile st; pdfFiles := pdfFiles st;
       processing := processing st; results := results st; showLog := showLog st |}
  | None => st
  end.

Definition setUnidade (choice : nat) (st : State) : State :=
  match unidade_options !! choice with
  | Some value =>
    {| marketplace := marketplace st; unidade := value;
       tableFile := tableFile st; pdfFiles := pdfFiles st;
       processing := processing st; results := results st; showLog := showLog st |}
  | None => st
  end.

(** [setShowLog(!showLog)] *)
Definition toggleLog (st : State) : State :=
  {| marketplace := marketplace st; unidade := unidade st;
     tableFile := tableFile st; pdfFiles := pdfFiles st;
     processing := processing st; results := results st;
     showLog := negb (showLog st) |}.

(** How a call of [processDocuments] ends. *)
Inductive error : Type :=
| OcrFailed      (* [extractTextFromImage] threw *)
| NoValidData    (* 'Nenhum dado válido encontrado na tabela. Verifique a imagem.' *)
| Raised.        (* an exception of the parser *)

Inductive ending : Type :=
| NotStarted
| Fatal (e : error)
| Finished.

(** The state while a run is under way and when it ends. *)
Definition started (st : State) : State :=
  {| marketplace := marketplace st; unidade := unidade st;
     tableFile := tableFile st; pdfFiles := pdfFiles st;
     processing := true; results := []; showLog := true |}.

Definition stopped (st : State) : State :=
  {| marketplace := marketplace st; unidade := unidade st;
     tableFile := tableFile st; pdfFiles := pdfFiles st;
     processing := false; results := results st; showLog := showLog st |}.

Definition setResults (newResults : list ProcessingResult) (st : State) : State :=
  {| marketplace := marketplace st; unidade := unidade st;
     tableFile := tableFile st; pdfFiles := pdfFiles st;
     processing := processing st; results := newResults; showLog := showLog st |}.

(** [downloadZip]: nothing without a matched result; otherwise the calls
    [zip.file(result.newName, ...)], in order. *)
Definition downloadZip (st : State) : option (list (jsstring * IO.File)) :=
  if negb (existsb matched (results st)) then None
  else Some (map (fun result => (newName result, file result))
                 (List.filter matched (results st))).

Definition matchedCount (st : State) : nat :=
  length (List.filter matched (results st)).
Definition unmatchedCount (st : State) : nat :=
  length (List.filter (fun r => negb (matched r)) (results st)).

(** What holds of the state however the component is used: the files are
    of the accepted types, the settings are options of the two lists, no
    run is under way, and every result is about a PDF under its own name. *)
Definition coherent (st : State) : Prop :=
  Forall (fun f => is_pdf f = true) (pdfFiles st)
  /\ (forall f, tableFile st = Some f -> is_image f = true)
  /\ In (marketplace st) marketplace_options
  /\ In (unidade st) unidade_options
  /\ processing st = false
  /\ Forall (fun r => is_pdf (file r) = true
                      /\ originalName r = IO.name (file r)
                      /\ (matched r = false -> newName r = originalName r))
            (results st).

Section Run.
Context `{Host}.

(** [matchedRow.tipo || 'NFS'] *)
Definition prefixo (matchedRow : TableRow) : jsstring :=
  match tipo matchedRow with
  | TipoText t => if truthy t then t else js "NFS"
  | TipoNull | TipoAbsent => js "NFS"
  end.

(** What the template literal prints for [matchedRow.nf]. *)
Definition nf_text (matchedRow : TableRow) : jsstring :=
  match nf matchedRow with
  | Some n => n
  | None => js "null"
  end.

(** The template literal of the new name. *)
Definition renamed (matchedRow : TableRow) (marketplace unidade : jsstring) : jsstring :=
  prefixo matchedRow ++ js " " ++ nf_text matchedRow ++ js " - "
  ++ descricao matchedRow ++ js " - R$"
  ++ replace Pat.period (js ",") (toFixed2 (valor matchedRow))
  ++ js " - " ++ marketplace ++ js " - " ++ unidade ++ js ".pdf".

(** The result pushed for one PDF, once its text is known. *)
Definition result_of (file : IO.File) (pdfText : jsstring) (tableData : list TableRow)
    (marketplace unidade : jsstring) : ProcessingResult :=
  match findMatchingRow pdfText tableData (IO.name file) marketplace with
  | Some matchedRow =>
    {| originalName := IO.name file;
       newName := renamed matchedRow marketplace unidade;
       file := file;
       matched := true |}
  | None =>
    {| originalName := IO.name file;
       newName := IO.name file;
       file := file;
       matched := false |}
  end.

(** The loop over [pdfFiles]. *)
Fixpoint process_pdfs (files : list IO.File) (tableData : list TableRow)
    (marketplace unidade : jsstring) (newResults : list ProcessingResult)
    : IO.io (list ProcessingResult) :=
  match files with
  | [] => IO.Return newResults
  | file :: more =>
    pdfText ← extractTextFromPDF file marketplace;
    process_pdfs more tableData marketplace unidade
      (newResults ++ [result_of file pdfText tableData marketplace unidade])
  end.

Definition processDocuments (st : State) : IO.io (ending * State) :=
  match tableFile st with
  | None => IO.Return (NotStarted, st)
  | Some table =>
    if bool_decide (length (pdfFiles st) = 0) then IO.Return (NotStarted, st)
    else
      let st := started st in
      tableText ← extractTextFromImage table;
      match tableText with
      | None => IO.Return (Fatal OcrFailed, stopped st)
      | Some tableText =>
        match parseTableText tableText (marketplace st) with
        | Ok tableData =>
          if bool_decide (length tableData = 0)
          then IO.Return (Fatal NoValidData, stopped st)
          else
            newResults ← process_pdfs (pdfFiles st) tableData
                                      (marketplace st) (unidade st) [];
            IO.Return (Finished, stopped (setResults newResults st))
        | TypeError | OutOfFuel => IO.Return (Fatal Raised, stopped st)
        end
      end
  end.

(** What the user does. *)
Inductive action : Type :=
| HandleTableUpload (files : list IO.File)
| HandleTableDrop (files : list IO.File)
| HandlePdfUpload (files : list IO.File)
| HandlePdfDrop (files : list IO.File)
| ClearTable
| ClearPdfs
| ResetAll
| SetMarketplace (choice : nat)
| SetUnidade (choice : nat)
| ToggleLog
| ProcessDocuments.

Definition act (a : action) (st : State) : IO.io State :=
  match a with
  | HandleTableUpload files => IO.Return (handleTableUpload files st)
  | HandleTableDrop files => IO.Return (handleTableDrop files st)
  | HandlePdfUpload files => IO.Return (handlePdfUpload files st)
  | HandlePdfDrop files => IO.Return (handlePdfDrop files st)
  | ClearTable => IO.Return (clearTable st)
  | ClearPdfs => IO.Return (clearPdfs st)
  | ResetAll => IO.Return (resetAll st)
  | SetMarketplace choice => IO.Return (setMarketplace choice st)
  | SetUnidade choice => IO.Return (setUnidade choice st)
  | ToggleLog => IO.Return (toggleLog st)
  | ProcessDocuments => r ← processDocuments st; IO.Return (snd r)
  end.

Fixpoint session (actions : list action) (st : State) : IO.io State :=
  match actions with
  | [] => IO.Return st
  | a :: more => st' ← act a st; session more st'
  end.

End Run.

End App.

(** ** Sample files and services *)

Module Sample.

Definition tabela : IO.File :=
  {| IO.name := js "tabela.png"; IO.type := js "image/png"; IO.bytes := [1%N] |}.
Definition nota1 : IO.File :=
  {| IO.name := js "NF 1234567.pdf"; IO.type := js "application/pdf"; IO.bytes := [2%N] |}.
Definition nota2 : IO.File :=
  {| IO.name := js "recibo.pdf"; IO.type := js "application/pdf"; IO.bytes := [3%N] |}.
Definition planilha : IO.File :=
  {| IO.name := js "dados.csv"; IO.type := js "text/csv"; IO.bytes := [4%N] |}.

(** Services without a state: the answers are fixed per file. *)
Definition fixed (table : option jsstring)
    (pages : IO.File -> option (list (list jsstring)))
    (ocr : IO.File -> option jsstring) : IO.Services unit :=
  {| IO.ocr_space := fun file pdf w => (if pdf then ocr file else table, w);
     IO.pdf_js := fun file w => (pages file, w) |}.

(** A table image whose OCR gives two records, and two PDF files: the first
    shows the number and the amount of the first record, the second shows
    nothing that the table knows. *)
Definition tabela_text : jsstring :=
  text_of [js "NF-e"; js "1234567"; js "7654321"; js "Taxa - de envio";
           js "R$ 10,00"; js "R$ 20,00"].

Definition pages_of (file : IO.File) : option (list (list jsstring)) :=
  if Str.eqb (IO.name file) (js "NF 1234567.pdf")
  then Some [[js "NFS-e"; js "1234567"]; [js "Total"; js "R$ 10,00"]]
  else Some [[js "Recibo"; js "sem"; js "numero"]].

Definition services : IO.Services unit :=
  fixed (Some tabela_text) pages_of (fun _ => None).

Definition ready (marketplace : jsstring) : App.State :=
  {| App.marketplace := marketplace; App.unidade := js "Ninja PR";
     App.tableFile := Some tabela; App.pdfFiles := [nota1; nota2];
     App.processing := false; App.results := []; App.showLog := false |}.

(** A Magalu table of one amount, and a PDF without a text layer that the
    OCR reads. *)
Definition magalu_text : jsstring :=
  text_of [js "Serviço prestado"; js "Frete expresso"; js "R$ 150,00"].

Definition scanned : IO.File :=
  {| IO.name := js "digitalizado.pdf"; IO.type := js "application/pdf"; IO.bytes := [5%N] |}.

Definition magalu_services : IO.Services unit :=
  fixed (Some magalu_text) (fun _ => Some [[]; [js " "]])
        (fun _ => Some (js "NOTA DE DEBITO Nº da Nota: 8841 Valor R$ 150,00")).

Definition magalu_ready : App.State :=
  {| App.marketplace := js "Magalu"; App.unidade := js "Ninja SC";
     App.tableFile := Some tabela; App.pdfFiles := [scanned];
     App.processing := false; App.results := []; App.showLog := false |}.

End Sample.

(** * Properties *)

(** ** Sanity checks of the embedding on concrete inputs *)

Module Examples.
Import DecimalHost.

Example js_numero : js "Número" = [78; 250; 109; 101; 114; 111]%N.
Proof. reflexivity. Qed.

Example js_bullet : js "●•◆○J®©" = [9679; 8226; 9670; 9675; 74; 174; 169]%N.
Proof. reflexivity. Qed.

Example split_lines_ex :
  split_lines (text_of [js "a"; js "b"; []; js "c"])
  = [js "a"; js "b"; []; js "c"].
Proof. reflexivity. Qed.

Example match_g_digits :
  match_g (Rep is_digit 7 (Some 9)) (js "NF 1234567890123456 - 1234567.pdf")
  = Some [js "123456789"; js "0123456"; js "1234567"].
Proof. reflexivity. Qed.

Example replace_g_ws :
  replace_g (plus is_ws) (js " ") (js "a  b 	 c") = js "a b c".
Proof. reflexivity. Qed.

Example replace_first_comma :
  replace (chr 44) (js ".") (js "1,2,3") = js "1.2,3".
Proof. reflexivity. Qed.

Example replace_g_empty_matches :
  replace_g (star is_digit) (js "-") (js "a12b") = js "-a--b-".
Proof. reflexivity. Qed.

Example parseInt_text_ex :
  map parseInt_text [Some (js "50"); Some (js "05"); Some (js "00"); None; Some (js "5e+21")]
  = [js "50"; js "5"; js "0"; js "NaN"; js "5"].
Proof. reflexivity. Qed.

Example date_range_ex :
  map (test Pat.date_range)
      [js "12 de Janeiro - 15 de Fevereiro de 2024";
       js "1 DE maio 3 de junho de 2023";
       js "12 de Março - 15 de Abril de 2024";
       js "Taxa - 12 de Janeiro de 2024"]
  = [true; true; false; false].
Proof. reflexivity. Qed.

Example valor_line_ex :
  map (fun s => group1 <$> exec Pat.valor_line s)
      [js "R$ 1.234,56"; js "150,00"; js "$.,00"; js "r$ 1,00"; js "1,000"]
  = [Some (Some (js "1.234,56")); Some (Some (js "150,00")); Some (Some (js ".,00"));
     None; None].
Proof. reflexivity. Qed.

Example conversions :
  map (fun c => (fixed2 (Cents c), locale_br (Cents c), to_string (Cents c)))
      [15000; 1250; 1205; 123456; 123456789; 7]%N
  = [(js "150.00", js "150,00", js "150");
     (js "12.50", js "12,50", js "12.5");
     (js "12.05", js "12,05", js "12.05");
     (js "1234.56", js "1.234,56", js "1234.56");
     (js "1234567.89", js "1.234.567,89", js "1234567.89");
     (js "0.07", js "0,07", js "0.07")].
Proof. reflexivity. Qed.

Example parse_ex :
  map parse [js "1234.56"; js ".50"; js "150.00"; js "abc"]
  = [Cents 123456; Cents 50; Cents 15000; NaN].
Proof. reflexivity. Qed.

Example upper_ex : upper (js "Nota de Débito nº 12") = js "NOTA DE DÉBITO Nº 12".
Proof. reflexivity. Qed.

Example shopee_scenario :
  parseTableText
    (text_of [js "Número"; js "1234567"; js "R$ 150,00"; js "Serviço - de Limpeza"])
    (js "Shopee")
  = Ok [limpeza].
Proof. vm_compute. reflexivity. Qed.

Example shopee_scenario_match :
  findMatchingRow (js "NFS-e 1234567 valor total 150,00") [limpeza]
                  (js "doc.pdf") (js "Shopee")
  = Some limpeza
  /\ matchByFileName (js "doc.pdf") [limpeza] = None
  /\ matchByNumberAndValue (normalizePdf (js "NFS-e 1234567 valor total 150,00")) [limpeza]
     = Some limpeza.
Proof. vm_compute. auto. Qed.

Example trailing_number_ex :
  map (replace Pat.trailing_number [])
      [js "Taxa de envio 123456789  "; js "abc 1234567 7654321"; js "Pedido 1234567890";
       js "Frete1234567"]
  = [js "Taxa de envio"; js "abc 1234567"; js "Pedido 1234567890"; js "Frete1234567"].
Proof. reflexivity. Qed.

Example valor_anywhere_ex :
  map (fun s => group1 <$> exec Pat.valor_anywhere s)
      [js "Total r$ 1.234,56 pago"; js "12,345,67"; js "sem valor"]
  = [Some (Some (js "1.234,56")); Some (Some (js "12,34")); None].
Proof. reflexivity. Qed.

Example zero_padded_ex :
  map (fun s => (test Pat.zero_padded s, replace Pat.leading_zeros [] s))
      [js "0001230"; js "000"; js "0"; js "1230"]
  = [(true, js "1230"); (true, []); (false, []); (false, js "1230")].
Proof. reflexivity. Qed.

Example patterns_ex :
  map (fun s => info_nf (extractNFInfoFromPDF s))
      [js "NÚMERO DA NOTA 42"; js "No. da Nota: 123"; js "nº da nota 55";
       js "Número Nota Fiscal:7"; js "nota 123"; js "Nota: 2024"]
  = [Some (js "42"); Some (js "123"); Some (js "55"); Some (js "7"); None;
     Some (js "2024")].
Proof. reflexivity. Qed.

Example parse_valor_grouped :
  parse_valor (js "1.234,56") = Cents 123456
  /\ parse_valor (js "1234,56") = Cents 123456.
Proof. split; reflexivity. Qed.

Example magalu_table :
  parseTableText
    (text_of [js "Serviço prestado"; js "● Frete J"; js "R$ 12,50"; js "0,00"; js "x"])
    (js "Magalu")
  = Ok [row None 1250 (js "12,50") (js "Frete") TipoNull].
Proof. vm_compute. reflexivity. Qed.

Example shopee_joined_description :
  parseTableText
    (text_of [js "Taxa de serviço -"; js "Janeiro 2024 1234567"; js "1234567";
              js "R$ 1.234,56"; js "12 de Janeiro - 15 de Fevereiro de 2024"])
    (js "Shopee")
  = Ok [row (Some (js "1234567")) 123456 (js "1.234,56")
            (js "Taxa de serviço - Janeiro 2024") TipoAbsent].
Proof. vm_compute. reflexivity. Qed.

End Examples.

(** ** Strings *)

Lemma starts_with_spec x s : starts_with x s = true <-> exists b, s = x ++ b.
Proof.
  revert s. induction x as [|a x IH]; intros s; simpl.
  - split; [eauto|reflexivity].
  - destruct s as [|c s]; [split; [discriminate|intros [b Hb]; discriminate]|].
    rewrite andb_true_iff, N.eqb_eq, IH. split.
    + intros [-> [b ->]]. eauto.
    + intros [b [= -> ->]]. eauto.
Qed.

(** [s.includes(x)] holds exactly when [x] is a part of [s]. *)
Lemma includes_spec s x : includes s x = true <-> part_of x s.
Proof.
  unfold part_of. induction s as [|c s IH]; simpl.
  - rewrite orb_false_r, starts_with_spec. split.
    + intros [b Hb]. exists [], b. exact Hb.
    + intros (a & b & Hs). destruct a; [eauto|discriminate].
  - rewrite orb_true_iff, starts_with_spec, IH. split.
    + intros [[b Hb]|(a & b & ->)]; [exists [], b; exact Hb|exists (c :: a), b; reflexivity].
    + intros (a & b & Hs). destruct a as [|a0 a]; [left; eauto|].
      right. injection Hs as -> ->. eauto.
Qed.

Lemma split_on_app sep a b :
  Forall (fun c => c <> sep) a -> split_on sep (a ++ sep :: b) = a :: split_on sep b.
Proof.
  induction 1 as [|c a Hc _ IH]; simpl.
  - rewrite N.eqb_refl. reflexivity.
  - rewrite (proj2 (N.eqb_neq c sep) Hc), IH. reflexivity.
Qed.

Lemma digit_cases d :
  is_digit d = true ->
  (d = 48 \/ d = 49 \/ d = 50 \/ d = 51 \/ d = 52 \/ d = 53 \/ d = 54 \/ d = 55
   \/ d = 56 \/ d = 57)%N.
Proof.
  unfold is_digit. intros [H1%N.leb_le H2%N.leb_le]%andb_true_iff. lia.
Qed.

Lemma split_on_none sep s :
  Forall (fun c => c <> sep) s -> split_on sep s = [s].
Proof.
  induction 1 as [|c s Hc _ IH]; simpl; [reflexivity|].
  rewrite (proj2 (N.eqb_neq c sep) Hc), IH. reflexivity.
Qed.

Lemma digit_not_period c : is_digit c = true -> c <> 46%N.
Proof. intros H%digit_cases. lia. Qed.

Lemma digit_not_comma c : is_digit c = true -> c <> 44%N.
Proof. intros H%digit_cases. lia. Qed.

(** ** Properties of the matcher *)

Module ReFacts.

Lemma rep_inv {A} p (k : kont A) cap x s :
  forall lo hi pos,
  rep p lo hi pos s cap k = Some x ->
  exists n, k (pos + n) (drop n s) cap = Some x /\ lo <= n <= length s
            /\ Forall (fun c => p c = true) (take n s) /\ within n hi.
Proof.
  induction s as [|c s IH]; intros lo hi pos Hrun.
  - exists 0. rewrite Nat.add_0_r. simpl in *.
    destruct hi as [[|h]|], lo; try discriminate; simpl; auto with lia.
  - assert (Hstop : match lo with 0 => k pos (c :: s) cap | S _ => None end = Some x ->
                    exists n, k (pos + n) (drop n (c :: s)) cap = Some x
                              /\ lo <= n <= length (c :: s)
                              /\ Forall (fun c => p c = true) (take n (c :: s))
                              /\ within n hi).
    { intros Hk. exists 0. rewrite Nat.add_0_r. destruct lo; [|discriminate].
      destruct hi; simpl; auto with lia. }
    simpl in Hrun.
    destruct (p c) eqn:Epc; [|destruct hi as [[|h]|]; auto].
    assert (Hmore : forall hi', rep p (pred lo) hi' (S pos) s cap k = Some x ->
                    (forall n, within n hi' -> within (S n) hi) ->
                    exists n, k (pos + n) (drop n (c :: s)) cap = Some x
                              /\ lo <= n <= length (c :: s)
                              /\ Forall (fun c => p c = true) (take n (c :: s))
                              /\ within n hi).
    { intros hi' E Hhi. apply IH in E as (n & Hn & Hlen & Hall & Hw).
      exists (S n). rewrite Nat.add_succ_r. simpl.
      split; [exact Hn|]. split; [lia|]. split; [constructor; assumption|auto]. }
    destruct hi as [[|h]|]; [auto| |];
      match type of Hrun with
      | match ?e with _ => _ end = _ => destruct e eqn:E
      end; eauto; injection Hrun as ->; eapply Hmore; eauto; simpl; intros; lia.
Qed.

Lemma run_inv {A} r :
  forall (k : kont A) pos s cap x,
  run r pos s cap k = Some x ->
  exists n cap',
    k (pos + n) (drop n s) cap' = Some x
    /\ min_len r <= n <= length s
    /\ (no_group r = true -> cap' = cap)
    /\ (captures r = true -> exists t, cap' = Some t /\ t <> []).
Proof.
  induction r as [| | |p|p lo hi|a IHa b IHb|a IHa b IHb|a IHa];
    intros k pos s cap x Hrun; simpl in Hrun.
  - exists 0, cap. rewrite Nat.add_0_r. simpl. repeat split; auto with lia; discriminate.
  - destruct (Nat.eqb pos 0); [|discriminate].
    exists 0, cap. rewrite Nat.add_0_r. simpl. repeat split; auto with lia; discriminate.
  - destruct s; [|discriminate].
    exists 0, cap. rewrite Nat.add_0_r. simpl. repeat split; auto with lia; discriminate.
  - destruct s as [|c s]; [discriminate|]. destruct (p c); [|discriminate].
    exists 1, cap. rewrite Nat.add_1_r. simpl. rewrite drop_0.
    repeat split; auto with lia; discriminate.
  - apply rep_inv in Hrun as (n & Hk & Hn & _ & _).
    exists n, cap. simpl. repeat split; auto with lia; discriminate.
  - apply IHa in Hrun as (n1 & cap1 & Hb & Hn1 & Hno1 & Hcap1).
    apply IHb in Hb as (n2 & cap2 & Hk & Hn2 & Hno2 & Hcap2).
    rewrite length_drop in Hn2.
    exists (n1 + n2), cap2. rewrite drop_drop in Hk. rewrite Nat.add_assoc.
    simpl. repeat split; auto with lia.
    + intros [Ha Hb]%andb_true_iff. rewrite Hno2, Hno1; auto.
    + intros [[Ha Hb]%andb_true_iff|Hb]%orb_true_iff; auto.
      rewrite (Hno2 Hb). auto.
  - destruct (run a pos s cap k) eqn:Ea.
    + injection Hrun as ->. apply IHa in Ea as (n & cap' & Hk & Hn & Hno & Hcap).
      exists n, cap'. simpl. repeat split; auto with lia.
      * intros [Ha Hb]%andb_true_iff. auto.
      * intros [Ha Hb]%andb_true_iff. auto.
    + apply IHb in Hrun as (n & cap' & Hk & Hn & Hno & Hcap).
      exists n, cap'. simpl. repeat split; auto with lia.
      * intros [Ha Hb]%andb_true_iff. auto.
      * intros [Ha Hb]%andb_true_iff. auto.
  - apply IHa in Hrun as (n & cap' & Hk & Hn & _ & _).
    replace (pos + n - pos) with n in Hk by lia.
    exists n, (Some (take n s)). simpl.
    split; [exact Hk|]. split; [lia|]. split; [discriminate|].
    intros Hmin%bool_decide_eq_true. eexists; split; [reflexivity|].
    intros Hnil. apply (f_equal length) in Hnil. rewrite length_take in Hnil.
    simpl in Hnil. lia.
Qed.

(** A match found at a position: where it is, how long, what it captured. *)
Lemma at_pos_inv r pos s m :
  at_pos r pos s = Some m ->
  index m = pos
  /\ (exists n, whole m = take n s /\ min_len r <= n <= length s)
  /\ (no_group r = true -> group1 m = None)
  /\ (captures r = true -> exists t, group1 m = Some t /\ t <> []).
Proof.
  unfold at_pos. intros Hrun.
  apply run_inv in Hrun as (n & cap' & Hk & Hn & Hno & Hcap).
  injection Hk as <-. simpl.
  replace (pos + n - pos) with n by lia. eauto 10.
Qed.

Lemma search_inv r s :
  forall pos m,
  search r pos s = Some m ->
  exists i, index m = pos + i /\ i <= length s
    /\ (exists n, whole m = take n (drop i s) /\ min_len r <= n <= length s - i)
    /\ (no_group r = true -> group1 m = None)
    /\ (captures r = true -> exists t, group1 m = Some t /\ t <> []).
Proof.
  induction s as [|c s IH]; intros pos m Hs; simpl in Hs.
  - destruct (at_pos r pos []) eqn:E; [|discriminate]. injection Hs as ->.
    apply at_pos_inv in E as (Hi & (n & Hw & Hn) & Hno & Hcap).
    exists 0. rewrite Nat.add_0_r, drop_0. simpl in *. eauto 10 with lia.
  - destruct (at_pos r pos (c :: s)) eqn:E.
    + injection Hs as ->.
      apply at_pos_inv in E as (Hi & (n & Hw & Hn) & Hno & Hcap).
      exists 0. rewrite Nat.add_0_r, drop_0. simpl in *.
      repeat split; auto with lia. exists n. split; auto with lia.
    + apply IH in Hs as (i & Hi & Hlen & (n & Hw & Hn) & Hno & Hcap).
      exists (S i). rewrite Nat.add_succ_r. simpl. repeat split; auto with lia.
      exists n. split; auto with lia.
Qed.

Lemma exec_captures r s m :
  captures r = true -> exec r s = Some m ->
  exists t, group1 m = Some t /\ t <> [].
Proof.
  intros Hc Hm. apply search_inv in Hm as (_ & _ & _ & _ & _ & Hcap). auto.
Qed.

(** *** The bound of the global scan is never reached *)

(** Any two bounds above the length of the text give the same scan: every
    round leaves strictly less text. *)
Lemma scan_bound r :
  forall fuel1 fuel2 pos s,
  length s < fuel1 -> length s < fuel2 ->
  scan fuel1 r pos s = scan fuel2 r pos s.
Proof.
  induction fuel1 as [|fuel1 IH]; intros fuel2 pos s H1 H2; [lia|].
  destruct fuel2 as [|fuel2]; [lia|]. simpl.
  destruct (search r pos s) as [m|] eqn:Es; [|reflexivity].
  apply search_inv in Es as (i & Hi & _ & _).
  f_equal. case_bool_decide as Hnext; [|reflexivity].
  assert (Hstep : 0 < match whole m with
                      | [] => S (index m + length (whole m))
                      | _ :: _ => index m + length (whole m)
                      end - pos).
  { destruct (whole m); simpl; lia. }
  apply IH; rewrite length_drop; lia.
Qed.

(** *** The matcher only finds what the pattern accepts *)

Lemma run_sound {A} r :
  forall (k : kont A) pos s cap x,
  run r pos s cap k = Some x ->
  exists t rest cap',
    s = t ++ rest /\ accepts r t cap cap' /\ k (pos + length t) rest cap' = Some x.
Proof.
  induction r as [| | |p|p lo hi|a IHa b IHb|a IHa b IHb|a IHa];
    intros k pos s cap x Hrun; simpl in Hrun.
  - exists [], s, cap. rewrite Nat.add_0_r. split; [reflexivity|]. split; [constructor|exact Hrun].
  - destruct (Nat.eqb pos 0); [|discriminate].
    exists [], s, cap. rewrite Nat.add_0_r. split; [reflexivity|]. split; [constructor|exact Hrun].
  - destruct s; [|discriminate].
    exists [], [], cap. rewrite Nat.add_0_r. split; [reflexivity|]. split; [constructor|exact Hrun].
  - destruct s as [|c s]; [discriminate|]. destruct (p c) eqn:Epc; [|discriminate].
    exists [c], s, cap. rewrite Nat.add_1_r. split; [reflexivity|].
    split; [constructor; exact Epc|exact Hrun].
  - apply rep_inv in Hrun as (n & Hk & Hn & Hall & Hw).
    exists (take n s), (drop n s), cap. rewrite length_take, Nat.min_l by lia.
    split; [symmetry; apply take_drop|]. split; [|exact Hk].
    constructor. unfold run_of. rewrite length_take, Nat.min_l by lia. auto with lia.
  - apply IHa in Hrun as (t1 & rest1 & cap1 & -> & Ha & Hb).
    apply IHb in Hb as (t2 & rest2 & cap2 & -> & Hb & Hk).
    exists (t1 ++ t2), rest2, cap2. rewrite length_app, Nat.add_assoc, <- app_assoc.
    split; [reflexivity|]. split; [econstructor; eassumption|exact Hk].
  - destruct (run a pos s cap k) eqn:Ea.
    + injection Hrun as ->. apply IHa in Ea as (t & rest & cap' & -> & Ha & Hk).
      exists t, rest, cap'. split; [reflexivity|]. split; [apply accepts_alt_l; exact Ha|exact Hk].
    + apply IHb in Hrun as (t & rest & cap' & -> & Hb & Hk).
      exists t, rest, cap'. split; [reflexivity|]. split; [apply accepts_alt_r; exact Hb|exact Hk].
  - apply IHa in Hrun as (t & rest & cap' & -> & Ha & Hk).
    replace (pos + length t - pos) with (length t) in Hk by lia.
    rewrite take_app_length in Hk.
    exists t, rest, (Some t). split; [reflexivity|].
    split; [econstructor; exact Ha|exact Hk].
Qed.

Lemma search_sound r s :
  forall pos m,
  search r pos s = Some m ->
  exists before after,
    s = before ++ whole m ++ after /\ index m = pos + length before
    /\ accepts r (whole m) None (group1 m).
Proof.
  assert (Hat : forall pos s m, at_pos r pos s = Some m ->
                  exists after, s = whole m ++ after /\ index m = pos
                                /\ accepts r (whole m) None (group1 m)).
  { intros pos t m Hm. unfold at_pos in Hm.
    apply run_sound in Hm as (w & rest & cap' & -> & Hacc & Hk).
    injection Hk as <-. simpl. replace (pos + length w - pos) with (length w) by lia.
    rewrite take_app_length. exists rest. auto. }
  induction s as [|c s IH]; intros pos m Hs; simpl in Hs.
  - destruct (at_pos r pos []) eqn:E; [|discriminate]. injection Hs as ->.
    apply Hat in E as (after & Hs & Hi & Hacc).
    exists [], after. rewrite Nat.add_0_r. auto.
  - destruct (at_pos r pos (c :: s)) eqn:E.
    + injection Hs as ->. apply Hat in E as (after & Hs & Hi & Hacc).
      exists [], after. rewrite Nat.add_0_r. auto.
    + apply IH in Hs as (before & after & Hs & Hi & Hacc).
      exists (c :: before), after. simpl. rewrite Hs at 1.
      split; [reflexivity|]. split; [lia|exact Hacc].
Qed.

(** [s.match(r)]: the match is a part of [s] that the pattern accepts, and
    the capture is what the group consumed. *)
Lemma exec_sound r s m :
  exec r s = Some m ->
  exists before after,
    s = before ++ whole m ++ after /\ index m = length before
    /\ accepts r (whole m) None (group1 m).
Proof. intros Hm. apply search_sound in Hm. exact Hm. Qed.

(** *** Reading what a pattern accepted *)

Lemma accepts_seq_inv a b t c c2 :
  accepts (Seq a b) t c c2 ->
  exists t1 t2 c1, t = t1 ++ t2 /\ accepts a t1 c c1 /\ accepts b t2 c1 c2.
Proof. inversion 1; subst. eauto 6. Qed.

Lemma accepts_rep_inv p lo hi t c c' :
  accepts (Rep p lo hi) t c c' -> c' = c /\ run_of p lo hi t.
Proof. inversion 1; subst. auto. Qed.

Lemma accepts_cls_inv p t c c' :
  accepts (Cls p) t c c' -> c' = c /\ exists x, t = [x] /\ p x = true.
Proof. inversion 1; subst. eauto. Qed.

Lemma accepts_grp_rep_inv p lo hi t c g :
  accepts (Grp (Rep p lo hi)) t c g -> g = Some t /\ run_of p lo hi t.
Proof.
  inversion 1 as [| | | | | | | |? ? ? ? Hrep]; subst.
  apply accepts_rep_inv in Hrep as [_ Hrun]. auto.
Qed.

(** A literal under the i flag accepts the texts that are equal to it once
    canonicalized. *)
Lemma accepts_lit_i w :
  forall t c c', accepts (lit_i w) t c c' -> c' = c /\ map canon t = map canon w.
Proof.
  unfold lit_i. induction w as [|x w IH]; intros t c c' Hacc.
  - inversion Hacc; subst. auto.
  - destruct w as [|y w].
    + simpl in Hacc. apply accepts_cls_inv in Hacc as (-> & z & -> & Hz).
      split; [reflexivity|]. simpl. f_equal. apply N.eqb_eq. exact Hz.
    + change (accepts (Seq (Cls (chr_i x)) (seq (map (fun c => Cls (chr_i c)) (y :: w)))) t c c')
        in Hacc.
      apply accepts_seq_inv in Hacc as (t1 & t2 & c1 & -> & H1 & H2).
      apply accepts_cls_inv in H1 as (-> & z & -> & Hz).
      apply IH in H2 as (-> & Hrest).
      split; [reflexivity|]. simpl. simpl in Hrest. rewrite Hrest. f_equal.
      apply N.eqb_eq. exact Hz.
Qed.

(** A label, separators, then the captured number. *)
Lemma accepts_label_number label cls p lo hi t c g :
  accepts (seq [label; star cls; Grp (Rep p lo hi)]) t c g ->
  exists w sep number c1,
    t = w ++ sep ++ number /\ accepts label w c c1
    /\ Forall (fun x => cls x = true) sep
    /\ run_of p lo hi number /\ g = Some number.
Proof.
  cbn [seq]. intros (w & t' & c1 & -> & Hlabel & Hrest)%accepts_seq_inv.
  apply accepts_seq_inv in Hrest as (sep & number & c2 & -> & Hsep & Hnum).
  apply accepts_rep_inv in Hsep as (-> & _ & _ & Hsep).
  apply accepts_grp_rep_inv in Hnum as (-> & Hrun).
  exists w, sep, number, c1. auto.
Qed.

(** What the amount group [([\d.]+,\d{2})] accepts. *)
Lemma accepts_amount_group t c g :
  accepts (Grp (seq [plus Pat.digit_or_dot; chr 44; Rep is_digit 2 (Some 2)])) t c g ->
  g = Some t
  /\ exists body fraction,
       t = body ++ [44%N] ++ fraction
       /\ body <> [] /\ Forall (fun x => Pat.digit_or_dot x = true) body
       /\ length fraction = 2 /\ Forall (fun x => is_digit x = true) fraction.
Proof.
  inversion 1 as [| | | | | | | |? ? ? ? Hbody]; subst. split; [reflexivity|].
  cbn [seq] in Hbody.
  apply accepts_seq_inv in Hbody as (body & rest & c1 & -> & Hb & Hrest).
  apply accepts_seq_inv in Hrest as (comma & fraction & c2 & -> & Hc & Hf).
  apply accepts_rep_inv in Hb as (_ & Hlen & _ & Hall).
  apply accepts_cls_inv in Hc as (_ & x & -> & ->%N.eqb_eq).
  apply accepts_rep_inv in Hf as (_ & Hlo & Hhi & Hdigits). simpl in Hhi.
  exists body, fraction. split; [reflexivity|].
  split; [intros ->; simpl in Hlen; lia|]. split; [exact Hall|]. split; [lia|exact Hdigits].
Qed.

(** *** The capture group does not decide whether a pattern matches *)

Lemma rep_none_iff {A B} p (k : kont A) (k' : kont B) cap cap' s :
  (forall pos s, k pos s cap = None <-> k' pos s cap' = None) ->
  forall lo hi pos,
    rep p lo hi pos s cap k = None <-> rep p lo hi pos s cap' k' = None.
Proof.
  intros Hk. induction s as [|c s IH]; intros lo hi pos; simpl.
  - destruct hi as [[|h]|], lo; try apply Hk; (split; intros _; reflexivity).
  - assert (Hstop : match lo with 0 => k pos (c :: s) cap | S _ => None end = None
                    <-> match lo with 0 => k' pos (c :: s) cap' | S _ => None end = None).
    { destruct lo; [apply Hk|(split; intros _; reflexivity)]. }
    destruct hi as [[|h]|]; [exact Hstop| |];
      (destruct (p c); [|exact Hstop]);
      match goal with
      | |- match ?e with _ => _ end = _ <-> match ?e' with _ => _ end = _ =>
        pose proof (IH (pred lo) _ (S pos) : e = None <-> e' = None) as Hrec;
        destruct e, e'
      end;
      try tauto; try (split; [discriminate|]); try (split; [|discriminate]);
      intros; exfalso;
      try (destruct Hrec as [Hrec _]; specialize (Hrec eq_refl); discriminate);
      try (destruct Hrec as [_ Hrec]; specialize (Hrec eq_refl); discriminate).
Qed.

Lemma run_erase {A B} r :
  forall (k : kont A) (k' : kont B) pos s cap cap',
  (forall pos s c c', k pos s c = None <-> k' pos s c' = None) ->
  run r pos s cap k = None <-> run (erase r) pos s cap' k' = None.
Proof.
  induction r as [| | |p|p lo hi|a IHa b IHb|a IHa b IHb|a IHa];
    intros k k' pos s cap cap' Hk; simpl.
  - apply Hk.
  - destruct (Nat.eqb pos 0); [apply Hk|(split; intros _; reflexivity)].
  - destruct s; [apply Hk|(split; intros _; reflexivity)].
  - destruct s as [|c s]; [(split; intros _; reflexivity)|]. destruct (p c); [apply Hk|(split; intros _; reflexivity)].
  - apply rep_none_iff. intros; apply Hk.
  - apply IHa. intros. apply IHb. exact Hk.
  - pose proof (IHa k k' pos s cap cap' Hk) as Ha.
    pose proof (IHb k k' pos s cap cap' Hk) as Hb.
    destruct (run a pos s cap k), (run (erase a) pos s cap' k'); try tauto;
      try (split; [discriminate|]); try (split; [|discriminate]);
      intros; exfalso;
      try (destruct Ha as [Ha _]; specialize (Ha eq_refl); discriminate);
      try (destruct Ha as [_ Ha]; specialize (Ha eq_refl); discriminate).
  - apply IHa. intros. apply Hk.
Qed.

Lemma search_none_iff r r' :
  (forall pos s, at_pos r pos s = None <-> at_pos r' pos s = None) ->
  forall s pos, search r pos s = None <-> search r' pos s = None.
Proof.
  intros Hat. induction s as [|c s IH]; intros pos; simpl.
  - pose proof (Hat pos []) as H0.
    destruct (at_pos r pos []), (at_pos r' pos []); try tauto;
      split; try discriminate; intros; exfalso;
      try (destruct H0 as [H0 _]; specialize (H0 eq_refl); discriminate);
      try (destruct H0 as [_ H0]; specialize (H0 eq_refl); discriminate).
  - pose proof (Hat pos (c :: s)) as H0.
    destruct (at_pos r pos (c :: s)), (at_pos r' pos (c :: s)); try apply IH;
      split; try discriminate; intros; exfalso;
      try (destruct H0 as [H0 _]; specialize (H0 eq_refl); discriminate);
      try (destruct H0 as [_ H0]; specialize (H0 eq_refl); discriminate).
Qed.

(** A pattern and its version without the group match the same texts. *)
Lemma test_erase r s : test (erase r) s = test r s.
Proof.
  unfold test, exec.
  assert (Hs : search r 0 s = None <-> search (erase r) 0 s = None).
  { apply search_none_iff. intros pos t. unfold at_pos. apply run_erase.
    intros; split; discriminate. }
  destruct (search r 0 s), (search (erase r) 0 s); try reflexivity; exfalso.
  - destruct Hs as [_ Hs]. specialize (Hs eq_refl). discriminate.
  - destruct Hs as [Hs _]. specialize (Hs eq_refl). discriminate.
Qed.

(** *** Patterns that consume a run of one class *)

Lemma rep_zero_total {A} p (k : kont A) cap s :
  (forall pos s cap, k pos s cap <> None) ->
  forall hi pos, rep p 0 hi pos s cap k <> None.
Proof.
  intros Hk. induction s as [|c s IH]; intros hi pos; simpl.
  - destruct hi as [[|h]|]; apply Hk.
  - destruct hi as [[|h]|]; [apply Hk| |];
      (destruct (p c); [|apply Hk]);
      match goal with |- match ?e with _ => _ end <> _ => destruct e end;
      solve [discriminate | apply Hk].
Qed.

Lemma eats_cls p : eats (Cls p) p.
Proof.
  intros pos [|c s]; unfold at_pos; simpl; [exact I|].
  destruct (p c) eqn:Epc; [|reflexivity]. simpl.
  replace (S pos - pos) with 1 by lia. simpl. rewrite take_0.
  split; [reflexivity|]. split; [discriminate|]. split; [auto|]. exists s. reflexivity.
Qed.

Lemma eats_plus p : eats (Rep p 1 None) p.
Proof.
  intros pos s. destruct (at_pos (Rep p 1 None) pos s) as [m|] eqn:E.
  - unfold at_pos in E. simpl in E.
    apply rep_inv in E as (n & Hk & Hn & Hall & _). injection Hk as <-. simpl.
    replace (pos + n - pos) with n by lia.
    split; [reflexivity|]. split.
    + intros Hnil. apply (f_equal length) in Hnil. rewrite length_take in Hnil.
      simpl in Hnil. lia.
    + split; [exact Hall|]. exists (drop n s). symmetry. apply take_drop.
  - destruct s as [|c s]; [exact I|].
    unfold at_pos in E. simpl in E. destruct (p c); [|reflexivity].
    exfalso. revert E.
    match goal with |- match ?e with _ => _ end = _ -> _ => destruct e eqn:E' end;
      [discriminate|].
    intros _. revert E'. apply rep_zero_total. discriminate.
Qed.

Lemma search_eats r p :
  eats r p ->
  forall s pos,
    match search r pos s with
    | None => Forall (fun c => p c = false) s
    | Some m =>
      exists pre post,
        s = pre ++ whole m ++ post /\ Forall (fun c => p c = false) pre
        /\ Forall (fun c => p c = true) (whole m) /\ whole m <> []
        /\ index m = pos + length pre
    end.
Proof.
  intros He. induction s as [|c s IH]; intros pos; simpl.
  - specialize (He pos []). destruct (at_pos r pos []) as [m|].
    + destruct He as (Hi & Hne & Hall & post & Hs).
      exists [], post. simpl. rewrite Nat.add_0_r. auto.
    + constructor.
  - specialize (He pos (c :: s)). destruct (at_pos r pos (c :: s)) as [m|].
    + destruct He as (Hi & Hne & Hall & post & Hs).
      exists [], post. simpl. rewrite Nat.add_0_r. auto.
    + specialize (IH (S pos)). destruct (search r (S pos) s) as [m|].
      * destruct IH as (pre & post & Hs & Hpre & Hall & Hne & Hi).
        exists (c :: pre), post. simpl. rewrite Hs, Hi.
        split; [reflexivity|]. split; [constructor; assumption|].
        split; [assumption|]. split; [assumption|]. lia.
      * constructor; assumption.
Qed.

Lemma filter_all_false {A} (p : A -> bool) l :
  Forall (fun c => p c = false) l -> List.filter (fun c => negb (p c)) l = l.
Proof.
  induction 1 as [|c l Hc _ IH]; simpl; [reflexivity|]. rewrite Hc. simpl. f_equal. exact IH.
Qed.

Lemma filter_all_true {A} (p : A -> bool) l :
  Forall (fun c => p c = true) l -> List.filter (fun c => negb (p c)) l = [].
Proof.
  induction 1 as [|c l Hc _ IH]; simpl; [reflexivity|]. rewrite Hc. simpl. exact IH.
Qed.

Lemma splice_scan_eats r p :
  eats r p ->
  forall fuel pos s, length s < fuel ->
    splice (scan fuel r pos s) [] pos s = List.filter (fun c => negb (p c)) s.
Proof.
  intros He. induction fuel as [|fuel IH]; intros pos s Hlen; [lia|]. simpl.
  pose proof (search_eats r p He s pos) as Hs.
  destruct (search r pos s) as [m|].
  - destruct Hs as (pre & post & Hs & Hpre & Hall & Hne & Hi).
    assert (Hnext : match whole m with
                    | [] => S (index m + length (whole m))
                    | _ :: _ => index m + length (whole m)
                    end = index m + length (whole m)).
    { destruct (whole m); [contradiction|reflexivity]. }
    rewrite Hnext, Hi. subst s. rewrite !length_app in *.
    replace (pos + length pre + length (whole m) - pos)
      with (length pre + length (whole m)) by lia.
    case_bool_decide; [|lia].
    simpl. rewrite Hi.
    replace (pos + length pre - pos) with (length pre) by lia.
    replace (pos + length pre + length (whole m) - pos)
      with (length pre + length (whole m)) by lia.
    rewrite take_app_length.
    rewrite <- drop_drop, drop_app_length, drop_app_length.
    assert (0 < length (whole m)) by (destruct (whole m); [contradiction|simpl; lia]).
    rewrite IH by lia.
    rewrite !List.filter_app, (filter_all_false p pre), (filter_all_true p (whole m)) by assumption.
    reflexivity.
  - simpl. symmetry. apply filter_all_false. exact Hs.
Qed.

(** Removing every match of such a pattern removes exactly the code units of
    the class. *)
Lemma replace_g_eats r p s :
  eats r p -> replace_g r [] s = List.filter (fun c => negb (p c)) s.
Proof.
  intros He. unfold replace_g, scan_all. apply splice_scan_eats; [exact He|lia].
Qed.

(** Replacing the first code unit of a class. *)
Lemma search_cls_first p x c y :
  Forall (fun z => p z = false) x -> p c = true ->
  forall pos,
    search (Cls p) pos (x ++ c :: y)
    = Some {| index := pos + length x; whole := [c]; group1 := None |}.
Proof.
  intros Hx Hc. induction Hx as [|z x Hz _ IH]; intros pos; simpl; unfold at_pos; simpl.
  - rewrite Hc. replace (S pos - pos) with 1 by lia. rewrite Nat.add_0_r. reflexivity.
  - rewrite Hz. rewrite IH. f_equal. f_equal. lia.
Qed.

Lemma replace_cls_first p by_ x c y :
  Forall (fun z => p z = false) x -> p c = true ->
  replace (Cls p) by_ (x ++ c :: y) = x ++ by_ ++ y.
Proof.
  intros Hx Hc. unfold replace, exec. rewrite (search_cls_first p x c y Hx Hc).
  cbn [index whole length]. rewrite Nat.add_0_l, take_app_length.
  replace (length x + 1) with (length x + 1) by reflexivity.
  rewrite <- drop_drop, drop_app_length. reflexivity.
Qed.

(** [x.replace(/\s+/g, '')] removes the white space of [x]. *)
Lemma strip_spaces s :
  replace_g Pat.spaces [] s = List.filter (fun c => negb (is_ws c)) s.
Proof. apply (replace_g_eats _ is_ws). apply eats_plus. Qed.

(** [x.replace(/\./g, '')] removes the periods of [x]. *)
Lemma strip_periods s :
  replace_g Pat.period [] s = List.filter (fun c => negb (N.eqb 46 c)) s.
Proof. apply (replace_g_eats _ (N.eqb 46)). apply eats_cls. Qed.

(** *** Matches of a bare quantifier, as in [/\d{7,9}/g] *)

Lemma search_rep p lo hi s :
  forall pos m,
  search (Rep p lo hi) pos s = Some m ->
  run_of p lo hi (whole m)
  /\ exists pre post, s = pre ++ whole m ++ post /\ index m = pos + length pre.
Proof.
  induction s as [|c s IH]; intros pos m Hs; simpl in Hs.
  - destruct (at_pos (Rep p lo hi) pos []) eqn:E; [|discriminate]. injection Hs as ->.
    unfold at_pos in E. cbn [run] in E.
    apply rep_inv in E as (n & Hk & Hn & Hall & Hw). injection Hk as <-. simpl in *.
    assert (n = 0) as -> by lia. rewrite take_nil. unfold run_of. simpl.
    split; [auto with lia|]. exists [], []. auto.
  - destruct (at_pos (Rep p lo hi) pos (c :: s)) eqn:E.
    + injection Hs as ->. unfold at_pos in E. cbn [run] in E.
      apply rep_inv in E as (n & Hk & Hn & Hall & Hw). injection Hk as <-. simpl.
      replace (pos + n - pos) with n by lia.
      assert (Hlen : length (take n (c :: s)) = n) by (rewrite length_take; lia).
      unfold run_of. rewrite Hlen. split; [auto with lia|].
      exists [], (drop n (c :: s)). simpl. rewrite take_drop. auto.
    + apply IH in Hs as (Hrun & pre & post & Hs & Hi).
      split; [exact Hrun|]. exists (c :: pre), post. simpl. rewrite Hs at 1.
      split; [reflexivity|lia].
Qed.

Lemma scan_rep p lo hi :
  forall fuel pos s m,
  In m (scan fuel (Rep p lo hi) pos s) ->
  run_of p lo hi (whole m) /\ exists pre post, s = pre ++ whole m ++ post.
Proof.
  induction fuel as [|fuel IH]; intros pos s m; simpl; [contradiction|].
  destruct (search (Rep p lo hi) pos s) as [m0|] eqn:Es; [|contradiction].
  intros [<-|Hin].
  - apply search_rep in Es as (Hrun & pre & post & Hs & _). eauto.
  - case_bool_decide; [|contradiction].
    apply IH in Hin as (Hrun & pre & post & Hs). split; [exact Hrun|].
    match type of Hs with drop ?n s = _ => exists (take n s ++ pre), post;
      rewrite <- (take_drop n s) at 1; rewrite Hs, <- app_assoc; reflexivity end.
Qed.

(** What [s.match(/p{lo,hi}/g)] returns: runs of the class, each a part of [s]. *)
Lemma match_g_rep p lo hi s groups g :
  match_g (Rep p lo hi) s = Some groups -> In g groups ->
  run_of p lo hi g /\ exists pre post, s = pre ++ g ++ post.
Proof.
  unfold match_g, scan_all. intros Hm Hg.
  destruct (scan (S (length s)) (Rep p lo hi) 0 s) as [|m0 ms] eqn:Es; [discriminate|].
  injection Hm as <-. change (In g (map whole (m0 :: ms))) in Hg.
  apply in_map_iff in Hg as (m & <- & Hin).
  rewrite <- Es in Hin. eapply scan_rep. exact Hin.
Qed.

End ReFacts.

(** ** Loops and the outcome monad *)

(** Case analysis on the condition of a conditional of the goal. *)
Ltac case_if :=
  match goal with |- context [if ?b then _ else _] => destruct b end.

Lemma bind_Ok {A B} (a : A) (f : A -> outcome B) : (Ok a ≫= f) = f a.
Proof. reflexivity. Qed.

Lemma at_Ok {A} (xs : list A) i : i < length xs -> exists x, xs !! i = Some x /\ at_ xs i = Ok x.
Proof.
  intros Hi. destruct (lookup_lt_is_Some_2 xs i Hi) as [x Hx].
  exists x. unfold at_. rewrite Hx. auto.
Qed.

Lemma for_loop_step {St} fuel n (body : nat -> St -> outcome (nat * St)) i st :
  i < n ->
  for_loop (S fuel) n body i st = (r ← body i st; for_loop fuel n body (S (fst r)) (snd r)).
Proof. intros Hi. simpl. rewrite bool_decide_eq_true_2 by exact Hi. reflexivity. Qed.

Lemma for_loop_done {St} fuel n (body : nat -> St -> outcome (nat * St)) i st :
  n <= i -> for_loop fuel n body i st = Ok st.
Proof. intros Hi. destruct fuel; simpl; rewrite bool_decide_eq_false_2 by lia; reflexivity. Qed.

(** Invariant rule: a body that returns normally, never moves [i] backwards
    and re-establishes [P] makes the loop return normally, in a state where
    [P] holds at an index past the bound. *)
Lemma for_loop_inv {St} (P : nat -> St -> Prop) n (body : nat -> St -> outcome (nat * St)) :
  (forall i st, i < n -> P i st ->
     exists i' st', body i st = Ok (i', st') /\ i <= i' /\ P (S i') st') ->
  forall fuel i st, n - i <= fuel -> P i st ->
  exists j st', for_loop fuel n body i st = Ok st' /\ i <= j /\ n <= j /\ P j st'.
Proof.
  intros Hbody. induction fuel as [|fuel IH]; intros i st Hfuel HP; simpl.
  - rewrite bool_decide_eq_false_2 by lia. exists i, st. auto with lia.
  - destruct (bool_decide_reflect (i < n)) as [Hi|Hi].
    + destruct (Hbody i st Hi HP) as (i' & st' & -> & Hle & HP').
      rewrite bind_Ok. simpl.
      destruct (IH (S i') st') as (j & st'' & -> & Hj & Hn & HP''); [lia|exact HP'|].
      exists j, st''. auto with lia.
    + exists i, st. auto with lia.
Qed.

Lemma for_upto_inv {St} (P : nat -> St -> Prop) n (body : nat -> St -> outcome (nat * St)) st :
  (forall i st, i < n -> P i st ->
     exists i' st', body i st = Ok (i', st') /\ i <= i' /\ P (S i') st') ->
  P 0 st ->
  exists j st', for_upto n body st = Ok st' /\ n <= j /\ P j st'.
Proof.
  intros Hbody HP.
  destruct (for_loop_inv P n body Hbody n 0 st) as (j & st' & ? & ? & ? & ?);
    [lia|exact HP|eauto].
Qed.

Section ParserFacts.
Context `{Host}.

Lemma descricao_at_lookup ds i : descricao_at ds i = default placeholder (ds !! i).
Proof.
  unfold descricao_at. destruct (bool_decide_reflect (i < length ds)) as [Hi|Hi].
  - destruct (lookup_lt_is_Some_2 ds i Hi) as [d ->]. reflexivity.
  - rewrite lookup_ge_None_2 by lia. reflexivity.
Qed.

(** A loop that appends one record per amount, up to [n] amounts. *)
Lemma build_rows (mk : Columns -> nat -> Valor -> TableRow) c n
    (body : nat -> list TableRow -> outcome (nat * list TableRow)) :
  (forall i data, body i data = (v ← at_ (valores c) i; Ok (i, data ++ [mk c i v]))) ->
  n <= length (valores c) ->
  exists rows, for_upto n body [] = Ok rows
    /\ length rows = n
    /\ forall i v, i < n -> valores c !! i = Some v -> rows !! i = Some (mk c i v).
Proof.
  intros Hbody Hn.
  destruct (for_upto_inv
              (fun i data => i <= n /\ length data = i
                 /\ forall j v, j < i -> valores c !! j = Some v -> data !! j = Some (mk c j v))
              n body []) as (j & rows & Hrun & Hj & Hle & Hlen & Hrows).
  - intros i data Hi (_ & Hlen & Hdata).
    destruct (at_Ok (valores c) i) as (v & Hv & Hat); [lia|].
    exists i, (data ++ [mk c i v]). rewrite Hbody, Hat, bind_Ok.
    split; [reflexivity|]. split; [lia|]. split; [lia|].
    split; [rewrite length_app; simpl; lia|].
    intros j w Hj Hw. destruct (decide (j = i)) as [->|Hne].
    + rewrite Hv in Hw. injection Hw as <-.
      rewrite lookup_app_r by lia. rewrite Hlen, Nat.sub_diag. reflexivity.
    + rewrite lookup_app_l by lia. apply Hdata; [lia|exact Hw].
  - split; [lia|]. split; [reflexivity|]. intros j v Hj. lia.
  - exists rows. split; [exact Hrun|]. assert (j = n) as -> by lia.
    split; [exact Hlen|]. exact Hrows.
Qed.

Lemma pair_columns_spec c :
  exists rows, pair_columns c = Ok rows
    /\ length rows =
       (if bool_decide (numeros c = []) || bool_decide (valores c = []) then 0
        else Nat.min (length (numeros c)) (length (valores c)))
    /\ forall i v, i < length rows -> valores c !! i = Some v ->
         rows !! i = Some (paired c i v).
Proof.
  unfold pair_columns.
  destruct (numeros c) as [|n ns] eqn:En.
  { exists []. simpl. split; [reflexivity|]. split; [reflexivity|]. simpl. intros; lia. }
  destruct (valores c) as [|v vs] eqn:Ev.
  { exists []. simpl. split; [reflexivity|]. split; [reflexivity|]. simpl. intros; lia. }
  rewrite !bool_decide_eq_false_2 by (simpl; lia).
  cbv [orb]. rewrite <- En, <- Ev.
  destruct (build_rows paired c (Nat.min (length (numeros c)) (length (valores c)))
              (paired_row c)) as (rows & Hrun & Hlen & Hrows); [reflexivity|lia|].
  exists rows. split; [exact Hrun|].
  rewrite !bool_decide_eq_false_2 by (rewrite ?En, ?Ev; discriminate).
  split; [exact Hlen|].
  intros i w Hi. apply Hrows. lia.
Qed.

Lemma rows_of_valores_spec c :
  exists rows, rows_of_valores c = Ok rows
    /\ length rows = length (valores c)
    /\ forall i v, valores c !! i = Some v -> rows !! i = Some (unpaired c i v).
Proof.
  unfold rows_of_valores.
  destruct (bool_decide_reflect (length (valores c) = 0)) as [Hz|Hz].
  { exists []. split; [reflexivity|]. split; [simpl; lia|].
    intros i v Hv. apply lookup_lt_Some in Hv. lia. }
  destruct (build_rows unpaired c (length (valores c)) (magalu_row c))
    as (rows & Hrun & Hlen & Hrows); [reflexivity|lia|].
  exists rows. split; [exact Hrun|]. split; [exact Hlen|].
  intros i v Hv. apply Hrows; [|exact Hv]. apply lookup_lt_Some in Hv. exact Hv.
Qed.

End ParserFacts.

(** ** The parsers return normally *)

Section ParserTotal.
Context `{Host}.
Import ReFacts.

Lemma group_of_captures r s m :
  captures r = true -> exec r s = Some m -> exists t, group1 m = Some t /\ group_of m = Ok t.
Proof.
  intros Hc Hm. destruct (exec_captures r s m Hc Hm) as (t & Ht & _).
  exists t. unfold group_of. rewrite Ht. auto.
Qed.

Local Hint Constructors pushes : core.

(** The capture of the two amount patterns is an amount text. *)
Lemma valor_line_capture line m :
  exec Pat.valor_line line = Some m ->
  exists t, group1 m = Some t /\ group_of m = Ok t /\ amount_text t.
Proof.
  intros (_ & _ & _ & _ & Hacc)%exec_sound. revert Hacc.
  unfold group_of. generalize (whole m) (group1 m). intros w g Hacc.
  unfold Pat.valor_line in Hacc. cbn [seq] in Hacc.
  repeat match type of Hacc with
         | accepts (Seq _ (Seq _ _)) _ _ _ =>
           apply accepts_seq_inv in Hacc as (? & ? & ? & _ & _ & Hacc)
         end.
  apply accepts_seq_inv in Hacc as (t & ? & ? & _ & Hgrp & Heol).
  inversion Heol; subst.
  apply accepts_amount_group in Hgrp as (-> & Hshape). eauto.
Qed.

Lemma valor_anywhere_capture line m :
  exec Pat.valor_anywhere line = Some m ->
  exists t, group1 m = Some t /\ group_of m = Ok t /\ amount_text t.
Proof.
  intros (_ & _ & _ & _ & Hacc)%exec_sound. revert Hacc.
  unfold group_of. generalize (whole m) (group1 m). intros w g Hacc.
  unfold Pat.valor_anywhere in Hacc. cbn [seq] in Hacc.
  repeat match type of Hacc with
         | accepts (Seq _ (Seq _ _)) _ _ _ =>
           apply accepts_seq_inv in Hacc as (? & ? & ? & _ & _ & Hacc)
         end.
  apply accepts_seq_inv in Hacc as (? & t & ? & _ & _ & Hgrp).
  apply accepts_amount_group in Hgrp as (-> & Hshape). eauto.
Qed.

Lemma shopee_line_ok lines i c :
  i < length lines ->
  exists i' c', shopee_line lines i c = Ok (i', c') /\ i <= i' /\ pushes c c'.
Proof.
  intros Hi. unfold shopee_line.
  destruct (at_Ok lines i Hi) as (line & _ & ->). rewrite bind_Ok.
  destruct (test Pat.shopee_header line); [eauto 6|].
  destruct (test Pat.digits_7_9_line line); [eauto 6|].
  destruct (exec Pat.valor_line line) as [m|] eqn:Em.
  { destruct (valor_line_capture _ _ Em) as (t & _ & -> & Ht).
    rewrite bind_Ok. eauto 6. }
  destruct (includes line (js "-")); [|eauto 6].
  destruct ((ends_with line (js "-") || ends_with line (js "- "))
            && bool_decide (i + 1 < length lines)) eqn:Ejoin.
  - apply andb_true_iff in Ejoin as [_ Hnext%bool_decide_eq_true].
    destruct (at_Ok lines (i + 1) Hnext) as (next & _ & ->). rewrite bind_Ok.
    destruct (negb (test Pat.digits_7_9_line (trim next))
              && negb (test Pat.valor_line_test (trim next))
              && negb (test Pat.shopee_header (trim next)));
      rewrite bind_Ok; cbv [fst snd];
      case_if;
      eauto 6 with lia.
  - rewrite bind_Ok; cbv [fst snd].
    case_if; eauto 6.
Qed.

Lemma ml_line_ok lines i c :
  i < length lines ->
  exists i' c', ml_line lines i c = Ok (i', c') /\ i <= i' /\ pushes c c'.
Proof.
  intros Hi. unfold ml_line.
  destruct (at_Ok lines i Hi) as (line & _ & ->). rewrite bind_Ok.
  destruct (test Pat.ml_header line) eqn:Eh; [eauto 6|].
  destruct (test Pat.zero_padded line); [eauto 6|].
  destruct (exec Pat.valor_line line) as [m|] eqn:Em.
  { destruct (valor_line_capture _ _ Em) as (t & _ & -> & Ht).
    rewrite bind_Ok. eauto 6. }
  case_if; eauto 6.
Qed.

Lemma magalu_descricao_pushes line c : pushes c (magalu_descricao line c).
Proof.
  unfold magalu_descricao.
  repeat case_if; auto.
Qed.

Lemma magalu_line_ok lines i c :
  i < length lines ->
  exists i' c', magalu_line lines i c = Ok (i', c') /\ i <= i' /\ pushes c c'.
Proof.
  intros Hi. unfold magalu_line.
  destruct (at_Ok lines i Hi) as (line & _ & ->). rewrite bind_Ok.
  pose proof (magalu_descricao_pushes line c).
  destruct (test Pat.magalu_header line); [eauto 6|].
  destruct (exec Pat.valor_anywhere line) as [m|] eqn:Em; [|eauto 6].
  destruct (valor_anywhere_capture _ _ Em) as (t & _ & -> & Ht).
  rewrite bind_Ok. cbv zeta. destruct (gtZero (parse_valor t)); eauto 6.
Qed.

(** A classification loop returns normally, and what every round preserves
    holds of the columns it returns. *)
Lemma classify_inv (P : Columns -> Prop)
    (body : list jsstring -> nat -> Columns -> outcome (nat * Columns)) lines :
  (forall i c, i < length lines ->
     exists i' c', body lines i c = Ok (i', c') /\ i <= i' /\ pushes c c') ->
  P no_columns ->
  (forall c c', pushes c c' -> P c -> P c') ->
  exists c, for_upto (length lines) (body lines) no_columns = Ok c /\ P c.
Proof.
  intros Hbody H0 Hstep.
  destruct (for_upto_inv (fun _ c => P c) (length lines) (body lines) no_columns)
    as (j & c & Hrun & _ & HP); [|exact H0|eauto].
  intros i c Hi HP. destruct (Hbody i c Hi) as (i' & c' & ? & ? & ?). eauto 6.
Qed.

Lemma classifyShopee_inv (P : Columns -> Prop) text :
  P no_columns -> (forall c c', pushes c c' -> P c -> P c') ->
  exists c, classifyShopee text = Ok c /\ P c.
Proof. apply (classify_inv P shopee_line). intros. apply shopee_line_ok. assumption. Qed.

Lemma classifyMercadoLivre_inv (P : Columns -> Prop) text :
  P no_columns -> (forall c c', pushes c c' -> P c -> P c') ->
  exists c, classifyMercadoLivre text = Ok c /\ P c.
Proof. apply (classify_inv P ml_line). intros. apply ml_line_ok. assumption. Qed.

Lemma classifyMagalu_inv (P : Columns -> Prop) text :
  P no_columns -> (forall c c', pushes c c' -> P c -> P c') ->
  exists c, classifyMagalu text = Ok c /\ P c.
Proof. apply (classify_inv P magalu_line). intros. apply magalu_line_ok. assumption. Qed.

Lemma classifyShopee_ok text : exists c, classifyShopee text = Ok c.
Proof. destruct (classifyShopee_inv (fun _ => True) text) as (c & ? & _); eauto. Qed.

Lemma classifyMercadoLivre_ok text : exists c, classifyMercadoLivre text = Ok c.
Proof. destruct (classifyMercadoLivre_inv (fun _ => True) text) as (c & ? & _); eauto. Qed.

Lemma classifyMagalu_ok text : exists c, classifyMagalu text = Ok c.
Proof. destruct (classifyMagalu_inv (fun _ => True) text) as (c & ? & _); eauto. Qed.

Lemma parsed_amounts_pushes c c' : pushes c c' -> parsed_amounts c -> parsed_amounts c'.
Proof.
  unfold parsed_amounts. intros [] Hc; simpl; auto.
  apply Forall_app. split; [exact Hc|]. constructor; [split; [assumption|reflexivity]|constructor].
Qed.

End ParserTotal.

(** ** The classified lists follow the order of the text *)

Section SourceOrder.
Context `{Host}.
Import Spec ReFacts.

Lemma trim_start_fixed s :
  match s with c :: _ => is_ws c = false | [] => True end -> trim_start s = s.
Proof. destruct s as [|c s]; simpl; [reflexivity|]. intros ->. reflexivity. Qed.

Lemma trim_start_head s :
  match trim_start s with c :: _ => is_ws c = false | [] => True end.
Proof.
  induction s as [|c s IH]; simpl; [exact I|].
  destruct (is_ws c) eqn:E; [exact IH|exact E].
Qed.

Lemma trim_start_split s : exists w, s = w ++ trim_start s.
Proof.
  induction s as [|c s (w & IH)]; simpl; [exists []; reflexivity|].
  destruct (is_ws c); [|exists []; reflexivity].
  exists (c :: w). simpl. f_equal. exact IH.
Qed.

Lemma trim_trim s : trim (trim s) = trim s.
Proof.
  unfold trim. set (a := trim_start s). set (b := trim_start (rev a)).
  assert (Hb : trim_start b = b) by (apply trim_start_fixed, trim_start_head).
  assert (Hrb : trim_start (rev b) = rev b).
  { apply trim_start_fixed. destruct (trim_start_split (rev a)) as (w & Hw).
    fold b in Hw. apply (f_equal (@rev N)) in Hw. rewrite rev_involutive, rev_app_distr in Hw.
    pose proof (trim_start_head s) as Ha. fold a in Ha.
    destruct (rev b) as [|c rb] eqn:Erb; [exact I|].
    rewrite Hw in Ha. simpl in Ha. exact Ha. }
  rewrite Hrb, rev_involutive, Hb. reflexivity.
Qed.

(** The lines of a table are trimmed. *)
Lemma lines_of_trimmed text : Forall (fun l => trim l = l) (lines_of text).
Proof.
  unfold lines_of. apply List.Forall_forall. intros l [Hin _]%filter_In.
  apply in_map_iff in Hin as (x & <- & _). apply trim_trim.
Qed.

Lemma search_ext r r' :
  (forall pos s, at_pos r pos s = at_pos r' pos s) ->
  forall s pos, search r pos s = search r' pos s.
Proof.
  intros Hat. induction s as [|c s IH]; intros pos; simpl; rewrite Hat; [reflexivity|].
  rewrite IH. reflexivity.
Qed.

(** The two spellings of the amount pattern accept the same lines. *)
Lemma valor_line_test_eq s : test Pat.valor_line_test s = test Pat.valor_line s.
Proof.
  rewrite <- (test_erase Pat.valor_line). unfold test, exec.
  rewrite (search_ext Pat.valor_line_test (erase Pat.valor_line)); reflexivity.
Qed.

Lemma captured_valor_none line : test Pat.valor_line line = false -> captured_valor line = None.
Proof.
  unfold test, captured_valor. destruct (exec Pat.valor_line line); [discriminate|reflexivity].
Qed.

(** One round of the Shopee loop: the line at [i] contributes its identifier
    or its amount, and a continuation line that the round consumes
    contributes neither. *)
Lemma shopee_line_columns lines i c line :
  Forall (fun l => trim l = l) lines -> lines !! i = Some line ->
  exists i' c', shopee_line lines i c = Ok (i', c')
    /\ numeros c' = numeros c ++ omap (numero_of VariantA) [line]
    /\ valores c' = valores c ++ omap (valor_of VariantA) [line]
    /\ (i' = i
        \/ i' = i + 1
           /\ exists next, lines !! (i + 1) = Some next
                /\ numero_of VariantA next = None /\ valor_of VariantA next = None).
Proof.
  intros Htrim Hline. unfold shopee_line, at_. rewrite Hline, bind_Ok.
  cbn [omap list_omap numero_of valor_of].
  destruct (test Pat.shopee_header line) eqn:Eh.
  { exists i, c. rewrite !app_nil_r. auto. }
  destruct (test Pat.digits_7_9_line line) eqn:Ed.
  { exists i, (push_numero line c). cbn [orb]. rewrite app_nil_r. auto. }
  cbn [orb]. unfold captured_valor.
  destruct (exec Pat.valor_line line) as [m|] eqn:Em.
  { destruct (group_of_captures Pat.valor_line _ _ eq_refl Em) as (t & Ht & ->).
    rewrite bind_Ok, Ht. eexists i, _. split; [reflexivity|]. rewrite app_nil_r. auto. }
  destruct (includes line (js "-")).
  2:{ exists i, c. rewrite !app_nil_r. auto. }
  destruct ((ends_with line (js "-") || ends_with line (js "- "))
            && bool_decide (i + 1 < length lines)) eqn:Ejoin.
  - apply andb_true_iff in Ejoin as [_ Hnext%bool_decide_eq_true].
    destruct (lookup_lt_is_Some_2 lines (i + 1) Hnext) as [next Hnx]. rewrite Hnx, bind_Ok.
    assert (Htn : trim next = next).
    { eapply (proj1 (List.Forall_forall _ _) Htrim). apply list_elem_of_In.
      eapply list_elem_of_lookup_2. exact Hnx. }
    rewrite Htn.
    destruct (test Pat.digits_7_9_line next) eqn:End;
      [|destruct (test Pat.valor_line_test next) eqn:Env;
        [|destruct (test Pat.shopee_header next) eqn:Enh]];
      cbn [negb andb]; rewrite bind_Ok; cbv [fst snd];
      case_if;
      eexists _, _; (split; [reflexivity|]); cbn [push_descricao numeros valores];
      rewrite ?app_nil_r; (split; [reflexivity|]); (split; [reflexivity|]);
      try (left; reflexivity);
      right; (split; [reflexivity|]); exists next; (split; [reflexivity|]);
      cbn [numero_of valor_of]; rewrite Enh, End; cbn [orb];
      (split; [reflexivity|]); apply captured_valor_none;
      rewrite <- valor_line_test_eq; exact Env.
  - rewrite bind_Ok; cbv [fst snd].
    case_if;
      eexists _, _; (split; [reflexivity|]); cbn [push_descricao numeros valores];
      rewrite ?app_nil_r; auto.
Qed.

Lemma ml_line_columns lines i c line :
  lines !! i = Some line ->
  exists c', ml_line lines i c = Ok (i, c')
    /\ numeros c' = numeros c ++ omap (numero_of VariantB) [line]
    /\ valores c' = valores c ++ omap (valor_of VariantB) [line].
Proof.
  intros Hline. unfold ml_line, at_. rewrite Hline, bind_Ok.
  cbn [omap list_omap numero_of valor_of].
  destruct (test Pat.ml_header line) eqn:Eh.
  { exists c. rewrite !app_nil_r. auto. }
  destruct (test Pat.zero_padded line) eqn:Ed.
  { eexists. split; [reflexivity|]. cbn [orb]. rewrite app_nil_r. auto. }
  cbn [orb]. unfold captured_valor.
  destruct (exec Pat.valor_line line) as [m|] eqn:Em.
  { destruct (group_of_captures Pat.valor_line _ _ eq_refl Em) as (t & Ht & ->).
    rewrite bind_Ok, Ht. eexists. split; [reflexivity|]. rewrite app_nil_r. auto. }
  case_if;
    eexists; (split; [reflexivity|]); cbn [push_descricao numeros valores];
    rewrite ?app_nil_r; auto.
Qed.

(** The identifiers and the amounts are collected in the order of the lines
    of the text. *)
Lemma classify_in_text_order variant tableText c :
  classify_of variant tableText = Ok c ->
  numeros c = omap (numero_of variant) (lines_of tableText)
  /\ valores c = omap (valor_of variant) (lines_of tableText).
Proof.
  set (lines := lines_of tableText).
  pose (P := fun (i : nat) (c : Columns) =>
               numeros c = omap (numero_of variant) (take i lines)
               /\ valores c = omap (valor_of variant) (take i lines)).
  assert (Hfinal : forall j c, length lines <= j -> P j c ->
                     numeros c = omap (numero_of variant) lines
                     /\ valores c = omap (valor_of variant) lines).
  { intros j c' Hj [Hn Hv]. rewrite take_ge in Hn, Hv by exact Hj. auto. }
  assert (Hsnoc : forall i line, lines !! i = Some line ->
                    take (S i) lines = take i lines ++ [line]).
  { intros i line Hl. apply take_S_r. exact Hl. }
  destruct variant; simpl; intros Hc.
  - unfold classifyShopee in Hc. fold lines in Hc.
    destruct (for_upto_inv P (length lines) (shopee_line lines) no_columns)
      as (j & c' & Hrun & Hj & HP).
    + intros i c0 Hi [Hn Hv].
      destruct (lookup_lt_is_Some_2 lines i Hi) as [line Hline].
      destruct (shopee_line_columns lines i c0 line (lines_of_trimmed tableText) Hline)
        as (i' & c' & Hbody & Hn' & Hv' & Hi').
      exists i', c'. split; [exact Hbody|].
      destruct Hi' as [->|(-> & next & Hnext & Hnn & Hnv)].
      * split; [lia|]. unfold P. rewrite (Hsnoc i line Hline), !omap_app, Hn', Hv', Hn, Hv.
        auto.
      * split; [lia|]. unfold P. replace (S (i + 1)) with (S (S i)) by lia.
        replace (i + 1) with (S i) in Hnext by lia.
        rewrite (Hsnoc (S i) next Hnext), (Hsnoc i line Hline), !omap_app, Hn', Hv', Hn, Hv.
        cbn [omap list_omap]. rewrite Hnn, Hnv, !app_nil_r. auto.
    + split; reflexivity.
    + rewrite Hrun in Hc. injection Hc as <-. exact (Hfinal j c' Hj HP).
  - unfold classifyMercadoLivre in Hc. fold lines in Hc.
    destruct (for_upto_inv P (length lines) (ml_line lines) no_columns)
      as (j & c' & Hrun & Hj & HP).
    + intros i c0 Hi [Hn Hv].
      destruct (lookup_lt_is_Some_2 lines i Hi) as [line Hline].
      destruct (ml_line_columns lines i c0 line Hline) as (c' & Hbody & Hn' & Hv').
      exists i, c'. split; [exact Hbody|]. split; [lia|].
      unfold P. rewrite (Hsnoc i line Hline), !omap_app, Hn', Hv', Hn, Hv. auto.
    + split; reflexivity.
    + rewrite Hrun in Hc. injection Hc as <-. exact (Hfinal j c' Hj HP).
Qed.

End SourceOrder.

(** ** Lines made of zeros in a Mercado Livre table *)

Module ZeroLines.
Import ReFacts.

Lemma search_bol r s : forall pos, 0 < pos -> search (Seq Bol r) pos s = None.
Proof.
  induction s as [|c s IH]; intros pos Hpos; simpl; unfold at_pos; simpl;
    destruct pos; try lia; simpl; auto with lia.
Qed.

(** An anchored pattern can only match at the start. *)
Lemma exec_bol r s : exec (Seq Bol r) s = at_pos (Seq Bol r) 0 s.
Proof.
  unfold exec. destruct s as [|c s]; simpl.
  - destruct (at_pos (Seq Bol r) 0 []); reflexivity.
  - destruct (at_pos (Seq Bol r) 0 (c :: s)); [reflexivity|].
    apply search_bol. lia.
Qed.

(** A greedy quantifier takes the whole input when the input is in the class
    and the rest of the pattern accepts the end of input. *)
Lemma rep_all {A} p (k : kont A) cap s :
  forall lo pos,
  Forall (fun c => p c = true) s ->
  lo <= length s ->
  (exists x, k (pos + length s) [] cap = Some x) ->
  rep p lo None pos s cap k = k (pos + length s) [] cap.
Proof.
  induction s as [|c s IH]; intros lo pos Hall Hlo [x Hx]; simpl in *.
  - rewrite Nat.add_0_r in *. destruct lo; [reflexivity|lia].
  - inversion Hall as [|? ? Hc Hs]; subst. rewrite Hc.
    rewrite Nat.add_succ_r in *.
    rewrite (IH (pred lo) (S pos) Hs) by (simpl; eauto with lia).
    simpl. rewrite Hx. reflexivity.
Qed.

Lemma rep_cons_true {A} p (k : kont A) cap c s lo pos :
  p c = true ->
  rep p lo None pos (c :: s) cap k
  = match rep p (pred lo) None (S pos) s cap k with
    | Some x => Some x
    | None => match lo with 0 => k pos (c :: s) cap | S _ => None end
    end.
Proof. intros Hc. simpl. rewrite Hc. reflexivity. Qed.

(** On two or more zeros, [0+] followed by a pattern that needs one more
    digit gives back exactly the last zero. *)
Lemma rep_zeros_give_back {A} (k : kont A) cap :
  forall m lo pos,
  lo <= 1 ->
  k (pos + S (S m)) [] cap = None ->
  (exists x, k (pos + S m) [48%N] cap = Some x) ->
  rep (N.eqb 48) lo None pos (zeros (S (S m))) cap k = k (pos + S m) [48%N] cap.
Proof.
  induction m as [|m IH]; intros lo pos Hlo Hend [x Hx].
  - simpl. rewrite !Nat.add_succ_r, Nat.add_0_r in *.
    destruct lo as [|[|lo]]; try lia; simpl; rewrite Hend, Hx; reflexivity.
  - change (zeros (S (S (S m)))) with (48%N :: zeros (S (S m))).
    rewrite rep_cons_true by reflexivity.
    rewrite (IH (pred lo) (S pos)); rewrite ?Nat.add_succ_r in *; simpl; eauto with lia.
    rewrite Hx. reflexivity.
Qed.

Lemma zeros_all n : Forall (fun c => N.eqb 48 c = true) (zeros n).
Proof. induction n; simpl; constructor; auto. Qed.

Lemma zeros_length n : length (zeros n) = n.
Proof. apply repeat_length. Qed.

(** [/^0+\d+$/] accepts every line of two or more zeros. *)
Lemma zero_padded_zeros m : test Pat.zero_padded (zeros (S (S m))) = true.
Proof.
  unfold test, Pat.zero_padded. cbn [seq]. rewrite exec_bol.
  unfold at_pos. cbn [run Nat.eqb plus].
  rewrite rep_zeros_give_back; [reflexivity|lia|reflexivity|].
  eexists. reflexivity.
Qed.

(** [/^0+\d+$/] rejects the single zero. *)
Lemma zero_padded_one_zero : test Pat.zero_padded (js "0") = false.
Proof. reflexivity. Qed.

(** [line.replace(/^0+/, '')] leaves nothing of a line of zeros. *)
Lemma leading_zeros_zeros n :
  replace Pat.leading_zeros [] (zeros (S n)) = [].
Proof.
  unfold replace, Pat.leading_zeros. cbn [seq]. rewrite exec_bol.
  unfold at_pos. cbn [run Nat.eqb plus].
  rewrite rep_all; [|apply zeros_all|rewrite zeros_length; lia|eexists; reflexivity].
  cbn [index whole]. rewrite !Nat.add_0_l, Nat.sub_0_r.
  rewrite length_take, zeros_length, Nat.min_id, take_0.
  rewrite !app_nil_l.
  apply drop_ge. rewrite zeros_length. lia.
Qed.

Lemma ml_header_zeros n : test Pat.ml_header (zeros (S n)) = false.
Proof.
  unfold test, Pat.ml_header. cbn [seq]. rewrite exec_bol. reflexivity.
Qed.

Lemma split_lines_zeros n rest :
  split_lines (zeros n ++ 10%N :: rest) = zeros n :: split_lines rest.
Proof.
  unfold zeros. induction n as [|n IH]; simpl; [reflexivity|]. rewrite IH. reflexivity.
Qed.

Lemma rev_zeros n : rev (zeros n) = zeros n.
Proof.
  unfold zeros. induction n as [|n IH]; simpl; [reflexivity|]. rewrite IH.
  clear IH. induction n; simpl; [reflexivity|]. f_equal. assumption.
Qed.

Lemma trim_zeros n : trim (zeros n) = zeros n.
Proof.
  unfold trim. destruct n as [|n]; [reflexivity|].
  change (trim_start (zeros (S n))) with (zeros (S n)). rewrite rev_zeros.
  change (trim_start (zeros (S n))) with (zeros (S n)). apply rev_zeros.
Qed.

End ZeroLines.

(** ** The cascade of [findMatchingRow] *)

Lemma find_split {A} (p : A -> bool) l x :
  List.find p l = Some x ->
  exists pre post, l = pre ++ x :: post /\ Forall (fun y => p y = false) pre /\ p x = true.
Proof.
  induction l as [|y l IH]; simpl; [discriminate|].
  destruct (p y) eqn:Ey.
  - intros [= ->]. exists [], l. auto.
  - intros (pre & post & -> & Hpre & Hx)%IH. exists (y :: pre), post. auto.
Qed.

Lemma find_none_all {A} (p : A -> bool) l :
  List.find p l = None -> Forall (fun y => p y = false) l.
Proof.
  induction l as [|y l IH]; simpl; [constructor|].
  destruct (p y) eqn:Ey; [discriminate|]. auto.
Qed.

Lemma find_some_first {A} (p : A -> bool) l x :
  In x l -> p x = true -> exists y, List.find p l = Some y.
Proof.
  induction l as [|z l IH]; simpl; [contradiction|].
  intros Hin Hx. destruct (p z) eqn:Ez; [eauto|].
  destruct Hin as [->|Hin]; [congruence|auto].
Qed.

Lemma str_eqb_eq a b : Str.eqb a b = true <-> a = b.
Proof. unfold Str.eqb. apply bool_decide_eq_true. Qed.

Lemma str_eqb_neq a b : a <> b -> Str.eqb a b = false.
Proof. unfold Str.eqb. apply bool_decide_eq_false_2. Qed.

Section MatcherFacts.
Context `{Host}.

Lemma nf_is_true fileNum row : nf_is fileNum row = true <-> nf row = Some fileNum.
Proof.
  unfold nf_is. destruct (nf row) as [n|]; [|split; discriminate].
  rewrite str_eqb_eq. split; congruence.
Qed.

Lemma nf_is_false fileNum row : nf_is fileNum row = false <-> nf row <> Some fileNum.
Proof.
  rewrite <- nf_is_true. destruct (nf_is fileNum row); split; congruence.
Qed.

(** Outside Magalu the four strategies are tried in this order. *)
Lemma findMatchingRow_cascade pdfText tableData fileName marketplace :
  marketplace <> js "Magalu" ->
  findMatchingRow pdfText tableData fileName marketplace =
    match matchByFileName fileName tableData with
    | Some row => Some row
    | None =>
      match matchByNumberAndValue (normalizePdf pdfText) tableData with
      | Some row => Some row
      | None =>
        match matchByValue (normalizePdf pdfText) tableData with
        | Some row => Some row
        | None => matchByNumber (normalizePdf pdfText) tableData
        end
      end
    end.
Proof.
  intros Hm. unfold findMatchingRow. rewrite (str_eqb_neq _ _ Hm). reflexivity.
Qed.

(** The loop over the numbers of the file name stops at the first number that
    is the number of some row, with the first row that carries it. *)
Lemma firstByFileNum_first tableData pre g post :
  (forall g', In g' pre -> forall row, In row tableData -> nf row <> Some g') ->
  (exists row, In row tableData /\ nf row = Some g) ->
  exists rpre row rpost,
    tableData = rpre ++ row :: rpost
    /\ nf row = Some g
    /\ Forall (fun r => nf r <> Some g) rpre
    /\ firstByFileNum (pre ++ g :: post) tableData = Some row.
Proof.
  intros Hpre (row0 & Hin & Hnf).
  induction pre as [|g' pre IH]; simpl.
  - destruct (find_some_first (nf_is g) tableData row0 Hin) as [row Hfind];
      [apply nf_is_true; exact Hnf|].
    rewrite Hfind. destruct (find_split _ _ _ Hfind) as (rpre & rpost & -> & Hrpre & Hrow).
    exists rpre, row, rpost. split; [reflexivity|]. split; [apply nf_is_true; exact Hrow|].
    split; [|reflexivity].
    eapply Forall_impl; [exact Hrpre|]. intros r Hr. apply nf_is_false. exact Hr.
  - destruct (List.find (nf_is g') tableData) as [row|] eqn:Hfind.
    + exfalso. destruct (find_split _ _ _ Hfind) as (rpre & rpost & -> & _ & Hrow).
      apply (Hpre g' (or_introl eq_refl) row); [|apply nf_is_true; exact Hrow].
      apply in_or_app. right. left. reflexivity.
    + apply IH. intros g'' Hg''. apply Hpre. right. exact Hg''.
Qed.

(** A row returned by the first, second or fourth strategy has a non-empty
    number. *)
Lemma matchByNumberAndValue_truthy npdf tableData row :
  matchByNumberAndValue npdf tableData = Some row ->
  exists n, nf row = Some n /\ n <> [].
Proof.
  intros (_ & _ & _ & _ & Hrow)%find_split.
  apply andb_true_iff in Hrow as [Hnf _]. unfold nfFound in Hnf.
  destruct (nf row) as [[|c n]|]; try discriminate. eexists; split; [reflexivity|discriminate].
Qed.

Lemma matchByNumber_truthy npdf tableData row :
  matchByNumber npdf tableData = Some row ->
  exists n, nf row = Some n /\ n <> [].
Proof.
  intros (_ & _ & _ & _ & Hnf)%find_split. unfold nfFound in Hnf.
  destruct (nf row) as [[|c n]|]; try discriminate. eexists; split; [reflexivity|discriminate].
Qed.

Lemma firstByFileNum_In nums tableData row :
  firstByFileNum nums tableData = Some row ->
  exists g, In g nums /\ nf row = Some g /\ In row tableData.
Proof.
  induction nums as [|g nums IH]; simpl; [discriminate|].
  destruct (List.find (nf_is g) tableData) as [r|] eqn:Hfind.
  - intros [= ->]. destruct (find_split _ _ _ Hfind) as (rpre & rpost & -> & _ & Hrow).
    exists g. split; [left; reflexivity|]. split; [apply nf_is_true; exact Hrow|].
    apply in_or_app. right. left. reflexivity.
  - intros (g' & Hg' & Hrow)%IH. exists g'. split; [right; exact Hg'|exact Hrow].
Qed.

End MatcherFacts.

(** ** Parsers: pairing, exceptions, amounts, unknown marketplace *)

Section SpecFacts.
Context `{Host}.
Import Spec.

Lemma positional_pairing_length ids amounts ds :
  length (positional_pairing ids amounts ds) = Nat.min (length ids) (length amounts).
Proof.
  revert amounts ds. induction ids as [|n ids IH]; intros [|v amounts] ds; simpl; auto.
Qed.

Lemma positional_pairing_lookup ids amounts ds i n v :
  ids !! i = Some n -> amounts !! i = Some v ->
  positional_pairing ids amounts ds !! i
  = Some {| nf := Some n; valor := num v; valorFormatado := text v;
            descricao := default placeholder (ds !! i); tipo := TipoAbsent |}.
Proof.
  revert amounts ds i. induction ids as [|n0 ids IH]; intros [|v0 amounts] ds [|i];
    simpl; try discriminate.
  - intros [= ->] [= ->]. destruct ds; reflexivity.
  - intros Hn Hv. rewrite (IH _ _ _ Hn Hv). destruct ds; reflexivity.
Qed.

Lemma pair_columns_positional c :
  numeros c <> [] -> valores c <> [] ->
  pair_columns c = Ok (positional_pairing (numeros c) (valores c) (descricoes c)).
Proof.
  intros Hn Hv. destruct (pair_columns_spec c) as (rows & -> & Hlen & Hrows).
  rewrite !bool_decide_eq_false_2 in Hlen by assumption. simpl in Hlen.
  f_equal. apply list_eq. intros i.
  destruct (decide (i < length rows)) as [Hi|Hi].
  - destruct (lookup_lt_is_Some_2 (numeros c) i) as [n Hni]; [lia|].
    destruct (lookup_lt_is_Some_2 (valores c) i) as [v Hvi]; [lia|].
    rewrite (Hrows i v Hi Hvi), (positional_pairing_lookup _ _ _ _ _ _ Hni Hvi).
    unfold paired. rewrite Hni, descricao_at_lookup. reflexivity.
  - rewrite !lookup_ge_None_2; [reflexivity| |lia].
    rewrite positional_pairing_length. lia.
Qed.

End SpecFacts.

(** C2.  For Shopee and Mercado Livre, when the classified identifier and
    amount lists are both non-empty, the parser returns exactly
    min(#identifiers, #amounts) records; the i-th record pairs the i-th
    identifier with the i-th amount, both lists being in the order of the
    lines of the text, and with the i-th description, the placeholder
    'Serviço' once the descriptions run out; identifiers [A,B,C] with two
    amounts give exactly the two records (A, first), (B, second). *)
Theorem pairing_by_position `{Host} (variant : Spec.paired_variant)
    (tableText : jsstring) (c : Columns) :
  Spec.classify_of variant tableText = Ok c ->
  numeros c <> [] ->
  valores c <> [] ->
  numeros c = omap (Spec.numero_of variant) (lines_of tableText)
  /\ valores c = omap (Spec.valor_of variant) (lines_of tableText)
  /\ exists rows,
    Spec.parse_of variant tableText = Ok rows
    /\ rows = Spec.positional_pairing (numeros c) (valores c) (descricoes c)
    /\ length rows = Nat.min (length (numeros c)) (length (valores c))
    /\ (forall i n v,
          numeros c !! i = Some n -> valores c !! i = Some v ->
          rows !! i = Some {| nf := Some n; valor := num v; valorFormatado := text v;
                              descricao := default placeholder (descricoes c !! i);
                              tipo := TipoAbsent |})
    /\ (forall a b c3 v1 v2,
          numeros c = [a; b; c3] -> valores c = [v1; v2] ->
          rows = [ {| nf := Some a; valor := num v1; valorFormatado := text v1;
                      descricao := default placeholder (descricoes c !! 0);
                      tipo := TipoAbsent |};
                   {| nf := Some b; valor := num v2; valorFormatado := text v2;
                      descricao := default placeholder (descricoes c !! 1);
                      tipo := TipoAbsent |} ]).
Proof.
  intros Hc Hn Hv.
  destruct (classify_in_text_order variant tableText c Hc) as [Hnumeros Hvalores].
  split; [exact Hnumeros|]. split; [exact Hvalores|].
  exists (Spec.positional_pairing (numeros c) (valores c) (descricoes c)).
  split.
  { destruct variant; simpl in Hc |- *;
      [unfold parseTableTextShopee|unfold parseTableTextMercadoLivre];
      rewrite Hc, bind_Ok; apply pair_columns_positional; assumption. }
  split; [reflexivity|]. split; [apply positional_pairing_length|].
  split; [intros i n v; apply positional_pairing_lookup|].
  intros a b c3 v1 v2 -> ->. simpl. destruct (descricoes c) as [|d0 [|d1 ds]]; reflexivity.
Qed.

Lemma pairing_by_position_witness :
  exists rows : list (@TableRow DecimalHost.host),
    parseTableTextShopee (H := DecimalHost.host)
      (text_of [js "1234567"; js "2345678"; js "3456789"; js "R$ 10,00"; js "R$ 20,00";
                js "Taxa - de envio"])
    = Ok rows
    /\ rows = [ {| nf := Some (js "1234567"); valor := DecimalHost.Cents 1000;
                   valorFormatado := js "10,00"; descricao := js "Taxa - de envio";
                   tipo := TipoAbsent |};
                {| nf := Some (js "2345678"); valor := DecimalHost.Cents 2000;
                   valorFormatado := js "20,00"; descricao := js "Serviço";
                   tipo := TipoAbsent |} ].
Proof.
  destruct (pairing_by_position (H := DecimalHost.host) Spec.VariantA
              (text_of [js "1234567"; js "2345678"; js "3456789"; js "R$ 10,00";
                        js "R$ 20,00"; js "Taxa - de envio"])
              (@Build_Columns DecimalHost.host
                 [js "Taxa - de envio"]
                 [js "1234567"; js "2345678"; js "3456789"]
                 [ @Build_Valor DecimalHost.host (js "10,00") (DecimalHost.Cents 1000);
                   @Build_Valor DecimalHost.host (js "20,00") (DecimalHost.Cents 2000) ]))
    as (_ & _ & rows & Hparse & _ & _ & _ & Hrows).
  - vm_compute. reflexivity.
  - discriminate.
  - discriminate.
  - exists rows. split; [exact Hparse|]. exact (Hrows _ _ _ _ _ eq_refl eq_refl).
Defined.

(** C3.  For every input text each of the three parsers returns normally (no
    exception): the classification loop ends, and the result is the empty
    sequence when the identifier list (Shopee, Mercado Livre) or the amount
    list (all three) is empty, a sequence of records otherwise; so does
    parseTableText for every marketplace. *)
Theorem parsers_never_raise `{Host} (tableText : jsstring) :
  (exists c rows,
      classifyShopee tableText = Ok c
      /\ parseTableTextShopee tableText = Ok rows
      /\ length rows = (if bool_decide (numeros c = []) || bool_decide (valores c = [])
                        then 0 else Nat.min (length (numeros c)) (length (valores c))))
  /\ (exists c rows,
         classifyMercadoLivre tableText = Ok c
         /\ parseTableTextMercadoLivre tableText = Ok rows
         /\ length rows = (if bool_decide (numeros c = []) || bool_decide (valores c = [])
                           then 0 else Nat.min (length (numeros c)) (length (valores c))))
  /\ (exists c rows,
         classifyMagalu tableText = Ok c
         /\ parseTableTextMagalu tableText = Ok rows
         /\ length rows = (if bool_decide (valores c = []) then 0 else length (valores c)))
  /\ (forall marketplace, exists rows, parseTableText tableText marketplace = Ok rows).
Proof.
  assert (HA : exists c rows,
             classifyShopee tableText = Ok c
             /\ parseTableTextShopee tableText = Ok rows
             /\ length rows
                = (if bool_decide (numeros c = []) || bool_decide (valores c = [])
                   then 0 else Nat.min (length (numeros c)) (length (valores c)))).
  2: assert (HB : exists c rows,
             classifyMercadoLivre tableText = Ok c
             /\ parseTableTextMercadoLivre tableText = Ok rows
             /\ length rows
                = (if bool_decide (numeros c = []) || bool_decide (valores c = [])
                   then 0 else Nat.min (length (numeros c)) (length (valores c)))).
  3: assert (HC : exists c rows,
             classifyMagalu tableText = Ok c
             /\ parseTableTextMagalu tableText = Ok rows
             /\ length rows
                = (if bool_decide (valores c = []) then 0 else length (valores c))).
  4:{ split; [exact HA|]. split; [exact HB|]. split; [exact HC|].
      intros marketplace. unfold parseTableText.
      destruct HA as (_ & rowsA & _ & HA & _), HB as (_ & rowsB & _ & HB & _),
               HC as (_ & rowsC & _ & HC & _).
      repeat case_if; eauto. }
  - destruct (classifyShopee_ok tableText) as [c Hc].
    destruct (pair_columns_spec c) as (rows & Hrows & Hlen & _).
    exists c, rows. unfold parseTableTextShopee. rewrite Hc, bind_Ok. auto.
  - destruct (classifyMercadoLivre_ok tableText) as [c Hc].
    destruct (pair_columns_spec c) as (rows & Hrows & Hlen & _).
    exists c, rows. unfold parseTableTextMercadoLivre. rewrite Hc, bind_Ok. auto.
  - destruct (classifyMagalu_ok tableText) as [c Hc].
    destruct (rows_of_valores_spec c) as (rows & Hrows & Hlen & _).
    exists c, rows. unfold parseTableTextMagalu. rewrite Hc, bind_Ok.
    split; [reflexivity|]. split; [exact Hrows|].
    rewrite Hlen. destruct (valores c); reflexivity.
Qed.

(** C10.  For every text and every marketplace other than 'Shopee',
    'Mercado Livre' and 'Magalu', parseTableText returns the empty sequence
    and does not throw. *)
Theorem unknown_marketplace_empty `{Host} (tableText marketplace : jsstring) :
  marketplace <> js "Shopee" ->
  marketplace <> js "Mercado Livre" ->
  marketplace <> js "Magalu" ->
  parseTableText tableText marketplace = Ok [].
Proof.
  intros H1 H2 H3. unfold parseTableText.
  rewrite (str_eqb_neq _ _ H1), (str_eqb_neq _ _ H2), (str_eqb_neq _ _ H3). reflexivity.
Qed.

Lemma unknown_marketplace_empty_witness :
  parseTableText (H := DecimalHost.host)
    (text_of [js "1234567"; js "R$ 10,00"]) (js "Amazon") = Ok [].
Proof.
  apply (unknown_marketplace_empty (H := DecimalHost.host)); discriminate.
Defined.

Section AmountFacts.
Context `{Host}.

Lemma filter_periods_digits s :
  Forall (fun x => is_digit x = true) s ->
  List.filter (fun c => negb (N.eqb 46 c)) s = s.
Proof.
  intros Hs. apply (ReFacts.filter_all_false (N.eqb 46)).
  eapply Forall_impl; [exact Hs|]. intros c Hc. cbv beta in *.
  apply N.eqb_neq. intros <-. discriminate Hc.
Qed.

(** An amount text reaches parseFloat as its digits, a period, its two
    fraction digits. *)
Lemma parse_valor_amount body fraction :
  Forall (fun x => Pat.digit_or_dot x = true) body ->
  Forall (fun x => is_digit x = true) fraction ->
  parse_valor (body ++ js "," ++ fraction)
  = parseFloat (List.filter (fun c => negb (N.eqb 46 c)) body ++ js "." ++ fraction)
  /\ Forall (fun x => is_digit x = true) (List.filter (fun c => negb (N.eqb 46 c)) body).
Proof.
  intros Hbody Hfrac.
  assert (Hdigits : Forall (fun x => is_digit x = true)
                      (List.filter (fun c => negb (N.eqb 46 c)) body)).
  { apply List.Forall_forall. intros x [Hin Hx]%filter_In.
    apply (proj1 (List.Forall_forall _ _) Hbody) in Hin.
    unfold Pat.digit_or_dot, either in Hin. apply orb_true_iff in Hin as [Hd|Hp]; [exact Hd|].
    rewrite Hp in Hx. discriminate Hx. }
  split; [|exact Hdigits].
  unfold parse_valor. rewrite ReFacts.strip_periods, !List.filter_app.
  rewrite (filter_periods_digits fraction Hfrac).
  change (List.filter (fun c => negb (N.eqb 46 c)) (js ",")) with [44%N].
  change ([44%N] ++ fraction) with (44%N :: fraction).
  unfold Pat.comma, chr. rewrite ReFacts.replace_cls_first; [reflexivity| |reflexivity].
  eapply Forall_impl; [exact Hdigits|]. intros c Hc. cbv beta in *.
  apply N.eqb_neq. intros <-. discriminate Hc.
Qed.

End AmountFacts.

(** C4.  Parsing an amount ignores the grouping periods: the parser removes
    every period, replaces the decimal comma by a period and parses the
    result, so any two texts that differ only in periods parse to the same
    number; "1.234,56" parses to the same number as "1234,56", the number
    written 1234.56.  Every amount collected by the three parsers is parsed
    this way. *)
Theorem amount_parsing_ignores_grouping `{Host} :
  (forall valorText,
      parse_valor valorText
      = parseFloat (replace Pat.comma (js ".")
                      (List.filter (fun c => negb (N.eqb 46 c)) valorText)))
  /\ (forall a b, parse_valor (a ++ js "." ++ b) = parse_valor (a ++ b))
  /\ (forall body fraction,
        Forall (fun x => Pat.digit_or_dot x = true) body ->
        Forall (fun x => is_digit x = true) fraction ->
        parse_valor (body ++ js "," ++ fraction)
        = parseFloat (List.filter (fun c => negb (N.eqb 46 c)) body ++ js "." ++ fraction))
  /\ parse_valor (js "1.234,56") = parse_valor (js "1234,56")
  /\ parse_valor (js "1234,56") = parseFloat (js "1234.56")
  /\ (forall tableText,
        (exists c, classifyShopee tableText = Ok c /\ parsed_amounts c)
        /\ (exists c, classifyMercadoLivre tableText = Ok c /\ parsed_amounts c)
        /\ (exists c, classifyMagalu tableText = Ok c /\ parsed_amounts c)).
Proof.
  assert (Hparse : forall t,
             parse_valor t
             = parseFloat (replace Pat.comma (js ".")
                             (List.filter (fun c => negb (N.eqb 46 c)) t))).
  { intros t. unfold parse_valor. rewrite ReFacts.strip_periods. reflexivity. }
  split; [exact Hparse|]. split; [|split; [|split; [|split]]].
  - intros a b. rewrite !Hparse, !List.filter_app. reflexivity.
  - intros body fraction Hbody Hfrac. apply parse_valor_amount; assumption.
  - rewrite !Hparse. reflexivity.
  - rewrite Hparse. reflexivity.
  - intros tableText. split; [|split].
    + apply classifyShopee_inv; [constructor|apply parsed_amounts_pushes].
    + apply classifyMercadoLivre_inv; [constructor|apply parsed_amounts_pushes].
    + apply classifyMagalu_inv; [constructor|apply parsed_amounts_pushes].
Qed.

(** ** The cents host covers what the parsers produce *)

Module DecimalFacts.
Import DecimalHost.

Lemma all_digits_Forall s : Forall (fun x => is_digit x = true) s -> all_digits s = true.
Proof. induction 1 as [|c s Hc _ IH]; simpl; [reflexivity|]. rewrite Hc, IH. reflexivity. Qed.

(** Every amount text parses to a number of cents, never to NaN. *)
Lemma amount_text_cents t :
  amount_text t -> exists n, parse_valor (H := host) t = Cents n.
Proof.
  intros (body & fraction & -> & _ & Hbody & Hlen & Hfrac).
  destruct (parse_valor_amount (H := host) body fraction Hbody Hfrac) as [-> Hdigits].
  change (parseFloat ?x) with (parse x).
  unfold parse.
  change (List.filter (fun c => negb (N.eqb 46 c)) body ++ js "." ++ fraction)
    with (List.filter (fun c => negb (N.eqb 46 c)) body ++ 46%N :: fraction).
  rewrite split_on_app.
  2:{ eapply Forall_impl; [exact Hdigits|]. intros c Hc. apply digit_not_period. exact Hc. }
  rewrite split_on_none.
  2:{ eapply Forall_impl; [exact Hfrac|]. intros c Hc. apply digit_not_period. exact Hc. }
  rewrite (all_digits_Forall _ Hdigits), (all_digits_Forall _ Hfrac).
  rewrite bool_decide_eq_true_2 by exact Hlen. simpl. eauto.
Qed.

Lemma parsed_amounts_cents (c : Columns) :
  parsed_amounts c -> Forall (fun v => exists n, num v = Cents n) (valores c).
Proof.
  unfold parsed_amounts. intros Hc. eapply Forall_impl; [exact Hc|].
  intros v [Ht ->]. apply amount_text_cents. exact Ht.
Qed.

(** On every table text the three parsers only collect amounts, in cents. *)
Lemma parsers_collect_cents tableText :
  (exists c, classifyShopee tableText = Ok c
             /\ Forall (fun v => exists n, num v = Cents n) (valores c))
  /\ (exists c, classifyMercadoLivre tableText = Ok c
                /\ Forall (fun v => exists n, num v = Cents n) (valores c))
  /\ (exists c, classifyMagalu tableText = Ok c
                /\ Forall (fun v => exists n, num v = Cents n) (valores c)).
Proof.
  split; [|split].
  - destruct (classifyShopee_inv parsed_amounts tableText) as (c & Hc & Hp);
      [constructor|apply parsed_amounts_pushes|].
    exists c. split; [exact Hc|apply parsed_amounts_cents; exact Hp].
  - destruct (classifyMercadoLivre_inv parsed_amounts tableText) as (c & Hc & Hp);
      [constructor|apply parsed_amounts_pushes|].
    exists c. split; [exact Hc|apply parsed_amounts_cents; exact Hp].
  - destruct (classifyMagalu_inv parsed_amounts tableText) as (c & Hc & Hp);
      [constructor|apply parsed_amounts_pushes|].
    exists c. split; [exact Hc|apply parsed_amounts_cents; exact Hp].
Qed.

End DecimalFacts.

(** ** Matcher: file name first, amount-only fallback, empty identifiers *)

Section CascadeFacts.
Context `{Host}.

Lemma valorFound_occurs pdfText row :
  valorFound (normalizePdf pdfText) row = true <-> Spec.amount_occurs pdfText row.
Proof.
  unfold valorFound, Spec.amount_occurs, Spec.without_spaces, normalizePdf.
  rewrite existsb_exists. split; intros (rendering & Hin & Hinc); exists rendering;
    (split; [exact Hin|]);
    [rewrite <- ReFacts.strip_spaces; apply includes_spec
    |rewrite ReFacts.strip_spaces; apply includes_spec];
    exact Hinc.
Qed.

Lemma valorFound_not_occurs pdfText row :
  valorFound (normalizePdf pdfText) row = false <-> ~ Spec.amount_occurs pdfText row.
Proof.
  rewrite <- valorFound_occurs. destruct (valorFound (normalizePdf pdfText) row);
    split; congruence.
Qed.

End CascadeFacts.

(** C1 (as amended).  Outside Magalu the file name is looked at before
    anything else: the digit groups are those that the global scan
    [fileName.match(/\d{7,9}/g)] extracts (runs of 7 to 9 digits, taken from
    left to right, greedily and without overlap); if one of them is the
    identifier of some record, findMatchingRow returns the first record whose
    identifier is the first such group, whatever the PDF text contains. *)
Theorem filename_match_wins `{Host} (pdfText : jsstring) (tableData : list TableRow)
    (fileName marketplace : jsstring) (groups before : list jsstring) (g : jsstring)
    (after : list jsstring) :
  marketplace <> js "Magalu" ->
  match_g Pat.digits_7_9 fileName = Some groups ->
  groups = before ++ g :: after ->
  (forall g', In g' before -> forall row, In row tableData -> nf row <> Some g') ->
  (exists row, In row tableData /\ nf row = Some g) ->
  run_of is_digit 7 (Some 9) g
  /\ part_of g fileName
  /\ exists rows_before row rows_after,
       tableData = rows_before ++ row :: rows_after
       /\ nf row = Some g
       /\ Forall (fun r => nf r <> Some g) rows_before
       /\ findMatchingRow pdfText tableData fileName marketplace = Some row.
Proof.
  intros Hm Hgroups -> Hbefore Hrow.
  destruct (ReFacts.match_g_rep is_digit 7 (Some 9) fileName _ g Hgroups) as [Hrun Hpart].
  { apply in_or_app. right. left. reflexivity. }
  split; [exact Hrun|]. split; [exact Hpart|].
  destruct (firstByFileNum_first tableData before g after Hbefore Hrow)
    as (rpre & row & rpost & Htable & Hnf & Hpre & Hfirst).
  exists rpre, row, rpost. split; [exact Htable|]. split; [exact Hnf|].
  split; [exact Hpre|].
  rewrite findMatchingRow_cascade by exact Hm.
  unfold matchByFileName. rewrite Hgroups, Hfirst. reflexivity.
Qed.

Lemma filename_match_wins_witness :
  findMatchingRow (H := DecimalHost.host)
    (js "NFS-e 1234567 total R$ 10,00")
    [DecimalHost.row (Some (js "1234567")) 1000 (js "10,00") (js "Frete") TipoAbsent;
     DecimalHost.row (Some (js "7654321")) 2000 (js "20,00") (js "Taxa") TipoAbsent]
    (js "NF 7654321.pdf") (js "Shopee")
  = Some (DecimalHost.row (Some (js "7654321")) 2000 (js "20,00") (js "Taxa") TipoAbsent).
Proof.
  destruct (filename_match_wins (H := DecimalHost.host)
              (js "NFS-e 1234567 total R$ 10,00")
              [DecimalHost.row (Some (js "1234567")) 1000 (js "10,00") (js "Frete") TipoAbsent;
               DecimalHost.row (Some (js "7654321")) 2000 (js "20,00") (js "Taxa") TipoAbsent]
              (js "NF 7654321.pdf") (js "Shopee")
              [js "7654321"] [] (js "7654321") [])
    as (_ & _ & rpre & row & rpost & Htable & Hnf & Hpre & Hfind).
  - discriminate.
  - reflexivity.
  - reflexivity.
  - intros g' [].
  - eexists. split; [right; left; reflexivity|reflexivity].
  - rewrite Hfind. f_equal.
    destruct rpre as [|r0 rpre].
    + injection Htable as <- _. discriminate Hnf.
    + injection Htable as <- Htable. destruct rpre as [|r1 rpre].
      * injection Htable as <- _. reflexivity.
      * injection Htable as _ Htable. destruct rpre; discriminate Htable.
Defined.

(** C1 as stated fails: the file name "12345678.pdf" contains the seven-digit
    substring "1234567", which is the identifier of the only record, yet the
    scan extracts the single group "12345678" and the record is not
    returned. *)
Lemma filename_substring_counterexample :
  let row := DecimalHost.row (Some (js "1234567")) 1000 (js "10,00") (js "Frete") TipoAbsent in
  let fileName := js "12345678.pdf" in
  run_of is_digit 7 (Some 9) (js "1234567")
  /\ part_of (js "1234567") fileName
  /\ nf row = Some (js "1234567")
  /\ match_g Pat.digits_7_9 fileName = Some [js "12345678"]
  /\ findMatchingRow (H := DecimalHost.host) (js "sem dados") [row] fileName (js "Shopee")
     = None.
Proof.
  cbv zeta. split; [|split; [|repeat split; vm_compute; reflexivity]].
  - unfold run_of. simpl. split; [lia|]. split; [lia|]. repeat constructor.
  - apply includes_spec. reflexivity.
Qed.

(** C7.  Outside Magalu, when the file-name strategy and the
    identifier-plus-amount strategy both fail, and the amount of some record
    occurs in the PDF text in one of the five renderings (white space
    removed; the text single-spaced and upper-cased), findMatchingRow returns
    the first such record, never null. *)
Theorem amount_only_fallback `{Host} (pdfText : jsstring) (tableData : list TableRow)
    (fileName marketplace : jsstring) :
  marketplace <> js "Magalu" ->
  matchByFileName fileName tableData = None ->
  matchByNumberAndValue (normalizePdf pdfText) tableData = None ->
  (exists row, In row tableData /\ Spec.amount_occurs pdfText row) ->
  exists rows_before row rows_after,
    tableData = rows_before ++ row :: rows_after
    /\ Forall (fun r => ~ Spec.amount_occurs pdfText r) rows_before
    /\ Spec.amount_occurs pdfText row
    /\ findMatchingRow pdfText tableData fileName marketplace = Some row.
Proof.
  intros Hm Hfile Hboth (row0 & Hin & Hocc).
  apply valorFound_occurs in Hocc.
  destruct (find_some_first _ tableData row0 Hin Hocc) as [row Hfind].
  destruct (find_split _ _ _ Hfind) as (pre & post & Htable & Hpre & Hrow).
  exists pre, row, post. split; [exact Htable|]. split.
  { eapply Forall_impl; [exact Hpre|]. intros r Hr. apply valorFound_not_occurs. exact Hr. }
  split; [apply valorFound_occurs; exact Hrow|].
  rewrite findMatchingRow_cascade by exact Hm.
  rewrite Hfile, Hboth. unfold matchByValue. rewrite Hfind. reflexivity.
Qed.

Lemma amount_only_fallback_witness :
  exists row,
    findMatchingRow (H := DecimalHost.host)
      (js "Valor   total: 1.234,56")
      [DecimalHost.row (Some (js "1234567")) 1000 (js "10,00") (js "Frete") TipoAbsent;
       DecimalHost.row (Some (js "7654321")) 123456 (js "1234,56") (js "Taxa") TipoAbsent]
      (js "documento.pdf") (js "Mercado Livre")
    = Some row
    /\ nf row = Some (js "7654321").
Proof.
  destruct (amount_only_fallback (H := DecimalHost.host)
              (js "Valor   total: 1.234,56")
              [DecimalHost.row (Some (js "1234567")) 1000 (js "10,00") (js "Frete") TipoAbsent;
               DecimalHost.row (Some (js "7654321")) 123456 (js "1234,56") (js "Taxa") TipoAbsent]
              (js "documento.pdf") (js "Mercado Livre"))
    as (pre & row & post & Htable & Hpre & Hocc & Hfind).
  - discriminate.
  - reflexivity.
  - reflexivity.
  - eexists. split; [right; left; reflexivity|].
    exists (js "1.234,56"). split; [right; right; left; reflexivity|].
    apply includes_spec. reflexivity.
  - exists row. split; [exact Hfind|].
    destruct pre as [|r0 pre].
    + injection Htable as <- _. exfalso.
      apply valorFound_occurs in Hocc. discriminate Hocc.
    + injection Htable as <- Htable. destruct pre as [|r1 pre].
      * injection Htable as <- _. reflexivity.
      * injection Htable as _ Htable. destruct pre; discriminate Htable.
Defined.

(** ** Records without a usable identifier *)

Section EmptyIdentifier.
Context `{Host}.
Import ZeroLines.

Lemma matchByFileName_truthy fileName tableData row :
  matchByFileName fileName tableData = Some row ->
  exists n, nf row = Some n /\ n <> [].
Proof.
  unfold matchByFileName.
  destruct (match_g Pat.digits_7_9 fileName) as [groups|] eqn:Hg; [|discriminate].
  intros (g & Hin & Hnf & _)%firstByFileNum_In.
  exists g. split; [exact Hnf|].
  destruct (ReFacts.match_g_rep is_digit 7 (Some 9) fileName groups g Hg Hin)
    as [(Hlen & _) _].
  intros ->. simpl in Hlen. lia.
Qed.

Lemma ml_line_zeros m more c :
  ml_line (zeros (S (S m)) :: more) 0 c = Ok (0, push_numero [] c).
Proof.
  unfold ml_line. cbn [at_ lookup list_lookup]. rewrite bind_Ok.
  rewrite ml_header_zeros, zero_padded_zeros, leading_zeros_zeros. reflexivity.
Qed.

(** The Mercado Livre loop on a table of two lines: zeros, then an amount. *)
Lemma classifyMercadoLivre_zeros m :
  classifyMercadoLivre (text_of [zeros (S (S m)); js "10,00"])
  = Ok {| descricoes := []; numeros := [ [] ];
          valores := [ {| text := js "10,00"; num := parse_valor (js "10,00") |} ] |}.
Proof.
  unfold classifyMercadoLivre, lines_of.
  change (text_of [zeros (S (S m)); js "10,00"]) with (zeros (S (S m)) ++ 10%N :: js "10,00").
  rewrite split_lines_zeros.
  change (split_lines (js "10,00")) with [js "10,00"].
  cbn [map]. rewrite trim_zeros.
  change (trim (js "10,00")) with (js "10,00").
  change (List.filter truthy [zeros (S (S m)); js "10,00"])
    with [zeros (S (S m)); js "10,00"].
  unfold for_upto. cbn [length].
  rewrite for_loop_step, ml_line_zeros, bind_Ok by lia. cbn [fst snd].
  rewrite for_loop_step by lia.
  replace (ml_line [zeros (S (S m)); js "10,00"] 1 (push_numero [] no_columns))
    with (Ok (1, push_valor {| text := js "10,00"; num := parse_valor (js "10,00") |}
                   (push_numero [] no_columns))) by reflexivity.
  rewrite bind_Ok. cbn [fst snd]. rewrite for_loop_done by lia. reflexivity.
Qed.

Lemma parseTableTextMercadoLivre_zeros m :
  parseTableTextMercadoLivre (text_of [zeros (S (S m)); js "10,00"])
  = Ok [ {| nf := Some []; valor := parse_valor (js "10,00");
            valorFormatado := js "10,00"; descricao := placeholder;
            tipo := TipoAbsent |} ].
Proof.
  unfold parseTableTextMercadoLivre. rewrite classifyMercadoLivre_zeros, bind_Ok.
  reflexivity.
Qed.

End EmptyIdentifier.

(** C9.  Outside Magalu a record whose identifier is null or the empty string
    is never returned by the identifier-plus-amount strategy nor by the
    identifier-only strategy (nor by the file-name strategy): when
    findMatchingRow returns such a record, the first two strategies found
    nothing and the amount-only strategy returned it.  The case is reachable
    through the parser: in a Mercado Livre table a line made only of zeros
    ('000', and any line of two or more zeros) followed by an amount becomes
    a record whose identifier is the empty string. *)
Theorem empty_identifier_only_by_amount `{Host} (pdfText : jsstring)
    (tableData : list TableRow) (fileName marketplace : jsstring) :
  marketplace <> js "Magalu" ->
  (forall row,
      nf row = None \/ nf row = Some [] ->
      matchByFileName fileName tableData <> Some row
      /\ matchByNumberAndValue (normalizePdf pdfText) tableData <> Some row
      /\ matchByNumber (normalizePdf pdfText) tableData <> Some row
      /\ (findMatchingRow pdfText tableData fileName marketplace = Some row ->
            matchByFileName fileName tableData = None
            /\ matchByNumberAndValue (normalizePdf pdfText) tableData = None
            /\ matchByValue (normalizePdf pdfText) tableData = Some row))
  /\ (forall m,
        parseTableTextMercadoLivre (text_of [zeros (S (S m)); js "10,00"])
        = Ok [ {| nf := Some []; valor := parse_valor (js "10,00");
                  valorFormatado := js "10,00"; descricao := placeholder;
                  tipo := TipoAbsent |} ])
  /\ parseTableText (text_of [js "000"; js "10,00"]) (js "Mercado Livre")
      = Ok [ {| nf := Some []; valor := parse_valor (js "10,00");
                valorFormatado := js "10,00"; descricao := placeholder;
                tipo := TipoAbsent |} ].
Proof.
  intros Hm. split; [|split].
  - intros row Hfalsy.
    assert (Hno : forall n, nf row = Some n -> n <> [] -> False).
    { intros n Hn Hne. destruct Hfalsy as [Hf|Hf]; rewrite Hf in Hn; congruence. }
    assert (H1 : matchByFileName fileName tableData <> Some row).
    { intros (n & Hn & Hne)%matchByFileName_truthy. eauto. }
    assert (H2 : matchByNumberAndValue (normalizePdf pdfText) tableData <> Some row).
    { intros (n & Hn & Hne)%matchByNumberAndValue_truthy. eauto. }
    assert (H4 : matchByNumber (normalizePdf pdfText) tableData <> Some row).
    { intros (n & Hn & Hne)%matchByNumber_truthy. eauto. }
    split; [exact H1|]. split; [exact H2|]. split; [exact H4|].
    rewrite findMatchingRow_cascade by exact Hm.
    destruct (matchByFileName fileName tableData) as [r1|] eqn:E1.
    { intros [= ->]. contradiction. }
    destruct (matchByNumberAndValue (normalizePdf pdfText) tableData) as [r2|] eqn:E2.
    { intros [= ->]. contradiction. }
    destruct (matchByValue (normalizePdf pdfText) tableData) as [r3|] eqn:E3.
    { intros [= ->]. auto. }
    intros Hr. contradiction.
  - intros m. apply parseTableTextMercadoLivre_zeros.
  - apply (parseTableTextMercadoLivre_zeros 1).
Qed.

Lemma empty_identifier_only_by_amount_witness :
  let parsed := DecimalHost.row (Some []) 1000 (js "10,00") (js "Serviço") TipoAbsent in
  parseTableText (H := DecimalHost.host) (text_of [js "000"; js "10,00"]) (js "Mercado Livre")
  = Ok [parsed]
  /\ findMatchingRow (js "Total da fatura R$ 10,00") [parsed] (js "fatura.pdf")
                     (js "Mercado Livre") = Some parsed
  /\ matchByValue (normalizePdf (js "Total da fatura R$ 10,00")) [parsed] = Some parsed.
Proof.
  cbv zeta.
  destruct (empty_identifier_only_by_amount (H := DecimalHost.host)
              (js "Total da fatura R$ 10,00")
              [DecimalHost.row (Some []) 1000 (js "10,00") (js "Serviço") TipoAbsent]
              (js "fatura.pdf") (js "Mercado Livre"))
    as (Hrow & _ & Hparse); [discriminate|].
  split; [exact Hparse|].
  destruct (Hrow (DecimalHost.row (Some []) 1000 (js "10,00") (js "Serviço") TipoAbsent))
    as (_ & _ & _ & Hvia); [right; reflexivity|].
  split; [reflexivity|]. apply Hvia. reflexivity.
Defined.

(** A single zero is not an identifier line: [/^0+\d+$/] needs two code
    units, and the line is dropped. *)
Lemma single_zero_not_identifier :
  parseTableText (H := DecimalHost.host) (text_of [js "0"; js "10,00"]) (js "Mercado Livre")
  = Ok []
  /\ classifyMercadoLivre (H := DecimalHost.host) (text_of [js "0"; js "10,00"])
     = Ok {| descricoes := []; numeros := [];
             valores := [DecimalHost.cell (js "10,00") 1000] |}.
Proof. split; vm_compute; reflexivity. Qed.


(** ** extractNFInfoFromPDF *)

Section ExtractFacts.
Context `{Host}.
Import ReFacts.

Lemma captured_match pattern pdfText m :
  captures pattern = true -> exec pattern pdfText = Some m ->
  exists t, group1 m = Some t /\ t <> [] /\ captured pattern pdfText = Some t.
Proof.
  intros Hc Hm. destruct (exec_captures _ _ _ Hc Hm) as (t & Ht & Hne).
  exists t. split; [exact Ht|]. split; [exact Hne|].
  unfold captured. rewrite Hm, Ht. destruct t; [contradiction|reflexivity].
Qed.

Lemma captured_no_match pattern pdfText :
  exec pattern pdfText = None -> captured pattern pdfText = None.
Proof. intros Hm. unfold captured. rewrite Hm. reflexivity. Qed.

Lemma first_captured_first pdfText before pattern after m :
  captures pattern = true ->
  Forall (fun q => exec q pdfText = None) before ->
  exec pattern pdfText = Some m ->
  exists t, group1 m = Some t /\ t <> []
            /\ first_captured (before ++ pattern :: after) pdfText = Some t.
Proof.
  intros Hc Hbefore Hm.
  destruct (captured_match _ _ _ Hc Hm) as (t & Ht & Hne & Hcap).
  exists t. split; [exact Ht|]. split; [exact Hne|].
  induction Hbefore as [|q before Hq _ IH]; simpl.
  - rewrite Hcap. reflexivity.
  - rewrite (captured_no_match _ _ Hq). exact IH.
Qed.

Lemma first_captured_none pdfText ps :
  Forall (fun q => exec q pdfText = None) ps -> first_captured ps pdfText = None.
Proof.
  induction 1 as [|q ps Hq _ IH]; simpl; [reflexivity|].
  rewrite (captured_no_match _ _ Hq). exact IH.
Qed.

Lemma patterns_capture : Forall (fun p => captures p = true) patterns.
Proof. repeat constructor. Qed.

(** Every pattern of the list captures a non-empty run of digits. *)
Lemma patterns_capture_digits pattern pdfText m :
  In pattern patterns -> exec pattern pdfText = Some m ->
  exists number, group1 m = Some number /\ run_of is_digit 1 None number.
Proof.
  intros Hin Hm. apply exec_sound in Hm as (_ & _ & _ & _ & Hacc).
  revert Hacc. generalize (whole m) (group1 m). intros t g Hacc.
  unfold patterns in Hin. simpl in Hin.
  destruct Hin as [<-|[<-|[<-|[<-|[<-|[]]]]]].
  - apply accepts_label_number in Hacc as (_ & _ & number & _ & _ & _ & _ & Hrun & ->). eauto.
  - apply accepts_label_number in Hacc as (_ & _ & number & _ & _ & _ & _ & Hrun & ->). eauto.
  - apply accepts_label_number in Hacc as (_ & _ & number & _ & _ & _ & _ & Hrun & ->). eauto.
  - unfold Pat.n_abbrev_da_nota in Hacc. cbn [seq] in Hacc.
    repeat match type of Hacc with
           | accepts (Seq _ (Seq _ _)) _ _ _ =>
             apply accepts_seq_inv in Hacc as (? & ? & ? & _ & _ & Hacc)
           end.
    apply accepts_seq_inv in Hacc as (? & number & ? & _ & _ & Hacc).
    apply accepts_grp_rep_inv in Hacc as (-> & Hrun). eauto.
  - apply accepts_label_number in Hacc as (_ & _ & number & _ & _ & _ & _ & Hrun & ->).
    exists number. split; [reflexivity|].
    destruct Hrun as (Hlen & _ & Hall). unfold run_of. simpl. auto with lia.
Qed.

(** The last pattern: the word 'Nota' in any case, white space or colons,
    then four or more digits, which are the capture. *)
Lemma nota_digits_match pdfText m :
  exec Pat.nota_digits pdfText = Some m ->
  exists before word sep number after,
    pdfText = before ++ (word ++ sep ++ number) ++ after
    /\ map canon word = js "NOTA"
    /\ Forall (fun x => Pat.ws_or_colon x = true) sep
    /\ 4 <= length number /\ Forall (fun x => is_digit x = true) number
    /\ group1 m = Some number.
Proof.
  intros (before & after & Hs & _ & Hacc)%exec_sound.
  apply accepts_label_number in Hacc as (word & sep & number & c1 & Hw & Hlabel & Hsep & Hrun & Hg).
  apply accepts_lit_i in Hlabel as (_ & Hword).
  destruct Hrun as (Hlen & _ & Hall).
  exists before, word, sep, number, after. rewrite <- Hw. auto 10.
Qed.

End ExtractFacts.

(** C6.  extractNFInfoFromPDF answers 'ND' exactly when the upper-cased PDF
    text contains 'NOTA DE DÉBITO' or 'NOTA DE DEBITO', and 'NFS' otherwise;
    the identifier is the number captured by the first pattern of the fixed
    list that matches, the last pattern of the list being 'Nota' followed by
    four or more digits; when no pattern matches the identifier is null and
    the document type is returned all the same. *)
Theorem extract_type_and_number `{Host} (pdfText : jsstring) :
  let info := extractNFInfoFromPDF pdfText in
  (info_tipo info = js "ND"
   <-> includes (toUpperCase pdfText) (js "NOTA DE DÉBITO") = true
       \/ includes (toUpperCase pdfText) (js "NOTA DE DEBITO") = true)
  /\ (info_tipo info = js "ND" \/ info_tipo info = js "NFS")
  /\ info = {| info_nf := info_nf info;
               info_tipo := if isNotaDebito pdfText then js "ND" else js "NFS" |}
  /\ patterns = [Pat.numero_da_nota; Pat.numero_nota_fiscal; Pat.n_ordinal_da_nota;
                 Pat.n_abbrev_da_nota]
                ++ [seq [lit_i (js "Nota"); star Pat.ws_or_colon; Grp (Rep is_digit 4 None)]]
  /\ (forall before pattern after m,
        patterns = before ++ pattern :: after ->
        Forall (fun q => exec q pdfText = None) before ->
        exec pattern pdfText = Some m ->
        exists number, group1 m = Some number /\ number <> []
                       /\ Forall (fun x => is_digit x = true) number
                       /\ info_nf info = Some number)
  /\ (forall m,
        exec (seq [lit_i (js "Nota"); star Pat.ws_or_colon; Grp (Rep is_digit 4 None)])
             pdfText = Some m ->
        exists before word sep number after,
          pdfText = before ++ (word ++ sep ++ number) ++ after
          /\ map canon word = js "NOTA"
          /\ Forall (fun x => Pat.ws_or_colon x = true) sep
          /\ 4 <= length number /\ Forall (fun x => is_digit x = true) number
          /\ group1 m = Some number)
  /\ (Forall (fun q => exec q pdfText = None) patterns -> info_nf info = None).
Proof.
  cbv zeta. unfold extractNFInfoFromPDF, tipo_of. cbn [info_tipo info_nf].
  split; [|split; [|split; [|split; [|split; [|split]]]]].
  - unfold isNotaDebito, nota_debito_acento, nota_debito_sem_acento.
    destruct (includes (toUpperCase pdfText) (js "NOTA DE DÉBITO"));
      destruct (includes (toUpperCase pdfText) (js "NOTA DE DEBITO")); simpl;
      split; intros; auto; try discriminate; destruct H0; discriminate.
  - destruct (isNotaDebito pdfText); auto.
  - reflexivity.
  - reflexivity.
  - intros before pattern after m Hps Hbefore Hm.
    assert (Hc : captures pattern = true).
    { pose proof patterns_capture as Hall. rewrite Hps in Hall.
      apply Forall_app in Hall as [_ Hall]. inversion Hall; assumption. }
    assert (Hin : In pattern patterns).
    { rewrite Hps. apply in_or_app. right. left. reflexivity. }
    destruct (patterns_capture_digits pattern pdfText m Hin Hm) as (digits & Hd & _ & _ & Hall).
    rewrite Hps.
    destruct (first_captured_first pdfText before pattern after m Hc Hbefore Hm)
      as (number & Hg & Hne & Hfirst).
    exists number. split; [exact Hg|]. split; [exact Hne|]. split; [|exact Hfirst].
    congruence.
  - apply nota_digits_match.
  - apply first_captured_none.
Qed.

Lemma extract_type_and_number_witness :
  extractNFInfoFromPDF (H := DecimalHost.host)
    (js "Nota de Débito - Número da Nota: 004521 Nota 99999")
  = {| info_nf := Some (js "004521"); info_tipo := js "ND" |}
  /\ extractNFInfoFromPDF (H := DecimalHost.host) (js "Fatura sem identificador")
     = {| info_nf := None; info_tipo := js "NFS" |}.
Proof.
  destruct (extract_type_and_number (H := DecimalHost.host)
              (js "Nota de Débito - Número da Nota: 004521 Nota 99999"))
    as (Htipo & _ & Hinfo & _ & Hfirst & _ & _).
  destruct (extract_type_and_number (H := DecimalHost.host) (js "Fatura sem identificador"))
    as (_ & _ & Hinfo' & _ & _ & _ & Hnone).
  split.
  - rewrite Hinfo.
    destruct (Hfirst [] Pat.numero_da_nota
                [Pat.numero_nota_fiscal; Pat.n_ordinal_da_nota; Pat.n_abbrev_da_nota;
                 Pat.nota_digits]
                {| index := 17; whole := js "Número da Nota: 004521";
                   group1 := Some (js "004521") |})
      as (number & Hg & _ & _ & ->); [reflexivity|constructor|reflexivity|].
    injection Hg as <-. reflexivity.
  - rewrite Hinfo', Hnone; [reflexivity|]. repeat constructor.
Defined.

(** ** The Magalu matcher *)

Section MagaluFacts.
Context `{Host}.

Lemma normalizeMagalu_strip x :
  normalizeMagalu x = toUpperCase (Spec.without_spaces x).
Proof. unfold normalizeMagalu. rewrite ReFacts.strip_spaces. reflexivity. Qed.

(** The space after the currency prefix disappears in the normalization. *)
Lemma normalizeMagalu_prefix x :
  normalizeMagalu (js "R$ " ++ x) = normalizeMagalu (js "R$" ++ x).
Proof. rewrite !normalizeMagalu_strip. reflexivity. Qed.

Lemma findMagaluFrom_find pdfText npdf tableData :
  findMagaluFrom pdfText npdf tableData
  = match List.find (valorFoundMagalu npdf) tableData with
    | Some row => Some (updatedRow row (extractNFInfoFromPDF pdfText))
    | None => None
    end.
Proof.
  induction tableData as [|row rest IH]; simpl; [reflexivity|].
  destruct (valorFoundMagalu npdf row); [reflexivity|exact IH].
Qed.

(** What [parseInt] prints for a two-digit fraction: the leading zero goes. *)
Lemma parseInt_two_digits d1 d2 :
  is_digit d1 = true -> is_digit d2 = true ->
  parseInt_text (Some [d1; d2]) = if (d1 =? 48)%N then [d2] else [d1; d2].
Proof.
  intros H1%digit_cases H2%digit_cases.
  repeat match goal with H : _ \/ _ |- _ => destruct H as [->|H] end; subst;
    reflexivity.
Qed.

End MagaluFacts.

(** C5 (as amended).  For each record the Magalu matcher tests thirteen
    texts: the amount printed by toFixed(2), split at the period into integer
    part and two-digit fraction, rendered with 'R$', with 'R$ ' or without
    prefix, with a comma or a period, and with the fraction either as its two
    digits or as the integer that parseInt reads from them (leading zero
    dropped: 05 gives 5, 50 stays 50, 00 gives 0); then the display string.
    The PDF text and every candidate are normalized by removing all white
    space and upper-casing, which leaves the eight combinations and the
    display string; the matcher returns the copy (identifier and type filled
    in) of the first record, in table order, one of whose candidates is a
    part of the normalized PDF text, and null when there is none. *)
Theorem magalu_amount_candidates `{Host} (pdfText : jsstring) (tableData : list TableRow) :
  let npdf := normalizeMagalu pdfText in
  (forall row,
      let parts := split_on 46 (toFixed2 (valor row)) in
      let inteiro := template_text (parts !! 0) in
      let decimal := template_text (parts !! 1) in
      let fraction := parseInt_text (parts !! 1) in
      valorFormatsMagalu row
      = [ js "R$" ++ inteiro ++ js "," ++ decimal;  js "R$ " ++ inteiro ++ js "," ++ decimal;
          js "R$" ++ inteiro ++ js "," ++ fraction; js "R$ " ++ inteiro ++ js "," ++ fraction;
          js "R$" ++ inteiro ++ js "." ++ decimal;  js "R$ " ++ inteiro ++ js "." ++ decimal;
          js "R$" ++ inteiro ++ js "." ++ fraction; js "R$ " ++ inteiro ++ js "." ++ fraction;
          inteiro ++ js "," ++ decimal; inteiro ++ js "," ++ fraction;
          inteiro ++ js "." ++ decimal; inteiro ++ js "." ++ fraction;
          valorFormatado row ]
      /\ valorFoundMagalu npdf row
         = existsb (fun c => includes npdf (normalizeMagalu c))
                   (Spec.eight_combinations inteiro decimal fraction ++ [valorFormatado row]))
  /\ (forall row inteiro d1 d2,
        toFixed2 (valor row) = inteiro ++ js "." ++ [d1; d2] ->
        Forall (fun c => c <> 46%N) inteiro ->
        is_digit d1 = true -> is_digit d2 = true ->
        valorFoundMagalu npdf row
        = existsb (fun c => includes npdf (normalizeMagalu c))
                  (Spec.eight_combinations inteiro [d1; d2]
                     (if (d1 =? 48)%N then [d2] else [d1; d2])
                   ++ [valorFormatado row]))
  /\ (forall x, normalizeMagalu x = toUpperCase (Spec.without_spaces x))
  /\ (forall before row after,
        tableData = before ++ row :: after ->
        Forall (fun r => valorFoundMagalu npdf r = false) before ->
        valorFoundMagalu npdf row = true ->
        findMatchingRowMagalu pdfText tableData
        = Some {| nf := Some (nf_or_placeholder (info_nf (extractNFInfoFromPDF pdfText)));
                  valor := valor row;
                  valorFormatado := valorFormatado row;
                  descricao := descricao row;
                  tipo := TipoText (info_tipo (extractNFInfoFromPDF pdfText)) |})
  /\ (Forall (fun r => valorFoundMagalu npdf r = false) tableData ->
      findMatchingRowMagalu pdfText tableData = None)
  /\ (forall fileName,
        findMatchingRow pdfText tableData fileName (js "Magalu")
        = findMatchingRowMagalu pdfText tableData).
Proof.
  cbv zeta.
  assert (Hgen : forall row,
             valorFoundMagalu (normalizeMagalu pdfText) row
             = existsb (fun c => includes (normalizeMagalu pdfText) (normalizeMagalu c))
                 (Spec.eight_combinations
                    (template_text (split_on 46 (toFixed2 (valor row)) !! 0))
                    (template_text (split_on 46 (toFixed2 (valor row)) !! 1))
                    (parseInt_text (split_on 46 (toFixed2 (valor row)) !! 1))
                  ++ [valorFormatado row])).
  { intros row. unfold valorFoundMagalu, valorFormatsMagalu, Spec.eight_combinations.
    cbv zeta. cbn [existsb app]. rewrite !normalizeMagalu_prefix.
    repeat match goal with
           | |- context [includes ?a ?b] =>
             let v := fresh "b" in generalize (includes a b); intros v
           end.
    repeat match goal with b : bool |- _ => destruct b end; reflexivity. }
  split; [|split; [|split; [|split; [|split]]]].
  - intros row. split; [reflexivity|apply Hgen].
  - intros row inteiro d1 d2 Hfixed Hint Hd1 Hd2. rewrite Hgen, Hfixed.
    change (inteiro ++ js "." ++ [d1; d2]) with (inteiro ++ 46%N :: [d1; d2]).
    rewrite split_on_app by exact Hint.
    assert (Hfrac : split_on 46 [d1; d2] = [[d1; d2]]).
    { simpl. apply digit_cases in Hd1, Hd2.
      repeat match goal with H : _ \/ _ |- _ => destruct H as [->|H] end; subst;
        reflexivity. }
    rewrite Hfrac. cbn [lookup list_lookup template_text default].
    rewrite parseInt_two_digits by assumption. reflexivity.
  - apply normalizeMagalu_strip.
  - intros before row after -> Hbefore Hrow.
    unfold findMatchingRowMagalu. rewrite findMagaluFrom_find.
    induction Hbefore as [|r before Hr _ IH]; simpl.
    + rewrite Hrow. reflexivity.
    + rewrite Hr. exact IH.
  - intros Hall. unfold findMatchingRowMagalu. rewrite findMagaluFrom_find.
    induction Hall as [|r rest Hr _ IH]; simpl; [reflexivity|].
    rewrite Hr. exact IH.
  - intros fileName. reflexivity.
Qed.

Lemma magalu_amount_candidates_witness :
  findMatchingRowMagalu (H := DecimalHost.host)
    (js "Nota de Débito  Nº da Nota: 8841   valor r$ 150,0")
    [DecimalHost.row None 1205 (js "12,05") (js "Frete") TipoNull;
     DecimalHost.row None 15000 (js "150,00") (js "Taxa") TipoNull]
  = Some (DecimalHost.row (Some (js "8841")) 15000 (js "150,00") (js "Taxa")
            (TipoText (js "ND"))).
Proof.
  destruct (magalu_amount_candidates (H := DecimalHost.host)
              (js "Nota de Débito  Nº da Nota: 8841   valor r$ 150,0")
              [DecimalHost.row None 1205 (js "12,05") (js "Frete") TipoNull;
               DecimalHost.row None 15000 (js "150,00") (js "Taxa") TipoNull])
    as (_ & _ & _ & Hfirst & _).
  rewrite (Hfirst [DecimalHost.row None 1205 (js "12,05") (js "Frete") TipoNull]
             (DecimalHost.row None 15000 (js "150,00") (js "Taxa") TipoNull) []).
  - reflexivity.
  - reflexivity.
  - repeat constructor.
  - reflexivity.
Defined.

(** C5 as stated fails: for the amount 12.50 no candidate has a single
    fraction digit (parseInt of "50" prints 50), so a PDF text that shows the
    amount as "R$ 12,5" is not matched. *)
Lemma magalu_single_digit_counterexample :
  let row := DecimalHost.row None 1250 (js "12,50") (js "Frete") TipoNull in
  valorFormatsMagalu row
  = [ js "R$12,50"; js "R$ 12,50"; js "R$12,50"; js "R$ 12,50";
      js "R$12.50"; js "R$ 12.50"; js "R$12.50"; js "R$ 12.50";
      js "12,50"; js "12,50"; js "12.50"; js "12.50"; js "12,50" ]
  /\ Forall (fun c => Spec.single_fraction_digit c = false) (valorFormatsMagalu row)
  /\ Spec.single_fraction_digit (js "R$12,5") = true
  /\ includes (normalizeMagalu (js "Total R$ 12,5")) (normalizeMagalu (js "R$12,5")) = true
  /\ findMatchingRowMagalu (js "Total R$ 12,5") [row] = None.
Proof.
  cbv zeta. split; [reflexivity|]. split; [repeat constructor|].
  repeat split; vm_compute; reflexivity.
Qed.


(** ** The matchers over a store of row objects *)

Section HeapFacts.
Context `{Host}.

Implicit Types (h : gmap positive TableRow) (tableData : list positive).

Lemma alloc_fresh h row :
  h !! snd (Heap.alloc h row) = None
  /\ fst (Heap.alloc h row) = <[snd (Heap.alloc h row) := row]> h.
Proof.
  unfold Heap.alloc. simpl. split; [|reflexivity].
  apply not_elem_of_dom. apply is_fresh.
Qed.

Lemma live_lookup h tableData rows l :
  Forall2 (fun l row => h !! l = Some row) tableData rows ->
  In l tableData -> exists row, h !! l = Some row /\ In row rows.
Proof.
  induction 1 as [|l0 row0 ? ? Hl0 _ IH]; [contradiction|].
  intros [->|Hin].
  - exists row0. split; [exact Hl0|left; reflexivity].
  - destruct (IH Hin) as (row & Hrow & Hin'). exists row. split; [exact Hrow|right; exact Hin'].
Qed.

(** On a table whose references are all live, the search over references
    returns normally and agrees with the search over the rows themselves. *)
Lemma find_ref_rows h p tableData rows :
  Forall2 (fun l row => h !! l = Some row) tableData rows ->
  exists r, Heap.find_ref h p tableData = Ok r
            /\ (r ≫= (h !!.)) = List.find p rows
            /\ (forall l, r = Some l -> In l tableData).
Proof.
  induction 1 as [|l row tableData rows Hl _ IH]; simpl.
  - exists None. split; [reflexivity|]. split; [reflexivity|]. discriminate.
  - unfold Heap.deref. rewrite Hl, bind_Ok. destruct (p row).
    + exists (Some l). simpl. split; [reflexivity|]. split; [exact Hl|].
      intros ? [= <-]. left. reflexivity.
    + destruct IH as (r & -> & Hr & Hin). exists r. split; [reflexivity|].
      split; [exact Hr|]. intros l' Hl'. right. apply Hin. exact Hl'.
Qed.

Lemma firstByFileNum_rows h nums tableData rows :
  Forall2 (fun l row => h !! l = Some row) tableData rows ->
  exists r, Heap.firstByFileNum h nums tableData = Ok r
            /\ (r ≫= (h !!.)) = firstByFileNum nums rows
            /\ (forall l, r = Some l -> In l tableData).
Proof.
  intros Hrows. induction nums as [|g nums IH]; simpl.
  - exists None. split; [reflexivity|]. split; [reflexivity|]. discriminate.
  - destruct (find_ref_rows h (nf_is g) tableData rows Hrows) as (r & -> & Hr & Hin).
    rewrite bind_Ok. rewrite <- Hr. destruct r as [l|].
    + exists (Some l). split; [reflexivity|]. split; [|exact Hin].
      destruct (live_lookup h tableData rows l Hrows (Hin l eq_refl)) as (row & Hl & _).
      simpl. rewrite Hl. reflexivity.
    + exact IH.
Qed.

Lemma live_rows h tableData :
  Forall (fun l => is_Some (h !! l)) tableData ->
  exists rows, Forall2 (fun l row => h !! l = Some row) tableData rows.
Proof.
  induction 1 as [|l tableData [row Hl] _ (rows & IH)].
  - exists []. constructor.
  - exists (row :: rows). constructor; assumption.
Qed.

End HeapFacts.

(** C8.  findMatchingRow never changes a record of the table: after the call
    every object of the store, hence every record of the input sequence, is
    what it was before.  Outside Magalu nothing is allocated and the result
    is one of the table's own records; in Magalu the result is a new object,
    the copy of the matched record with identifier and document type filled
    in, so that calls with different PDF texts can each return a copy of the
    same record.  The result agrees with the matcher over plain rows. *)
Theorem matcher_does_not_mutate `{Host} (h : gmap positive TableRow) (pdfText : jsstring)
    (tableData : list positive) (fileName marketplace : jsstring) :
  Forall (fun l => is_Some (h !! l)) tableData ->
  exists h' result,
    Heap.findMatchingRow h pdfText tableData fileName marketplace = Ok (h', result)
    /\ (forall l row, h !! l = Some row -> h' !! l = Some row)
    /\ Forall (fun l => h' !! l = h !! l) tableData
    /\ (marketplace <> js "Magalu" ->
        h' = h /\ forall l, result = Some l -> In l tableData)
    /\ (marketplace = js "Magalu" ->
        forall l', result = Some l' ->
          h !! l' = None
          /\ exists l row,
               In l tableData /\ h !! l = Some row
               /\ h' = <[l' := updatedRow row (extractNFInfoFromPDF pdfText)]> h)
    /\ (forall rows,
          Forall2 (fun l row => h !! l = Some row) tableData rows ->
          (result ≫= (h' !!.)) = findMatchingRow pdfText rows fileName marketplace).
Proof.
  intros Hlive. destruct (live_rows h tableData Hlive) as (rows0 & Hrows0).
  assert (Hsame : forall rows, Forall2 (fun l row => h !! l = Some row) tableData rows ->
                               rows = rows0).
  { intros rows Hrows. clear Hlive. revert rows Hrows.
    induction Hrows0 as [|l row ? ? Hl _ IH]; intros rows Hrows; inversion Hrows; subst;
      [reflexivity|]. f_equal; [congruence|auto]. }
  assert (Hkeep : forall h' : gmap positive TableRow,
             (forall l row, h !! l = Some row -> h' !! l = Some row) ->
                             Forall (fun l => h' !! l = h !! l) tableData).
  { intros h' Hh'. eapply Forall_impl; [exact Hlive|].
    intros l [row Hl]. simpl. rewrite Hl. apply Hh'. exact Hl. }
  assert (Hmagalu : forall rows,
             findMatchingRow pdfText rows fileName (js "Magalu")
             = match List.find (valorFoundMagalu (normalizeMagalu pdfText)) rows with
               | Some row => Some (updatedRow row (extractNFInfoFromPDF pdfText))
               | None => None
               end).
  { intros rows. unfold findMatchingRow.
    replace (Str.eqb (js "Magalu") (js "Magalu")) with true by reflexivity.
    apply findMagaluFrom_find. }
  unfold Heap.findMatchingRow.
  destruct (decide (marketplace = js "Magalu")) as [->|Hm].
  - replace (Str.eqb (js "Magalu") (js "Magalu")) with true by reflexivity.
    unfold Heap.findMatchingRowMagalu.
    destruct (find_ref_rows h (valorFoundMagalu (normalizeMagalu pdfText)) tableData rows0 Hrows0)
      as (r & -> & Hr & Hin).
    rewrite bind_Ok. destruct r as [l|].
    + destruct (live_lookup h tableData rows0 l Hrows0 (Hin l eq_refl)) as (row & Hl & _).
      unfold Heap.deref. rewrite Hl, bind_Ok.
      destruct (alloc_fresh h (updatedRow row (extractNFInfoFromPDF pdfText)))
        as [Hfresh Halloc].
      destruct (Heap.alloc h (updatedRow row (extractNFInfoFromPDF pdfText)))
        as [h' l'] eqn:Ealloc.
      simpl in Hfresh, Halloc.
      assert (Hold : forall l0 row0, h !! l0 = Some row0 -> h' !! l0 = Some row0).
      { intros l0 row0 Hl0. rewrite Halloc, lookup_insert_ne; [exact Hl0|].
        intros <-. congruence. }
      exists h', (Some l'). split; [reflexivity|]. split; [exact Hold|].
      split; [apply Hkeep; exact Hold|]. split; [intros Hne; contradiction|]. split.
      * intros _ ? [= <-]. split; [exact Hfresh|]. exists l, row.
        split; [apply Hin; reflexivity|]. split; [exact Hl|exact Halloc].
      * intros rows Hrows. rewrite (Hsame rows Hrows), Hmagalu.
        simpl in Hr. rewrite Hl in Hr. rewrite <- Hr. simpl.
        rewrite Halloc. apply lookup_insert_eq.
    + exists h, None. split; [reflexivity|]. split; [auto|].
      split; [apply Hkeep; auto|]. split; [intros Hne; contradiction|].
      split; [intros _ ?; discriminate|].
      intros rows Hrows. rewrite (Hsame rows Hrows), Hmagalu.
      simpl in Hr. rewrite <- Hr. reflexivity.
  - rewrite (str_eqb_neq _ _ Hm). cbv zeta.
    assert (Hdone : forall (r : option positive) (pure : option TableRow),
               (r ≫= (h !!.)) = pure ->
               (forall l, r = Some l -> In l tableData) ->
               (forall rows, Forall2 (fun l row => h !! l = Some row) tableData rows ->
                             pure = findMatchingRow pdfText rows fileName marketplace) ->
               exists h' result,
                 Ok (h, r) = Ok (h', result)
                 /\ (forall l row, h !! l = Some row -> h' !! l = Some row)
                 /\ Forall (fun l => h' !! l = h !! l) tableData
                 /\ (marketplace <> js "Magalu" ->
                     h' = h /\ forall l, result = Some l -> In l tableData)
                 /\ (marketplace = js "Magalu" ->
                     forall l', result = Some l' ->
                       h !! l' = None
                       /\ exists l row,
                            In l tableData /\ h !! l = Some row
                            /\ h' = <[l' := updatedRow row (extractNFInfoFromPDF pdfText)]> h)
                 /\ (forall rows,
                       Forall2 (fun l row => h !! l = Some row) tableData rows ->
                       (result ≫= (h' !!.))
                       = findMatchingRow pdfText rows fileName marketplace)).
    { intros r pure Hr Hin Hpure. exists h, r. split; [reflexivity|]. split; [auto|].
      split; [apply Hkeep; auto|]. split; [auto|]. split; [intros; contradiction|].
      intros rows Hrows. rewrite Hr. apply Hpure. exact Hrows. }
    assert (Hpure : forall rows, Forall2 (fun l row => h !! l = Some row) tableData rows ->
               findMatchingRow pdfText rows fileName marketplace
               = match matchByFileName fileName rows0 with
                 | Some row => Some row
                 | None =>
                   match matchByNumberAndValue (normalizePdf pdfText) rows0 with
                   | Some row => Some row
                   | None =>
                     match matchByValue (normalizePdf pdfText) rows0 with
                     | Some row => Some row
                     | None => matchByNumber (normalizePdf pdfText) rows0
                     end
                   end
                 end).
    { intros rows Hrows. rewrite (Hsame rows Hrows).
      apply findMatchingRow_cascade. exact Hm. }
    assert (H1 : exists r1, Heap.matchByFileName h fileName tableData = Ok r1
                            /\ (r1 ≫= (h !!.)) = matchByFileName fileName rows0
                            /\ (forall l, r1 = Some l -> In l tableData)).
    { unfold Heap.matchByFileName, matchByFileName.
      destruct (match_g Pat.digits_7_9 fileName) as [nums|].
      - apply firstByFileNum_rows. exact Hrows0.
      - exists None. split; [reflexivity|]. split; [reflexivity|]. discriminate. }
    destruct H1 as (r1 & -> & Hr1 & Hin1). rewrite bind_Ok.
    destruct r1 as [l1|].
    { apply (Hdone (Some l1) (matchByFileName fileName rows0) Hr1 Hin1).
      intros rows Hrows. rewrite (Hpure rows Hrows).
      destruct (live_lookup h tableData rows0 l1 Hrows0 (Hin1 l1 eq_refl)) as (row1 & Hl1 & _).
      change (Some l1 ≫= (h !!.)) with (h !! l1) in Hr1. rewrite Hl1 in Hr1.
      rewrite <- Hr1. reflexivity. }
    change (None ≫= (h !!.)) with (@None TableRow) in Hr1.
    destruct (find_ref_rows h (fun row => nfFound (normalizePdf pdfText) row
                                          && valorFound (normalizePdf pdfText) row)
                tableData rows0 Hrows0) as (r2 & -> & Hr2 & Hin2).
    rewrite bind_Ok. destruct r2 as [l2|].
    { apply (Hdone (Some l2) _ Hr2 Hin2).
      intros rows Hrows. rewrite (Hpure rows Hrows), <- Hr1.
      destruct (live_lookup h tableData rows0 l2 Hrows0 (Hin2 l2 eq_refl)) as (row2 & Hl2 & _).
      change (Some l2 ≫= (h !!.)) with (h !! l2) in Hr2. rewrite Hl2 in Hr2.
      unfold matchByNumberAndValue. rewrite <- Hr2. reflexivity. }
    change (None ≫= (h !!.)) with (@None TableRow) in Hr2.
    destruct (find_ref_rows h (valorFound (normalizePdf pdfText)) tableData rows0 Hrows0)
      as (r3 & -> & Hr3 & Hin3).
    rewrite bind_Ok. destruct r3 as [l3|].
    { apply (Hdone (Some l3) _ Hr3 Hin3).
      intros rows Hrows. rewrite (Hpure rows Hrows), <- Hr1.
      destruct (live_lookup h tableData rows0 l3 Hrows0 (Hin3 l3 eq_refl)) as (row3 & Hl3 & _).
      change (Some l3 ≫= (h !!.)) with (h !! l3) in Hr3. rewrite Hl3 in Hr3.
      unfold matchByNumberAndValue, matchByValue. rewrite <- Hr2, <- Hr3. reflexivity. }
    change (None ≫= (h !!.)) with (@None TableRow) in Hr3.
    destruct (find_ref_rows h (nfFound (normalizePdf pdfText)) tableData rows0 Hrows0)
      as (r4 & -> & Hr4 & Hin4).
    rewrite bind_Ok.
    apply (Hdone r4 _ Hr4 Hin4).
    intros rows Hrows. rewrite (Hpure rows Hrows), <- Hr1.
    unfold matchByNumberAndValue, matchByValue, matchByNumber.
    rewrite <- Hr2, <- Hr3. reflexivity.
Qed.

Lemma matcher_does_not_mutate_witness :
  exists h' result,
    Heap.findMatchingRow DecimalHost.store0 (js "Nota 12345 valor R$ 150,00")
      [1%positive; 2%positive] (js "a.pdf") (js "Magalu") = Ok (h', result)
    /\ h' !! 1%positive = Some DecimalHost.frete
    /\ h' !! 2%positive = Some DecimalHost.taxa.
Proof.
  destruct (matcher_does_not_mutate (H := DecimalHost.host) DecimalHost.store0
              (js "Nota 12345 valor R$ 150,00") [1%positive; 2%positive]
              (js "a.pdf") (js "Magalu"))
    as (h' & result & Hcall & Hkeep & _).
  - repeat constructor; eexists; reflexivity.
  - exists h', result. split; [exact Hcall|]. split; apply Hkeep; reflexivity.
Defined.

(** Two PDF texts matched one after the other against the same table: each
    call returns a new object, a copy of the same record, and the table's two
    records are untouched. *)
Example magalu_repeated_calls :
  exists h1 h2,
    Heap.findMatchingRow DecimalHost.store0 (js "Nota 12345 valor R$ 150,00")
      [1%positive; 2%positive] (js "a.pdf") (js "Magalu") = Ok (h1, Some 3%positive)
    /\ Heap.findMatchingRow h1 (js "Nota de debito 777777 total 150.00")
         [1%positive; 2%positive] (js "b.pdf") (js "Magalu") = Ok (h2, Some 4%positive)
    /\ h2 !! 1%positive = Some DecimalHost.frete
    /\ h2 !! 2%positive = Some DecimalHost.taxa
    /\ h2 !! 3%positive
       = Some (DecimalHost.row (Some (js "12345")) 15000 (js "150,00") (js "Taxa")
                 (TipoText (js "NFS")))
    /\ h2 !! 4%positive
       = Some (DecimalHost.row (Some (js "XXXX")) 15000 (js "150,00") (js "Taxa")
                 (TipoText (js "ND"))).
Proof.
  eexists _, _. split; [vm_compute; reflexivity|].
  split; [vm_compute; reflexivity|]. repeat split; vm_compute; reflexivity.
Qed.
(** ** What the parsers collect

    Anchored patterns, the greedy quantifier, and what each classification
    round pushes. *)

Module RoundFacts.
Import ReFacts ZeroLines.

Lemma drop_nil_take {A} n (s : list A) : drop n s = [] -> take n s = s.
Proof.
  intros E. rewrite <- (take_drop n s) at 2. rewrite E, app_nil_r. reflexivity.
Qed.

Lemma digits_7_9_line_inv line :
  test Pat.digits_7_9_line line = true -> run_of is_digit 7 (Some 9) line.
Proof.
  unfold test, Pat.digits_7_9_line. cbn [seq]. rewrite exec_bol.
  destruct (at_pos _ 0 line) as [m|] eqn:E; [intros _|discriminate].
  unfold at_pos in E. cbn [run Nat.eqb] in E.
  apply rep_inv in E as (n & Hk & Hn & Hall & Hhi).
  destruct (drop n line) eqn:Ed; [|discriminate].
  apply drop_nil_take in Ed as Et. rewrite Et in Hall.
  assert (length line = n) as <-.
  { rewrite <- Et at 1. rewrite length_take. lia. }
  split; [lia|]. split; assumption.
Qed.

(** The greedy quantifier in front of a continuation that always succeeds
    takes the longest run. *)
Lemma rep_greedy {A} p (k : kont A) cap :
  (forall pos s, k pos s cap <> None) ->
  forall s lo pos,
  lo <= length (prefix_of p s) ->
  rep p lo None pos s cap k
  = k (pos + length (prefix_of p s)) (drop (length (prefix_of p s)) s) cap.
Proof.
  intros Hk. induction s as [|c s IH]; intros lo pos Hlo.
  - cbn in *. destruct lo; [|lia]. rewrite Nat.add_0_r. reflexivity.
  - cbn [prefix_of] in *. cbn [rep fmap option_fmap option_map].
    destruct (p c) eqn:Ec.
    + cbn [length drop] in *. rewrite IH by lia.
      replace (S pos + length (prefix_of p s)) with (pos + S (length (prefix_of p s))) by lia.
      destruct (k _ _ cap) eqn:Ek; [reflexivity|]. exfalso. eapply Hk, Ek.
    + cbn in *. destruct lo; [|lia]. rewrite Nat.add_0_r. reflexivity.
Qed.

Lemma prefix_of_split p s : s = prefix_of p s ++ drop (length (prefix_of p s)) s.
Proof.
  induction s as [|c s IH]; [reflexivity|]. cbn. destruct (p c); cbn; [f_equal; exact IH|reflexivity].
Qed.

Lemma prefix_of_stop p s :
  match drop (length (prefix_of p s)) s with c :: _ => p c = false | [] => True end.
Proof.
  induction s as [|c s IH]; [exact I|]. cbn. destruct (p c) eqn:E; cbn; [exact IH|exact E].
Qed.

Lemma leading_zeros_strip line :
  prefix_of (N.eqb 48) line <> [] ->
  replace Pat.leading_zeros [] line = drop (length (prefix_of (N.eqb 48) line)) line.
Proof.
  intros Hne. unfold replace, Pat.leading_zeros. cbn [seq]. rewrite exec_bol.
  unfold at_pos, plus. cbn [run Nat.eqb].
  rewrite rep_greedy; [|discriminate|].
  - cbn [index whole]. rewrite Nat.sub_0_r, Nat.add_0_l. cbn [take app].
    rewrite length_take.
    pose proof (prefix_of_split (N.eqb 48) line) as Hs.
    apply (f_equal length) in Hs. rewrite length_app in Hs.
    rewrite take_0, Nat.min_l by lia. reflexivity.
  - destruct (prefix_of (N.eqb 48) line); [congruence|cbn; lia].
Qed.

Lemma zero_padded_inv line :
  test Pat.zero_padded line = true ->
  Forall (fun x => is_digit x = true) line /\ prefix_of (N.eqb 48) line <> [].
Proof.
  unfold test, Pat.zero_padded. cbn [seq]. rewrite exec_bol.
  destruct (at_pos _ 0 line) as [m|] eqn:E; [intros _|discriminate].
  unfold at_pos, plus in E. cbn [run Nat.eqb] in E.
  apply rep_inv in E as (n & Hk & Hn & Hall & _).
  apply rep_inv in Hk as (n2 & Hk & Hn2 & Hall2 & _).
  destruct (drop n2 (drop n line)) eqn:Ed; [|discriminate].
  apply drop_nil_take in Ed. rewrite Ed in Hall2.
  split.
  - rewrite <- (take_drop n line). apply Forall_app. split; [|exact Hall2].
    eapply Forall_impl; [exact Hall|]. intros x Hx%N.eqb_eq. subst. reflexivity.
  - destruct line as [|c line]; [cbn in Hn; lia|].
    destruct n; [lia|]. cbn in Hall. apply Forall_cons in Hall as [Hc _].
    cbn. rewrite Hc. discriminate.
Qed.

Lemma zero_padded_number line :
  test Pat.zero_padded line = true ->
  stripped_number (replace Pat.leading_zeros [] line).
Proof.
  intros [Hd Hz]%zero_padded_inv. rewrite leading_zeros_strip by exact Hz.
  split.
  - rewrite (prefix_of_split (N.eqb 48) line) in Hd. apply Forall_app in Hd. tauto.
  - pose proof (prefix_of_stop (N.eqb 48) line) as Hs.
    destruct (drop _ line) as [|c r]; [discriminate|].
    cbn. intros [= ->]. discriminate.
Qed.

Section Rounds.
Context `{Host}.
Import ReFacts.

Local Hint Constructors pushes_with : core.

Lemma shopee_line_with lines i c :
  i < length lines ->
  exists i' c', shopee_line lines i c = Ok (i', c') /\ i <= i'
    /\ pushes_with (run_of is_digit 7 (Some 9)) (fun d => 5 < length d) parsed_cell c c'.
Proof.
  intros Hi. unfold shopee_line.
  destruct (at_Ok lines i Hi) as (line & _ & ->). rewrite bind_Ok.
  destruct (test Pat.shopee_header line); [eauto 6|].
  destruct (test Pat.digits_7_9_line line) eqn:Ed.
  { apply digits_7_9_line_inv in Ed. eauto 6. }
  destruct (exec Pat.valor_line line) as [m|] eqn:Em.
  { destruct (valor_line_capture _ _ Em) as (t & _ & -> & Ht).
    rewrite bind_Ok. do 2 eexists. split; [reflexivity|]. split; [lia|].
    apply with_valor. split; [exact Ht|reflexivity]. }
  destruct (includes line (js "-")); [|eauto 6].
  destruct ((ends_with line (js "-") || ends_with line (js "- "))
            && bool_decide (i + 1 < length lines)) eqn:Ejoin.
  - apply andb_true_iff in Ejoin as [_ Hnext%bool_decide_eq_true].
    destruct (at_Ok lines (i + 1) Hnext) as (next & _ & ->). rewrite bind_Ok.
    destruct (negb (test Pat.digits_7_9_line (trim next))
              && negb (test Pat.valor_line_test (trim next))
              && negb (test Pat.shopee_header (trim next)));
      rewrite bind_Ok; cbv [fst snd];
      match goal with |- context [if ?b then _ else _] => destruct b eqn:Eb end;
      try (apply andb_true_iff in Eb as [Hlen%bool_decide_eq_true _]);
      eauto 7 with lia.
  - rewrite bind_Ok; cbv [fst snd].
    match goal with |- context [if ?b then _ else _] => destruct b eqn:Eb end;
      try (apply andb_true_iff in Eb as [Hlen%bool_decide_eq_true _]);
      eauto 7.
Qed.

Lemma ml_line_with lines i c :
  i < length lines ->
  exists i' c', ml_line lines i c = Ok (i', c') /\ i <= i'
    /\ pushes_with stripped_number (fun d => 3 < length d) parsed_cell c c'.
Proof.
  intros Hi. unfold ml_line.
  destruct (at_Ok lines i Hi) as (line & _ & ->). rewrite bind_Ok.
  destruct (test Pat.ml_header line) eqn:Eh; [eauto 6|].
  destruct (test Pat.zero_padded line) eqn:Ez.
  { apply zero_padded_number in Ez. eauto 6. }
  destruct (exec Pat.valor_line line) as [m|] eqn:Em.
  { destruct (valor_line_capture _ _ Em) as (t & _ & -> & Ht).
    rewrite bind_Ok. do 2 eexists. split; [reflexivity|]. split; [lia|].
    apply with_valor. split; [exact Ht|reflexivity]. }
  match goal with |- context [if ?b then _ else _] => destruct b eqn:Eb end; [|eauto 6].
  apply andb_true_iff in Eb as [_ Hlen%bool_decide_eq_true]. eauto 6.
Qed.

Lemma magalu_descricao_with line c :
  pushes_with (fun _ => False) (fun d => 2 < length d)
              (fun v => parsed_cell v /\ gtZero (num v) = true)
              c (magalu_descricao line c).
Proof.
  unfold magalu_descricao.
  destruct (_ && _ && _ && _); [|auto]. cbv zeta.
  case_bool_decide; auto.
Qed.

Lemma magalu_line_with lines i c :
  i < length lines ->
  exists i' c', magalu_line lines i c = Ok (i', c') /\ i <= i'
    /\ pushes_with (fun _ => False) (fun d => 2 < length d)
                   (fun v => parsed_cell v /\ gtZero (num v) = true) c c'.
Proof.
  intros Hi. unfold magalu_line.
  destruct (at_Ok lines i Hi) as (line & _ & ->). rewrite bind_Ok.
  pose proof (magalu_descricao_with line c).
  destruct (test Pat.magalu_header line); [eauto 6|].
  destruct (exec Pat.valor_anywhere line) as [m|] eqn:Em; [|eauto 6].
  destruct (valor_anywhere_capture _ _ Em) as (t & _ & -> & Ht).
  rewrite bind_Ok. cbv zeta. destruct (gtZero (parse_valor t)) eqn:Eg; [|eauto 6].
  do 2 eexists. split; [reflexivity|]. split; [lia|].
  apply with_valor. split; [split; [exact Ht|reflexivity]|exact Eg].
Qed.

Lemma columns_hold_pushes Pn Pd Pv c c' :
  pushes_with Pn Pd Pv c c' -> columns_hold Pn Pd Pv c -> columns_hold Pn Pd Pv c'.
Proof.
  unfold columns_hold. intros [] (Hn & Hd & Hv); cbn; repeat split; auto;
    apply Forall_app; split; auto.
Qed.

Lemma classify_with Pn Pd Pv
    (body : list jsstring -> nat -> Columns -> outcome (nat * Columns)) lines :
  (forall i c, i < length lines ->
     exists i' c', body lines i c = Ok (i', c') /\ i <= i' /\ pushes_with Pn Pd Pv c c') ->
  exists c, for_upto (length lines) (body lines) no_columns = Ok c
            /\ columns_hold Pn Pd Pv c.
Proof.
  intros Hbody.
  destruct (for_upto_inv (fun _ c => columns_hold Pn Pd Pv c) (length lines)
              (body lines) no_columns) as (j & c & Hrun & _ & HP); [| |eauto].
  - intros i c Hi HP. destruct (Hbody i c Hi) as (i' & c' & ? & ? & Hp).
    exists i', c'. split; [assumption|]. split; [assumption|].
    eapply columns_hold_pushes; eauto.
  - repeat split; constructor.
Qed.

(** The records built from columns inherit what holds of the columns. *)
Lemma paired_rows_hold Pn Pd Pv c rows :
  columns_hold Pn Pd Pv c -> pair_columns c = Ok rows ->
  Forall (fun row =>
            (exists n, nf row = Some n /\ Pn n)
            /\ (descricao row = placeholder \/ Pd (descricao row))
            /\ Pv {| text := valorFormatado row; num := valor row |}
            /\ tipo row = TipoAbsent) rows.
Proof.
  intros (Hn & Hd & Hv) Hrows.
  destruct (pair_columns_spec c) as (rows' & Hrows' & Hlen & Hat).
  rewrite Hrows in Hrows'. injection Hrows' as <-.
  apply Forall_lookup_2. intros i row Hrow.
  assert (i < length rows) as Hi by (eapply lookup_lt_Some; eauto).
  assert (i < length (numeros c) /\ i < length (valores c)) as [Hin Hiv].
  { rewrite Hlen in Hi. destruct (_ || _); lia. }
  destruct (lookup_lt_is_Some_2 _ _ Hiv) as [v Hv'].
  destruct (lookup_lt_is_Some_2 _ _ Hin) as [n Hn'].
  rewrite (Hat i v Hi Hv') in Hrow. injection Hrow as <-. cbn.
  split; [exists n; split; [exact Hn'|eapply Forall_lookup_1; eauto]|].
  split.
  - rewrite descricao_at_lookup. destruct (descricoes c !! i) as [d|] eqn:Ed; cbn; [|auto].
    right. eapply Forall_lookup_1; eauto.
  - split; [|reflexivity]. destruct v. eapply (Forall_lookup_1 _ _ _ _ Hv Hv').
Qed.

Lemma unpaired_rows_hold Pn Pd Pv c rows :
  columns_hold Pn Pd Pv c -> rows_of_valores c = Ok rows ->
  Forall (fun row =>
            nf row = None
            /\ (descricao row = placeholder \/ Pd (descricao row))
            /\ Pv {| text := valorFormatado row; num := valor row |}
            /\ tipo row = TipoNull) rows.
Proof.
  intros (Hn & Hd & Hv) Hrows.
  destruct (rows_of_valores_spec c) as (rows' & Hrows' & Hlen & Hat).
  rewrite Hrows in Hrows'. injection Hrows' as <-.
  apply Forall_lookup_2. intros i row Hrow.
  assert (i < length rows) as Hi by (eapply lookup_lt_Some; eauto).
  rewrite Hlen in Hi.
  destruct (lookup_lt_is_Some_2 _ _ Hi) as [v Hv'].
  rewrite (Hat i v Hv') in Hrow. injection Hrow as <-. cbn.
  split; [reflexivity|]. split.
  - rewrite descricao_at_lookup. destruct (descricoes c !! i) as [d|] eqn:Ed; cbn; [|auto].
    right. eapply Forall_lookup_1; eauto.
  - split; [|reflexivity]. destruct v. eapply (Forall_lookup_1 _ _ _ _ Hv Hv').
Qed.

End Rounds.

End RoundFacts.

(** ** Further properties of the parsers *)

Import RoundFacts.

(** X1. Every record that the Shopee parser returns carries an identifier
    of seven to nine digits and no document type; its description is a
    collected text of more than five code units or the placeholder, and its
    amount is the value parsed from its display string.  The parser returns
    such a list for every text. *)
Theorem shopee_records_shape `{Host} (tableText : jsstring) :
  exists rows,
    parseTableTextShopee tableText = Ok rows
    /\ Forall (fun row =>
                 (exists n, nf row = Some n /\ 7 <= length n <= 9
                            /\ Forall (fun x => is_digit x = true) n)
                 /\ (descricao row = js "Serviço" \/ 5 < length (descricao row))
                 /\ amount_text (valorFormatado row)
                 /\ valor row = parse_valor (valorFormatado row)
                 /\ tipo row = TipoAbsent) rows.
Proof.
  destruct (classify_with _ _ _ shopee_line (lines_of tableText)
              (fun i c Hi => shopee_line_with _ i c Hi)) as (c & Hc & Hold).
  destruct (pair_columns_spec c) as (rows & Hrows & _).
  exists rows. split.
  - unfold parseTableTextShopee, classifyShopee. cbv zeta. rewrite Hc. exact Hrows.
  - eapply Forall_impl; [exact (paired_rows_hold _ _ _ c rows Hold Hrows)|].
    intros row ((n & Hn & Hlo & Hhi & Hd) & Hdesc & (Ht & Hv) & Htipo).
    cbn in *. split; [exists n; repeat split; assumption|]. repeat split; assumption.
Qed.

(** X2. Every record that the Mercado Livre parser returns carries an
    identifier made of digits only that does not start with a zero (the
    zeros in front were removed, and nothing may be left), and no document
    type; its description is a collected line of more than three code units
    or the placeholder. *)
Theorem mercado_livre_records_shape `{Host} (tableText : jsstring) :
  exists rows,
    parseTableTextMercadoLivre tableText = Ok rows
    /\ Forall (fun row =>
                 (exists n, nf row = Some n
                            /\ Forall (fun x => is_digit x = true) n
                            /\ head n <> Some 48%N)
                 /\ (descricao row = js "Serviço" \/ 3 < length (descricao row))
                 /\ amount_text (valorFormatado row)
                 /\ valor row = parse_valor (valorFormatado row)
                 /\ tipo row = TipoAbsent) rows.
Proof.
  destruct (classify_with _ _ _ ml_line (lines_of tableText)
              (fun i c Hi => ml_line_with _ i c Hi)) as (c & Hc & Hold).
  destruct (pair_columns_spec c) as (rows & Hrows & _).
  exists rows. split.
  - unfold parseTableTextMercadoLivre, classifyMercadoLivre. cbv zeta. rewrite Hc. exact Hrows.
  - eapply Forall_impl; [exact (paired_rows_hold _ _ _ c rows Hold Hrows)|].
    intros row ((n & Hn & Hd & Hz) & Hdesc & (Ht & Hv) & Htipo).
    cbn in *. split; [exists n; repeat split; assumption|]. repeat split; assumption.
Qed.

(** X3. Every record that the Magalu parser returns has a null identifier,
    a null document type and an amount greater than zero, parsed from its
    display string; its description is a cleaned line of more than two code
    units or the placeholder. *)
Theorem magalu_records_shape `{Host} (tableText : jsstring) :
  exists rows,
    parseTableTextMagalu tableText = Ok rows
    /\ Forall (fun row =>
                 nf row = None
                 /\ tipo row = TipoNull
                 /\ gtZero (valor row) = true
                 /\ amount_text (valorFormatado row)
                 /\ valor row = parse_valor (valorFormatado row)
                 /\ (descricao row = js "Serviço" \/ 2 < length (descricao row))) rows.
Proof.
  destruct (classify_with _ _ _ magalu_line (lines_of tableText)
              (fun i c Hi => magalu_line_with _ i c Hi)) as (c & Hc & Hold).
  destruct (rows_of_valores_spec c) as (rows & Hrows & _).
  exists rows. split.
  - unfold parseTableTextMagalu, classifyMagalu. cbv zeta. rewrite Hc. exact Hrows.
  - eapply Forall_impl; [exact (unpaired_rows_hold _ _ _ c rows Hold Hrows)|].
    intros row (Hnf & Hdesc & ((Ht & Hv) & Hg) & Htipo).
    cbn in *. repeat split; assumption.
Qed.

(** ** Lines of the table text *)

Import RoundFacts.

Section LineFacts.
Context `{Host}.

Lemma trim_start_ws s : Forall (fun c => is_ws c = true) s -> trim_start s = [].
Proof. induction 1 as [|c s Hc _ IH]; [reflexivity|]. cbn. rewrite Hc. exact IH. Qed.

Lemma trim_ws s : Forall (fun c => is_ws c = true) s -> trim s = [].
Proof. intros Hs. unfold trim. rewrite (trim_start_ws s Hs). reflexivity. Qed.

Lemma split_lines_ws s :
  Forall (fun c => is_ws c = true) s ->
  Forall (Forall (fun c => is_ws c = true)) (split_lines s).
Proof.
  induction 1 as [|c s Hc _ IH]; [repeat constructor|].
  cbn. destruct (c =? 10)%N; [constructor; [constructor|exact IH]|].
  destruct (split_lines s) as [|l ls]; [repeat constructor; exact Hc|].
  apply Forall_cons in IH as [Hl Hls]. constructor; [constructor; assumption|exact Hls].
Qed.

Lemma lines_of_ws s : Forall (fun c => is_ws c = true) s -> lines_of s = [].
Proof.
  intros Hs%split_lines_ws. unfold lines_of.
  induction Hs as [|l ls Hl _ IH]; [reflexivity|].
  cbn. rewrite (trim_ws l Hl). exact IH.
Qed.

Lemma split_lines_pieces s : split_lines s <> [].
Proof.
  destruct s as [|c s]; [discriminate|]. cbn.
  destruct (c =? 10)%N; [discriminate|]. destruct (split_lines s); discriminate.
Qed.

Lemma split_lines_app a b :
  split_lines (a ++ 10%N :: b) = split_lines a ++ split_lines b.
Proof.
  induction a as [|c a IH]; [reflexivity|].
  cbn. destruct (c =? 10)%N; [rewrite IH; reflexivity|].
  rewrite IH. pose proof (split_lines_pieces a).
  destruct (split_lines a); [congruence|reflexivity].
Qed.

Lemma split_lines_snoc a c :
  c <> 10%N ->
  exists init last,
    split_lines a = init ++ [last] /\ split_lines (a ++ [c]) = init ++ [last ++ [c]].
Proof.
  intros Hc. induction a as [|x a (init & last & E1 & E2)].
  - exists [], []. cbn. apply N.eqb_neq in Hc. rewrite Hc. auto.
  - cbn. destruct (x =? 10)%N.
    + exists ([] :: init), last. rewrite E1, E2. auto.
    + rewrite E1, E2. destruct init as [|l init]; cbn.
      * exists [], (x :: last). auto.
      * exists ((x :: l) :: init), last. auto.
Qed.

Lemma trim_start_snoc s c :
  is_ws c = true ->
  trim_start s = [] /\ trim_start (s ++ [c]) = []
  \/ trim_start (s ++ [c]) = trim_start s ++ [c].
Proof.
  intros Hc. induction s as [|x s IH]; cbn.
  - rewrite Hc. auto.
  - destruct (is_ws x); auto.
Qed.

Lemma trim_snoc s c : is_ws c = true -> trim (s ++ [c]) = trim s.
Proof.
  intros Hc. unfold trim.
  destruct (trim_start_snoc s c Hc) as [[-> ->]| ->]; [reflexivity|].
  rewrite rev_app_distr. cbn. rewrite Hc. reflexivity.
Qed.

Lemma parseTableText_lines text1 text2 marketplace :
  lines_of text1 = lines_of text2 ->
  parseTableText text1 marketplace = parseTableText text2 marketplace.
Proof.
  intros E. unfold parseTableText, parseTableTextShopee, parseTableTextMercadoLivre,
    parseTableTextMagalu, classifyShopee, classifyMercadoLivre, classifyMagalu.
  cbv zeta. rewrite E. reflexivity.
Qed.

End LineFacts.

(** X4. A table text made of white space only (in particular the empty
    text) gives no record, whatever the marketplace. *)
Theorem blank_text_no_records `{Host} (tableText marketplace : jsstring) :
  Forall (fun c => is_ws c = true) tableText ->
  parseTableText tableText marketplace = Ok [].
Proof.
  intros Hws. rewrite (parseTableText_lines tableText [] marketplace).
  - unfold parseTableText. repeat case_if; reflexivity.
  - rewrite (lines_of_ws tableText Hws). reflexivity.
Qed.

Lemma blank_text_no_records_witness :
  parseTableText (H := DecimalHost.host) (js "  " ++ [13; 10; 9; 10]%N) (js "Magalu") = Ok [].
Proof.
  apply (blank_text_no_records (H := DecimalHost.host)).
  repeat constructor.
Defined.

(** X5. A carriage return in front of a line feed changes nothing: the
    parsers read a text with CR LF line ends as they read it with LF line
    ends. *)
Theorem carriage_returns_ignored `{Host} (before after marketplace : jsstring) :
  parseTableText (before ++ [13; 10]%N ++ after) marketplace
  = parseTableText (before ++ [10]%N ++ after) marketplace.
Proof.
  apply parseTableText_lines. unfold lines_of.
  replace (before ++ [13; 10]%N ++ after) with ((before ++ [13%N]) ++ 10%N :: after)
    by (rewrite <- app_assoc; reflexivity).
  change (before ++ [10%N] ++ after) with (before ++ 10%N :: after).
  rewrite !split_lines_app.
  destruct (split_lines_snoc before 13%N) as (init & last & -> & ->); [discriminate|].
  rewrite !map_app. cbn [map]. rewrite trim_snoc by reflexivity. reflexivity.
Qed.
(** ** Records found again by the file name *)

Import ReFacts RoundFacts.

(** A run of the class followed by a code unit outside it (or by the end) is
    taken whole. *)
Lemma rep_run {A} p (k : kont A) cap rest x :
  match rest with c :: _ => p c = false | [] => True end ->
  forall t lo hi pos,
  Forall (fun c => p c = true) t ->
  lo <= length t -> within (length t) hi ->
  k (pos + length t) rest cap = Some x ->
  rep p lo hi pos (t ++ rest) cap k = Some x.
Proof.
  intros Hrest. induction t as [|c t IH]; intros lo hi pos Ht Hlo Hhi Hk.
  - cbn in *. rewrite Nat.add_0_r in Hk. assert (lo = 0) as -> by lia.
    destruct rest as [|c rest]; cbn.
    + destruct hi as [[|h]|]; exact Hk.
    + rewrite Hrest. destruct hi as [[|h]|]; exact Hk.
  - apply Forall_cons in Ht as [Hc Ht]. cbn [app length] in *.
    assert (exists hi', (pred <$> hi) = hi' /\ within (length t) hi'
                        /\ hi <> Some 0) as (hi' & Ehi & Hhi' & Hnz).
    { destruct hi as [h|]; cbn in *; [|eauto].
      exists (Some (pred h)). cbn. repeat split; [lia|]. intros [= ->]. lia. }
    cbn [rep]. rewrite Hc, Ehi.
    rewrite (IH (pred lo) hi' (S pos) Ht) by (try assumption; try lia;
      replace (S pos + length t) with (pos + S (length t)) by lia; assumption).
    destruct hi as [[|h]|]; [congruence|reflexivity|reflexivity].
Qed.

Lemma search_hit r pos s m : at_pos r pos s = Some m -> search r pos s = Some m.
Proof. intros E. destruct s; cbn [search]; rewrite E; reflexivity. Qed.

Lemma search_digit_group before n after :
  Forall (fun x => is_digit x = false) before ->
  run_of is_digit 7 (Some 9) n ->
  match after with c :: _ => is_digit c = false | [] => True end ->
  forall pos,
  search Pat.digits_7_9 pos (before ++ n ++ after)
  = Some {| index := pos + length before; whole := n; group1 := None |}.
Proof.
  intros Hb (Hlo & Hhi & Hn) Ha. induction Hb as [|c before Hc _ IH]; intros pos.
  - cbn [app length]. apply search_hit.
    unfold at_pos, Pat.digits_7_9. cbn [run].
    erewrite rep_run; [|exact Ha|exact Hn|exact Hlo|exact Hhi|reflexivity].
    rewrite Nat.add_0_r. f_equal. f_equal.
    replace (pos + length n - pos) with (length n) by lia.
    rewrite take_app_length. reflexivity.
  - cbn [app search]. unfold at_pos at 1, Pat.digits_7_9. cbn [run rep].
    rewrite Hc. rewrite IH. cbn [length]. f_equal. f_equal. lia.
Qed.

Lemma match_g_digit_group before n after :
  Forall (fun x => is_digit x = false) before ->
  run_of is_digit 7 (Some 9) n ->
  match after with c :: _ => is_digit c = false | [] => True end ->
  exists more, match_g Pat.digits_7_9 (before ++ n ++ after) = Some (n :: more).
Proof.
  intros Hb Hn Ha. unfold match_g, scan_all. cbn [scan].
  rewrite (search_digit_group before n after Hb Hn Ha 0).
  eexists. reflexivity.
Qed.

Section FileNameFacts.
Context `{Host}.

Lemma find_first {A} (p : A -> bool) l x :
  In x l -> p x = true ->
  exists pre y post, l = pre ++ y :: post /\ Forall (fun z => p z = false) pre
                     /\ p y = true /\ List.find p l = Some y.
Proof.
  intros Hin Hp. destruct (find_some_first p l x Hin Hp) as (y & Hy).
  destruct (find_split p l y Hy) as (pre & post & ? & ? & ?). eauto 8.
Qed.

End FileNameFacts.

(** X6. A record of a Shopee table is found again by its identifier: when
    the file name holds the identifier of a parsed record as its first group
    of digits (no digit before it, no digit right after it), the matcher
    returns the first record of the table with that identifier, whatever the
    text of the PDF. *)
Theorem shopee_record_found_by_file_name `{Host}
    (tableText pdfText before after n : jsstring) (rows : list TableRow) (row : TableRow) :
  parseTableTextShopee tableText = Ok rows ->
  In row rows -> nf row = Some n ->
  Forall (fun x => is_digit x = false) before ->
  match after with c :: _ => is_digit c = false | [] => True end ->
  exists rows_before found rows_after,
    rows = rows_before ++ found :: rows_after
    /\ Forall (fun r => nf r <> Some n) rows_before
    /\ nf found = Some n
    /\ findMatchingRow pdfText rows (before ++ n ++ after) (js "Shopee") = Some found.
Proof.
  intros Hparse Hin Hnf Hb Ha.
  assert (run_of is_digit 7 (Some 9) n) as Hn.
  { destruct (classify_with _ _ _ shopee_line (lines_of tableText)
                (fun i c Hi => shopee_line_with _ i c Hi)) as (c & Hc & Hold).
    unfold parseTableTextShopee, classifyShopee in Hparse. cbv zeta in Hparse.
    rewrite Hc in Hparse. cbn in Hparse.
    pose proof (paired_rows_hold _ _ _ c rows Hold Hparse) as Hshape.
    rewrite Forall_forall in Hshape.
    destruct (Hshape row (proj2 (list_elem_of_In _ _) Hin)) as ((n' & Hn' & Hrun) & _).
    rewrite Hnf in Hn'. injection Hn' as <-. exact Hrun. }
  destruct (match_g_digit_group before n after Hb Hn Ha) as (more & Hg).
  destruct (find_first (nf_is n) rows row Hin) as (pre & y & post & -> & Hpre & Hy & Hfind).
  { apply nf_is_true. exact Hnf. }
  exists pre, y, post. split; [reflexivity|]. split.
  { eapply Forall_impl; [exact Hpre|]. intros r Hr. apply nf_is_false. exact Hr. }
  split; [apply nf_is_true; exact Hy|].
  rewrite findMatchingRow_cascade by discriminate.
  unfold matchByFileName. rewrite Hg. cbn [firstByFileNum]. rewrite Hfind. reflexivity.
Qed.

Lemma shopee_record_found_by_file_name_witness :
  exists rows_before found rows_after,
    [DecimalHost.row (Some (js "1234567")) 1000 (js "10,00") (js "Serviço") TipoAbsent]
    = rows_before ++ found :: rows_after
    /\ Forall (fun r => nf r <> Some (js "1234567")) rows_before
    /\ nf found = Some (js "1234567")
    /\ findMatchingRow (H := DecimalHost.host) (js "sem texto")
         [DecimalHost.row (Some (js "1234567")) 1000 (js "10,00") (js "Serviço") TipoAbsent]
         (js "NF " ++ js "1234567" ++ js ".pdf") (js "Shopee")
       = Some found.
Proof.
  apply (shopee_record_found_by_file_name (H := DecimalHost.host)
           (text_of [js "1234567"; js "R$ 10,00"]) (js "sem texto")
           (js "NF ") (js ".pdf") (js "1234567")
           [DecimalHost.row (Some (js "1234567")) 1000 (js "10,00") (js "Serviço") TipoAbsent]
           (DecimalHost.row (Some (js "1234567")) 1000 (js "10,00") (js "Serviço") TipoAbsent)).
  - vm_compute. reflexivity.
  - left. reflexivity.
  - reflexivity.
  - repeat constructor.
  - reflexivity.
Defined.


(** X20. The file name strategy only ever returns a record of the table
    whose identifier has seven to nine digits and stands in the file name: a
    record with a shorter or longer identifier, or without one, is never
    found through the name of the file. *)
Theorem file_name_match_has_long_identifier `{Host} (fileName : jsstring)
    (tableData : list TableRow) (row : TableRow) :
  matchByFileName fileName tableData = Some row ->
  In row tableData
  /\ exists n, nf row = Some n /\ 7 <= length n <= 9
               /\ Forall (fun x => is_digit x = true) n
               /\ part_of n fileName.
Proof.
  unfold matchByFileName.
  destruct (match_g Pat.digits_7_9 fileName) as [groups|] eqn:Eg; [|discriminate].
  intros (g & Hg & Hnf & Hin)%firstByFileNum_In.
  split; [exact Hin|]. exists g. split; [exact Hnf|].
  destruct (ReFacts.match_g_rep is_digit 7 (Some 9) fileName groups g Eg Hg)
    as ((Hlo & Hhi & Hd) & pre & post & Hs).
  cbn in Hhi. split; [lia|]. split; [exact Hd|]. exists pre, post. exact Hs.
Qed.

Lemma file_name_match_has_long_identifier_witness :
  In DecimalHost.limpeza [DecimalHost.limpeza]
  /\ exists n, nf DecimalHost.limpeza = Some n /\ 7 <= length n <= 9
               /\ Forall (fun x => is_digit x = true) n
               /\ part_of n (js "NFS 1234567 (2).pdf").
Proof.
  apply (file_name_match_has_long_identifier (H := DecimalHost.host)
           (js "NFS 1234567 (2).pdf") [DecimalHost.limpeza] DecimalHost.limpeza).
  vm_compute. reflexivity.
Defined.
(** ** Further properties of the matchers *)

Section CascadeMore.
Context `{Host}.

Lemma find_none_iff {A} (p : A -> bool) l :
  List.find p l = None <-> Forall (fun y => p y = false) l.
Proof.
  split; [apply find_none_all|].
  induction 1 as [|x l Hx _ IH]; [reflexivity|]. cbn. rewrite Hx. exact IH.
Qed.

Lemma find_app_first {A} (p : A -> bool) pre x post :
  Forall (fun y => p y = false) pre -> p x = true ->
  List.find p (pre ++ x :: post) = Some x.
Proof.
  intros Hpre Hx. induction Hpre as [|y pre Hy _ IH]; cbn [app List.find].
  - rewrite Hx. reflexivity.
  - rewrite Hy. exact IH.
Qed.

Lemma find_In {A} (p : A -> bool) l x : List.find p l = Some x -> In x l /\ p x = true.
Proof.
  intros (pre & post & -> & _ & Hp)%find_split. split; [|exact Hp].
  apply in_or_app. right. left. reflexivity.
Qed.

Lemma firstByFileNum_none nums tableData :
  firstByFileNum nums tableData = None
  <-> forall g row, In g nums -> In row tableData -> nf row <> Some g.
Proof.
  induction nums as [|g nums IH]; cbn [firstByFileNum].
  - split; [intros _ g row []|reflexivity].
  - destruct (List.find (nf_is g) tableData) as [row|] eqn:Ef.
    + split; [discriminate|]. intros Hall. exfalso.
      apply find_In in Ef as [Hin Hnf]. apply nf_is_true in Hnf.
      exact (Hall g row (or_introl eq_refl) Hin Hnf).
    + rewrite IH. split.
      * intros Hall g' row [<-|Hg] Hin; [|eauto].
        apply nf_is_false. apply find_none_iff in Ef.
        rewrite Forall_forall in Ef. apply Ef. apply list_elem_of_In. exact Hin.
      * intros Hall g' row Hg. apply Hall. right. exact Hg.
Qed.

Lemma matchByFileName_none fileName tableData :
  matchByFileName fileName tableData = None
  <-> forall groups g row,
        match_g Pat.digits_7_9 fileName = Some groups ->
        In g groups -> In row tableData -> nf row <> Some g.
Proof.
  unfold matchByFileName. destruct (match_g Pat.digits_7_9 fileName) as [groups|].
  - rewrite firstByFileNum_none. split.
    + intros Hall groups' g row [= <-]. apply Hall.
    + intros Hall g row. apply (Hall groups g row eq_refl).
  - split; [discriminate|reflexivity].
Qed.

Lemma findMatchingRow_member pdfText tableData fileName marketplace row :
  marketplace <> js "Magalu" ->
  findMatchingRow pdfText tableData fileName marketplace = Some row ->
  In row tableData.
Proof.
  intros Hm. rewrite findMatchingRow_cascade by exact Hm.
  unfold matchByFileName, matchByNumberAndValue, matchByValue, matchByNumber.
  destruct (match_g Pat.digits_7_9 fileName) as [groups|].
  - destruct (firstByFileNum groups tableData) as [r|] eqn:E1.
    { intros [= <-]. apply firstByFileNum_In in E1 as (_ & _ & _ & Hin). exact Hin. }
    repeat match goal with
           | |- context [List.find ?p tableData] =>
             let E := fresh "E" in
             destruct (List.find p tableData) eqn:E;
               [intros [= <-]; apply find_In in E as [Hin _]; exact Hin|]
           end.
    discriminate.
  - repeat match goal with
           | |- context [List.find ?p tableData] =>
             let E := fresh "E" in
             destruct (List.find p tableData) eqn:E;
               [intros [= <-]; apply find_In in E as [Hin _]; exact Hin|]
           end.
    discriminate.
Qed.

End CascadeMore.

(** X7. Outside Magalu the matcher never makes up a record and never
    answers without evidence: what it returns is one of the records of the
    table it was given, and either a group of seven to nine digits of the
    file name is its identifier, or one of its amount renderings occurs in
    the normalized text, or its non-empty identifier occurs there. *)
Theorem match_is_a_table_record `{Host} (pdfText : jsstring) (tableData : list TableRow)
    (fileName marketplace : jsstring) (row : TableRow) :
  marketplace <> js "Magalu" ->
  findMatchingRow pdfText tableData fileName marketplace = Some row ->
  In row tableData
  /\ ((exists groups g, match_g Pat.digits_7_9 fileName = Some groups
                        /\ In g groups /\ nf row = Some g)
      \/ valorFound (normalizePdf pdfText) row = true
      \/ nfFound (normalizePdf pdfText) row = true).
Proof.
  intros Hm Hfind. split; [exact (findMatchingRow_member _ _ _ _ _ Hm Hfind)|].
  rewrite findMatchingRow_cascade in Hfind by exact Hm.
  unfold matchByFileName in Hfind.
  destruct (match_g Pat.digits_7_9 fileName) as [groups|] eqn:Eg.
  - destruct (firstByFileNum groups tableData) as [r|] eqn:E1.
    + injection Hfind as <-. left.
      apply firstByFileNum_In in E1 as (g & Hg & Hnf & _). eauto.
    + right. unfold matchByNumberAndValue, matchByValue, matchByNumber in Hfind.
      destruct (List.find _ tableData) as [r|] eqn:E2 in Hfind.
      { injection Hfind as <-. apply find_In in E2 as [_ [_ Hv]%andb_true_iff]. auto. }
      destruct (List.find (valorFound _) tableData) as [r|] eqn:E3 in Hfind.
      { injection Hfind as <-. apply find_In in E3 as [_ Hv]. auto. }
      apply find_In in Hfind as [_ Hn]. auto.
  - right. unfold matchByNumberAndValue, matchByValue, matchByNumber in Hfind.
    destruct (List.find _ tableData) as [r|] eqn:E2 in Hfind.
    { injection Hfind as <-. apply find_In in E2 as [_ [_ Hv]%andb_true_iff]. auto. }
    destruct (List.find (valorFound _) tableData) as [r|] eqn:E3 in Hfind.
    { injection Hfind as <-. apply find_In in E3 as [_ Hv]. auto. }
    apply find_In in Hfind as [_ Hn]. auto.
Qed.

Lemma match_is_a_table_record_witness :
  In DecimalHost.limpeza
     [DecimalHost.row (Some (js "7654321")) 2000 (js "20,00") (js "Taxa") TipoAbsent;
      DecimalHost.limpeza]
  /\ ((exists groups g, match_g Pat.digits_7_9 (js "nota.pdf") = Some groups
                        /\ In g groups /\ nf DecimalHost.limpeza = Some g)
      \/ valorFound (normalizePdf (js "NFS-e 1234567 valor R$ 150,00")) DecimalHost.limpeza
         = true
      \/ nfFound (normalizePdf (js "NFS-e 1234567 valor R$ 150,00")) DecimalHost.limpeza
         = true).
Proof.
  apply (match_is_a_table_record (H := DecimalHost.host)
           (js "NFS-e 1234567 valor R$ 150,00")
           [DecimalHost.row (Some (js "7654321")) 2000 (js "20,00") (js "Taxa") TipoAbsent;
            DecimalHost.limpeza]
           (js "nota.pdf") (js "Shopee")).
  - discriminate.
  - vm_compute. reflexivity.
Defined.


(** X8. Outside Magalu the matcher answers null exactly when nothing links
    the PDF to the table: no group of seven to nine digits of the file name
    is the identifier of a record, no record's amount occurs in the
    normalized text, and no record's non-empty identifier occurs in it. *)
Theorem no_match_iff `{Host} (pdfText : jsstring) (tableData : list TableRow)
    (fileName marketplace : jsstring) :
  marketplace <> js "Magalu" ->
  findMatchingRow pdfText tableData fileName marketplace = None
  <-> (forall groups g row,
         match_g Pat.digits_7_9 fileName = Some groups ->
         In g groups -> In row tableData -> nf row <> Some g)
      /\ Forall (fun row => valorFound (normalizePdf pdfText) row = false
                            /\ nfFound (normalizePdf pdfText) row = false) tableData.
Proof.
  intros Hm. rewrite findMatchingRow_cascade by exact Hm.
  rewrite <- matchByFileName_none.
  unfold matchByNumberAndValue, matchByValue, matchByNumber.
  split.
  - destruct (matchByFileName fileName tableData); [discriminate|].
    destruct (List.find _ tableData) eqn:E2; [discriminate|].
    destruct (List.find (valorFound _) tableData) eqn:E3; [discriminate|].
    intros E4. split; [reflexivity|].
    apply find_none_iff in E3, E4. rewrite Forall_forall in *. intros row Hin. auto.
  - intros [-> Hall].
    assert (Forall (fun row => valorFound (normalizePdf pdfText) row = false) tableData) as Hv
      by (eapply Forall_impl; [exact Hall|]; cbn; tauto).
    assert (Forall (fun row => nfFound (normalizePdf pdfText) row = false) tableData) as Hn
      by (eapply Forall_impl; [exact Hall|]; cbn; tauto).
    rewrite (proj2 (find_none_iff _ _) Hv), (proj2 (find_none_iff _ _) Hn).
    rewrite (proj2 (find_none_iff _ tableData)); [reflexivity|].
    eapply Forall_impl; [exact Hn|]. cbn. intros row ->. reflexivity.
Qed.

Lemma no_match_iff_witness :
  findMatchingRow (H := DecimalHost.host) (js "Recibo 99 total 1,00")
    [DecimalHost.limpeza] (js "recibo 1234.pdf") (js "Shopee") = None.
Proof.
  apply (no_match_iff (H := DecimalHost.host) (js "Recibo 99 total 1,00")
           [DecimalHost.limpeza] (js "recibo 1234.pdf") (js "Shopee")).
  - discriminate.
  - split.
    + intros groups g row Hg. vm_compute in Hg. discriminate Hg.
    + repeat constructor.
Defined.


(** X9. Outside Magalu, when the file name settles nothing, a record whose
    identifier and amount both occur in the text is preferred to the order
    of the table: the first such record is returned, even if records placed
    before it have their amount or their identifier in the text. *)
Theorem number_and_amount_before_table_order `{Host} (pdfText : jsstring)
    (rows_before rows_after : list TableRow) (row : TableRow)
    (fileName marketplace : jsstring) :
  marketplace <> js "Magalu" ->
  matchByFileName fileName (rows_before ++ row :: rows_after) = None ->
  Forall (fun r => nfFound (normalizePdf pdfText) r
                   && valorFound (normalizePdf pdfText) r = false) rows_before ->
  nfFound (normalizePdf pdfText) row = true ->
  valorFound (normalizePdf pdfText) row = true ->
  findMatchingRow pdfText (rows_before ++ row :: rows_after) fileName marketplace
  = Some row.
Proof.
  intros Hm Hfile Hpre Hn Hv. rewrite findMatchingRow_cascade by exact Hm.
  rewrite Hfile. unfold matchByNumberAndValue.
  rewrite (find_app_first _ rows_before row rows_after Hpre); [reflexivity|].
  rewrite Hn, Hv. reflexivity.
Qed.

Lemma number_and_amount_before_table_order_witness :
  findMatchingRow (H := DecimalHost.host) (js "NFS-e 1234567 valor R$ 150,00 desconto 20,00")
    ([DecimalHost.row (Some (js "7654321")) 2000 (js "20,00") (js "Taxa") TipoAbsent]
     ++ DecimalHost.limpeza :: [])
    (js "nota.pdf") (js "Shopee")
  = Some DecimalHost.limpeza.
Proof.
  apply (number_and_amount_before_table_order (H := DecimalHost.host)).
  - discriminate.
  - vm_compute. reflexivity.
  - repeat constructor.
  - vm_compute. reflexivity.
  - vm_compute. reflexivity.
Defined.


(** X10. Outside Magalu, the identifier alone is the last resort: when the
    file name settles nothing and no record's amount occurs in the text, the
    first record whose non-empty identifier occurs in the normalized text is
    returned. *)
Theorem identifier_only_fallback `{Host} (pdfText : jsstring)
    (rows_before rows_after : list TableRow) (row : TableRow)
    (fileName marketplace : jsstring) :
  marketplace <> js "Magalu" ->
  matchByFileName fileName (rows_before ++ row :: rows_after) = None ->
  Forall (fun r => valorFound (normalizePdf pdfText) r = false)
         (rows_before ++ row :: rows_after) ->
  Forall (fun r => nfFound (normalizePdf pdfText) r = false) rows_before ->
  nfFound (normalizePdf pdfText) row = true ->
  findMatchingRow pdfText (rows_before ++ row :: rows_after) fileName marketplace
  = Some row.
Proof.
  intros Hm Hfile Hv Hpre Hn. rewrite findMatchingRow_cascade by exact Hm.
  rewrite Hfile. unfold matchByNumberAndValue, matchByValue, matchByNumber.
  rewrite (proj2 (find_none_iff _ _)).
  2:{ eapply Forall_impl; [exact Hv|]. cbn. intros r ->. apply andb_false_r. }
  rewrite (proj2 (find_none_iff _ _) Hv).
  apply find_app_first; assumption.
Qed.

Lemma identifier_only_fallback_witness :
  findMatchingRow (H := DecimalHost.host) (js "Referente a NF 1234567, valor a confirmar")
    ([DecimalHost.row (Some (js "7654321")) 2000 (js "20,00") (js "Taxa") TipoAbsent]
     ++ DecimalHost.limpeza :: [])
    (js "nota.pdf") (js "Mercado Livre")
  = Some DecimalHost.limpeza.
Proof.
  apply (identifier_only_fallback (H := DecimalHost.host)).
  - discriminate.
  - vm_compute. reflexivity.
  - repeat constructor.
  - repeat constructor.
  - vm_compute. reflexivity.
Defined.


Section MagaluMore.
Context `{Host}.





End MagaluMore.




(** ** Runs of the application *)

(** Sanity checks on the sample files and services. *)
Module AppExamples.

Example fullText_of_ex :
  fullText_of [[js "NFS-e"; js "1234567"]; [js "Total"; js "R$ 10,00"]]
  = js "NFS-e 1234567 Total R$ 10,00 ".
Proof. reflexivity. Qed.

Example uploads_keep_pdfs_only :
  App.pdfFiles (App.handlePdfUpload [Sample.nota1; Sample.planilha; Sample.nota2]
                  App.initial)
  = [Sample.nota1; Sample.nota2]
  /\ App.tableFile (App.handleTableUpload [Sample.planilha] App.initial) = None
  /\ App.tableFile (App.handleTableDrop [Sample.tabela; Sample.planilha] App.initial)
     = Some Sample.tabela.
Proof. repeat split; reflexivity. Qed.

Example shopee_run :
  let out := IO.value Sample.services
               (App.processDocuments (H := DecimalHost.host) (Sample.ready (js "Shopee")))
               tt in
  fst out = App.Finished
  /\ map App.newName (App.results (snd out))
     = [js "NFS 1234567 - Taxa - de envio - R$10,00 - Shopee - Ninja PR.pdf";
        js "recibo.pdf"]
  /\ map App.matched (App.results (snd out)) = [true; false]
  /\ App.downloadZip (snd out)
     = Some [(js "NFS 1234567 - Taxa - de envio - R$10,00 - Shopee - Ninja PR.pdf",
              Sample.nota1)].
Proof. vm_compute. repeat split; reflexivity. Qed.

Example magalu_run :
  let run := App.processDocuments (H := DecimalHost.host) Sample.magalu_ready in
  map App.newName (App.results (snd (IO.value Sample.magalu_services run tt)))
  = [js "ND 8841 - Frete expresso - R$150,00 - Magalu - Ninja SC.pdf"]
  /\ IO.asked Sample.magalu_services run tt
     = [IO.AskOcr Sample.tabela false; IO.AskPdfJs Sample.scanned;
        IO.AskOcr Sample.scanned true].
Proof. vm_compute. repeat split; reflexivity. Qed.

Example nothing_to_download :
  App.downloadZip App.initial = None
  /\ App.matchedCount App.initial = 0.
Proof. split; reflexivity. Qed.

End AppExamples.

Import RoundFacts.

Section RunFacts.
Context `{Host} {W : Type} (sv : IO.Services W).

Lemma perform_bind {A B} (m : IO.io A) (f : A -> IO.io B) w :
  IO.perform sv (m ≫= f) w
  = let '(a, asked1, w1) := IO.perform sv m w in
    let '(b, asked2, w2) := IO.perform sv (f a) w1 in
    (b, asked1 ++ asked2, w2).
Proof.
  unfold mbind, IO.io_bind. revert w.
  induction m as [a|file pdf k IH|file k IH]; intros w; cbn [IO.bind IO.perform].
  - destruct (IO.perform sv (f a) w) as [[b asked2] w2]. reflexivity.
  - destruct (IO.ocr_space sv file pdf w) as [r w1]. rewrite IH.
    destruct (IO.perform sv (k r) w1) as [[a asked1] w2].
    destruct (IO.perform sv (f a) w2) as [[b asked2] w3]. reflexivity.
  - destruct (IO.pdf_js sv file w) as [r w1]. rewrite IH.
    destruct (IO.perform sv (k r) w1) as [[a asked1] w2].
    destruct (IO.perform sv (f a) w2) as [[b asked2] w3]. reflexivity.
Qed.

(** Reading one PDF asks pdf.js, then possibly the OCR service, and the
    latter only for Magalu. *)
Lemma extractTextFromPDF_perform file marketplace w :
  exists pdfText ocr w',
    IO.perform sv (extractTextFromPDF file marketplace) w
    = (pdfText, requests_for file ocr, w')
    /\ (ocr = true -> marketplace = js "Magalu").
Proof.
  unfold extractTextFromPDF, requests_for. cbn [IO.perform].
  destruct (IO.pdf_js sv file w) as [[pages|] w1].
  - destruct (Str.eqb marketplace (js "Magalu")) eqn:Em; cbn [andb].
    + apply str_eqb_eq in Em.
      destruct (bool_decide _).
      * unfold extractTextFromPDFWithOCR, mbind, IO.io_bind. cbn [IO.bind IO.perform].
        destruct (IO.ocr_space sv file true w1) as [r w2].
        destruct (truthy (default [] r) && _); cbn [IO.perform];
          eexists _, true, _; (split; [reflexivity|auto]).
      * cbn [IO.perform]. eexists _, false, _. split; [reflexivity|discriminate].
    + cbn [IO.perform]. eexists _, false, _. split; [reflexivity|discriminate].
  - cbn [IO.perform]. eexists _, false, _. split; [reflexivity|discriminate].
Qed.

Lemma process_pdfs_perform tableData marketplace unidade files :
  forall newResults w,
  exists more flags w',
    IO.perform sv (App.process_pdfs files tableData marketplace unidade newResults) w
    = (newResults ++ more, concat (zip_with requests_for files flags), w')
    /\ length flags = length files
    /\ Forall2 (fun file r =>
                  exists pdfText,
                    r = App.result_of file pdfText tableData marketplace unidade)
               files more
    /\ (marketplace <> js "Magalu" -> Forall (fun b => b = false) flags).
Proof.
  induction files as [|file files IH]; intros newResults w; cbn [App.process_pdfs].
  - exists [], [], w. rewrite app_nil_r. repeat split; constructor.
  - rewrite perform_bind.
    destruct (extractTextFromPDF_perform file marketplace w) as (pdfText & ocr & w1 & -> & Hocr).
    destruct (IH (newResults ++ [App.result_of file pdfText tableData marketplace unidade]) w1)
      as (more & flags & w2 & -> & Hlen & Hres & Hflags).
    exists (App.result_of file pdfText tableData marketplace unidade :: more), (ocr :: flags), w2.
    split; [rewrite <- app_assoc; reflexivity|].
    split; [cbn; lia|].
    split; [constructor; [eauto|exact Hres]|].
    intros Hm. constructor; [|auto].
    destruct ocr; [|reflexivity]. exfalso. auto.
Qed.

Lemma parseTableText_total tableText marketplace :
  exists rows, parseTableText tableText marketplace = Ok rows.
Proof.
  unfold parseTableText, parseTableTextShopee, parseTableTextMercadoLivre,
    parseTableTextMagalu.
  repeat case_if; [| | |eauto].
  - destruct (classifyShopee_ok tableText) as (c & ->). rewrite bind_Ok.
    destruct (pair_columns_spec c) as (rows & -> & _). eauto.
  - destruct (classifyMercadoLivre_ok tableText) as (c & ->). rewrite bind_Ok.
    destruct (pair_columns_spec c) as (rows & -> & _). eauto.
  - destruct (classifyMagalu_ok tableText) as (c & ->). rewrite bind_Ok.
    destruct (rows_of_valores_spec c) as (rows & -> & _). eauto.
Qed.

(** The four ways a call of [processDocuments] goes. *)
Lemma processDocuments_perform st w :
  ((App.tableFile st = None \/ App.pdfFiles st = [])
   /\ IO.perform sv (App.processDocuments st) w = ((App.NotStarted, st), [], w))
  \/ exists table,
       App.tableFile st = Some table /\ App.pdfFiles st <> []
       /\ ((exists w1,
              IO.ocr_space sv table false w = (None, w1)
              /\ IO.perform sv (App.processDocuments st) w
                 = ((App.Fatal App.OcrFailed, App.stopped (App.started st)),
                    [IO.AskOcr table false], w1))
           \/ (exists tableText w1,
                 IO.ocr_space sv table false w = (Some tableText, w1)
                 /\ parseTableText tableText (App.marketplace st) = Ok []
                 /\ IO.perform sv (App.processDocuments st) w
                    = ((App.Fatal App.NoValidData, App.stopped (App.started st)),
                       [IO.AskOcr table false], w1))
           \/ (exists tableText w1 tableData newResults flags w2,
                 IO.ocr_space sv table false w = (Some tableText, w1)
                 /\ parseTableText tableText (App.marketplace st) = Ok tableData
                 /\ tableData <> []
                 /\ IO.perform sv (App.processDocuments st) w
                    = ((App.Finished,
                        App.stopped (App.setResults newResults (App.started st))),
                       IO.AskOcr table false
                       :: concat (zip_with requests_for (App.pdfFiles st) flags), w2)
                 /\ length flags = length (App.pdfFiles st)
                 /\ Forall2 (fun file r =>
                               exists pdfText,
                                 r = App.result_of file pdfText tableData
                                       (App.marketplace st) (App.unidade st))
                            (App.pdfFiles st) newResults
                 /\ (App.marketplace st <> js "Magalu" ->
                     Forall (fun b => b = false) flags))).
Proof.
  unfold App.processDocuments.
  destruct (App.tableFile st) as [table|] eqn:Et; [|left; auto].
  case_bool_decide as Hn.
  { left. split; [right; destruct (App.pdfFiles st); [reflexivity|discriminate]|reflexivity]. }
  right. exists table. split; [reflexivity|].
  split; [intros E; rewrite E in Hn; apply Hn; reflexivity|].
  cbv zeta. rewrite perform_bind. unfold extractTextFromImage. cbn [IO.perform].
  destruct (IO.ocr_space sv table false w) as [[tableText|] w1].
  2:{ left. exists w1. split; reflexivity. }
  right. cbn [App.marketplace App.started App.pdfFiles App.unidade].
  destruct (parseTableText_total tableText (App.marketplace st)) as (tableData & Hp).
  rewrite Hp. case_bool_decide as Hd.
  { left. exists tableText, w1. destruct tableData; [|discriminate].
    split; [reflexivity|]. split; [exact Hp|]. reflexivity. }
  right. rewrite perform_bind.
  destruct (process_pdfs_perform tableData (App.marketplace st) (App.unidade st)
              (App.pdfFiles st) [] w1) as (more & flags & w2 & -> & Hlen & Hres & Hflags).
  exists tableText, w1, tableData, more, flags, w2.
  split; [reflexivity|]. split; [exact Hp|].
  split; [intros ->; apply Hd; reflexivity|].
  split; [cbn; rewrite app_nil_r; reflexivity|]. auto.
Qed.

End RunFacts.

(** ** Properties of the application *)

Import RoundFacts.

Section AppFacts.
Context `{Host} {W : Type} (sv : IO.Services W).

Lemma results_of_files tableData marketplace unidade files rs :
  Forall2 (fun file r =>
             exists pdfText,
               r = App.result_of file pdfText tableData marketplace unidade) files rs ->
  map App.originalName rs = map IO.name files
  /\ map App.file rs = files
  /\ Forall (fun r => App.matched r = false -> App.newName r = App.originalName r) rs.
Proof.
  induction 1 as [|file r files rs (pdfText & ->) _ (IH1 & IH2 & IH3)];
    [repeat split; constructor|].
  cbn [map]. rewrite IH1, IH2.
  unfold App.result_of.
  destruct (findMatchingRow pdfText tableData (IO.name file) marketplace);
    cbn [App.originalName App.file App.matched App.newName];
    (split; [reflexivity|]); (split; [reflexivity|]);
    constructor; try exact IH3; cbn; [discriminate|reflexivity].
Qed.

Lemma filter_counts {A} (p : A -> bool) l :
  length (List.filter p l) + length (List.filter (fun x => negb (p x)) l) = length l.
Proof.
  induction l as [|x l IH]; [reflexivity|]. cbn. destruct (p x); cbn; lia.
Qed.

Lemma requests_without_ocr files flags :
  length flags = length files -> Forall (fun b => b = false) flags ->
  concat (zip_with requests_for files flags) = map IO.AskPdfJs files.
Proof.
  revert flags. induction files as [|file files IH]; intros [|b flags] Hlen Hf;
    try discriminate; [reflexivity|].
  apply Forall_cons in Hf as [-> Hf]. cbn. f_equal. apply IH; [cbn in Hlen; lia|exact Hf].
Qed.



End AppFacts.

(** X12. [processDocuments] does not start without a table image or without
    PDF files: the state stays as it was and no service is asked.  Once
    started it never ends on an exception of the parser, and when it ends
    with an error no result is shown, the processing flag is cleared, the
    files are kept, and the only request made is the OCR of the table
    image: no PDF is read. *)
Theorem run_endings `{Host} {W : Type} (sv : IO.Services W) (w : W) (st : App.State) :
  let ending := fst (IO.value sv (App.processDocuments st) w) in
  let st' := snd (IO.value sv (App.processDocuments st) w) in
  let asked := IO.asked sv (App.processDocuments st) w in
  (ending = App.NotStarted <-> App.tableFile st = None \/ App.pdfFiles st = [])
  /\ (ending = App.NotStarted -> st' = st /\ asked = [])
  /\ ending <> App.Fatal App.Raised
  /\ (forall e, ending = App.Fatal e ->
        App.results st' = [] /\ App.processing st' = false
        /\ App.pdfFiles st' = App.pdfFiles st /\ App.tableFile st' = App.tableFile st
        /\ exists table, App.tableFile st = Some table
                         /\ asked = [IO.AskOcr table false]).
Proof.
  unfold IO.value, IO.asked.
  destruct (processDocuments_perform sv st w)
    as [[Hguard ->]|(table & Ht & Hp & [(w1 & _ & ->)|[(tt & w1 & _ & _ & ->)
        |(tt & w1 & td & rs & fl & w2 & _ & _ & _ & -> & _)]])];
    cbn [fst snd]; cbv zeta.
  - split; [tauto|]. split; [auto|]. split; discriminate.
  - split; [split; [discriminate|intros [E|E]; congruence]|].
    split; [discriminate|]. split; [discriminate|]. intros e _. cbn. eauto 8.
  - split; [split; [discriminate|intros [E|E]; congruence]|].
    split; [discriminate|]. split; [discriminate|]. intros e _. cbn. eauto 8.
  - split; [split; [discriminate|intros [E|E]; congruence]|].
    split; [discriminate|]. split; discriminate.
Qed.

(** X13. A run that finishes shows exactly one result per PDF file, in the
    order of the files: each result carries its file and the file's name as
    original name, an unmatched result keeps that name as new name, and the
    counts of matched and unmatched results add up to the number of files.
    The files themselves are kept and the processing flag is cleared. *)
Theorem finished_run_results `{Host} {W : Type} (sv : IO.Services W) (w : W)
    (st : App.State) :
  fst (IO.value sv (App.processDocuments st) w) = App.Finished ->
  let st' := snd (IO.value sv (App.processDocuments st) w) in
  map App.originalName (App.results st') = map IO.name (App.pdfFiles st)
  /\ map App.file (App.results st') = App.pdfFiles st
  /\ Forall (fun r => App.matched r = false -> App.newName r = App.originalName r)
            (App.results st')
  /\ App.matchedCount st' + App.unmatchedCount st' = length (App.pdfFiles st)
  /\ App.pdfFiles st' = App.pdfFiles st
  /\ App.processing st' = false.
Proof.
  unfold IO.value.
  destruct (processDocuments_perform sv st w)
    as [[Hguard ->]|(table & Ht & Hp & [(w1 & _ & ->)|[(tt & w1 & _ & _ & ->)
        |(tt & w1 & td & rs & fl & w2 & _ & _ & _ & -> & _ & Hres & _)]])];
    cbn [fst snd]; try discriminate.
  intros _. cbv zeta. cbn [App.results App.stopped App.setResults App.pdfFiles
                           App.started App.processing].
  destruct (results_of_files _ _ _ _ _ Hres) as (H1 & H2 & H3).
  repeat split; try assumption.
  unfold App.matchedCount, App.unmatchedCount. cbn [App.results App.stopped App.setResults].
  rewrite filter_counts, <- H2, length_map. reflexivity.
Qed.

Lemma finished_run_results_witness :
  let st' := snd (IO.value Sample.services
                    (App.processDocuments (H := DecimalHost.host)
                       (Sample.ready (js "Shopee"))) tt) in
  map App.originalName (App.results st') = [js "NF 1234567.pdf"; js "recibo.pdf"]
  /\ map App.file (App.results st') = [Sample.nota1; Sample.nota2]
  /\ App.matchedCount st' + App.unmatchedCount st' = 2.
Proof.
  destruct (finished_run_results (H := DecimalHost.host) Sample.services tt
              (Sample.ready (js "Shopee"))) as (Hnames & Hfiles & _ & Hcount & _).
  - vm_compute. reflexivity.
  - split; [exact Hnames|]. split; [exact Hfiles|exact Hcount].
Defined.


(** X14. The requests of a run that finishes: the OCR of the table image
    first, then every PDF file is read by pdf.js exactly once, in the order
    of the files, each reading followed at most by one OCR request for that
    same file.  Outside Magalu no OCR is ever asked for a PDF. *)
Theorem finished_run_requests `{Host} {W : Type} (sv : IO.Services W) (w : W)
    (st : App.State) :
  fst (IO.value sv (App.processDocuments st) w) = App.Finished ->
  exists table flags,
    App.tableFile st = Some table
    /\ length flags = length (App.pdfFiles st)
    /\ IO.asked sv (App.processDocuments st) w
       = IO.AskOcr table false :: concat (zip_with requests_for (App.pdfFiles st) flags)
    /\ (App.marketplace st <> js "Magalu" ->
        IO.asked sv (App.processDocuments st) w
        = IO.AskOcr table false :: map IO.AskPdfJs (App.pdfFiles st)).
Proof.
  unfold IO.value, IO.asked.
  destruct (processDocuments_perform sv st w)
    as [[Hguard ->]|(table & Ht & Hp & [(w1 & _ & ->)|[(tt & w1 & _ & _ & ->)
        |(tt & w1 & td & rs & fl & w2 & _ & _ & _ & -> & Hlen & _ & Hfl)]])];
    cbn [fst snd]; try discriminate.
  intros _. exists table, fl. split; [exact Ht|]. split; [exact Hlen|].
  split; [reflexivity|]. intros Hm. f_equal.
  apply requests_without_ocr; auto.
Qed.

Lemma finished_run_requests_witness :
  exists table flags,
    Some Sample.tabela = Some table
    /\ length flags = 2
    /\ IO.asked Sample.services
         (App.processDocuments (H := DecimalHost.host) (Sample.ready (js "Shopee"))) tt
       = IO.AskOcr table false
         :: concat (zip_with requests_for [Sample.nota1; Sample.nota2] flags)
    /\ (js "Shopee" <> js "Magalu" ->
        IO.asked Sample.services
          (App.processDocuments (H := DecimalHost.host) (Sample.ready (js "Shopee"))) tt
        = IO.AskOcr table false :: map IO.AskPdfJs [Sample.nota1; Sample.nota2]).
Proof.
  apply (finished_run_requests (H := DecimalHost.host) Sample.services tt
           (Sample.ready (js "Shopee"))).
  vm_compute. reflexivity.
Defined.


(** X15. A table without a valid record is fatal for the run: when the text
    that the OCR returns for the table image parses to no record, the run
    ends with the error about missing valid data, with no result, after the
    single request for the table; no PDF is read. *)
Theorem no_record_stops_the_run `{Host} {W : Type} (sv : IO.Services W) (w w1 : W)
    (st : App.State) (table : IO.File) (tableText : jsstring) :
  App.tableFile st = Some table ->
  App.pdfFiles st <> [] ->
  IO.ocr_space sv table false w = (Some tableText, w1) ->
  parseTableText tableText (App.marketplace st) = Ok [] ->
  IO.perform sv (App.processDocuments st) w
  = ((App.Fatal App.NoValidData,
      {| App.marketplace := App.marketplace st; App.unidade := App.unidade st;
         App.tableFile := App.tableFile st; App.pdfFiles := App.pdfFiles st;
         App.processing := false; App.results := []; App.showLog := true |}),
     [IO.AskOcr table false], w1).
Proof.
  intros Ht Hp Hocr Hparse.
  destruct (processDocuments_perform sv st w)
    as [[Hguard _]|(table' & Ht' & _ & [(w1' & Hocr' & _)|[(tt & w1' & Hocr' & _ & ->)
        |(tt & w1' & td & rs & fl & w2 & Hocr' & Hparse' & Hne & _)]])].
  - destruct Hguard; congruence.
  - congruence.
  - rewrite Ht in Ht'. injection Ht' as <-. rewrite Hocr in Hocr'.
    injection Hocr' as <- <-. reflexivity.
  - rewrite Ht in Ht'. injection Ht' as <-. rewrite Hocr in Hocr'.
    injection Hocr' as <- <-. congruence.
Qed.

Lemma no_record_stops_the_run_witness :
  IO.perform Sample.services
    (App.processDocuments (H := DecimalHost.host) (Sample.ready (js "Mercado Livre"))) tt
  = ((App.Fatal App.NoValidData,
      {| App.marketplace := js "Mercado Livre"; App.unidade := js "Ninja PR";
         App.tableFile := Some Sample.tabela;
         App.pdfFiles := [Sample.nota1; Sample.nota2];
         App.processing := false; App.results := []; App.showLog := true |}),
     [IO.AskOcr Sample.tabela false], tt).
Proof.
  apply (no_record_stops_the_run (H := DecimalHost.host) Sample.services tt tt
           (Sample.ready (js "Mercado Livre")) Sample.tabela Sample.tabela_text).
  - reflexivity.
  - discriminate.
  - reflexivity.
  - vm_compute. reflexivity.
Defined.


(** ** The new names *)

Import RoundFacts.

Section NameFacts.
Context `{Host}.



End NameFacts.





(** ** What every use of the component keeps *)

Section SessionFacts.
Context `{Host} {W : Type} (sv : IO.Services W).

Lemma filter_all {A} (p : A -> bool) l : Forall (fun x => p x = true) (List.filter p l).
Proof.
  induction l as [|x l IH]; [constructor|]. cbn. destruct (p x) eqn:E; [constructor|]; auto.
Qed.

Lemma lookup_In {A} (l : list A) i x : l !! i = Some x -> In x l.
Proof. intros Hl. apply list_elem_of_In. eapply list_elem_of_lookup_2. exact Hl. Qed.

Lemma processDocuments_coherent st w :
  App.coherent st -> App.coherent (snd (IO.value sv (App.processDocuments st) w)).
Proof.
  intros (Hpdf & Himg & Hmk & Hun & Hproc & Hres). unfold IO.value.
  destruct (processDocuments_perform sv st w)
    as [[Hguard ->]|(table & Ht & Hp & [(w1 & _ & ->)|[(tt & w1 & _ & _ & ->)
        |(tt & w1 & td & rs & fl & w2 & _ & _ & _ & -> & _ & Hrs & _)]])];
    cbn [fst snd].
  - repeat split; assumption.
  - repeat split; try assumption; constructor.
  - repeat split; try assumption; constructor.
  - repeat split; try assumption. cbn [App.results App.stopped App.setResults].
    clear Hp. revert Hpdf Hrs. generalize (App.pdfFiles st). intros fs Hpdf Hrs.
    induction Hrs as [|file r fs' rs' (pdfText & ->) _ IH]; [constructor|].
    apply Forall_cons in Hpdf as [Hfile Hpdf]. constructor; [|exact (IH Hpdf)].
    unfold App.result_of.
    destruct (findMatchingRow pdfText td (IO.name file) (App.marketplace st));
      cbn [App.file App.originalName App.matched App.newName];
      repeat split; auto; discriminate.
Qed.

Lemma act_coherent a st w :
  App.coherent st -> App.coherent (IO.value sv (App.act a st) w).
Proof.
  intros Hst. pose proof Hst as (Hpdf & Himg & Hmk & Hun & Hproc & Hres).
  destruct a; cbn [App.act]; unfold IO.value; try rewrite perform_bind;
    cbn [IO.perform fst snd].
  - unfold App.handleTableUpload. destruct files as [|file files]; [exact Hst|].
    destruct (App.is_image file) eqn:Ei; cbn [negb]; [|exact Hst].
    repeat split; try assumption. cbn. intros f [= <-]. exact Ei.
  - unfold App.handleTableDrop. destruct files as [|file files]; [exact Hst|].
    destruct (App.is_image file) eqn:Ei; [|exact Hst].
    repeat split; try assumption. cbn. intros f [= <-]. exact Ei.
  - unfold App.handlePdfUpload. destruct files as [|file files]; [exact Hst|].
    repeat split; try assumption. cbn [App.pdfFiles].
    apply Forall_app. split; [exact Hpdf|apply filter_all].
  - unfold App.handlePdfDrop. destruct files as [|file files]; [exact Hst|].
    repeat split; try assumption. cbn [App.pdfFiles].
    apply Forall_app. split; [exact Hpdf|apply filter_all].
  - repeat split; try assumption. cbn. discriminate.
  - repeat split; try assumption. constructor.
  - repeat split; try assumption; try constructor. cbn. discriminate.
  - unfold App.setMarketplace.
    destruct (App.marketplace_options !! choice) as [value|] eqn:E; [|exact Hst].
    repeat split; try assumption. cbn [App.marketplace]. eapply lookup_In. exact E.
  - unfold App.setUnidade.
    destruct (App.unidade_options !! choice) as [value|] eqn:E; [|exact Hst].
    repeat split; try assumption. cbn [App.unidade]. eapply lookup_In. exact E.
  - repeat split; assumption.
  - pose proof (processDocuments_coherent st w Hst) as Hc. unfold IO.value in Hc.
    destruct (IO.perform sv (App.processDocuments st) w) as [[r asked] w']. exact Hc.
Qed.

Lemma session_coherent actions :
  forall st w, App.coherent st -> App.coherent (IO.value sv (App.session actions st) w).
Proof.
  induction actions as [|a actions IH]; intros st w Hst; cbn [App.session].
  - exact Hst.
  - unfold IO.value. rewrite perform_bind.
    pose proof (act_coherent a st w Hst) as Ha. unfold IO.value in Ha.
    destruct (IO.perform sv (App.act a st) w) as [[st1 asked1] w1]. cbn [fst] in Ha.
    pose proof (IH st1 w1 Ha) as Hs. unfold IO.value in Hs.
    destruct (IO.perform sv (App.session actions st1) w1) as [[st2 asked2] w2].
    exact Hs.
Qed.

End SessionFacts.

(** X18. However the component is used, from its initial state and whatever
    the services answer: the PDF list holds only files of type
    application/pdf, the table file is an image, the marketplace and the
    unit are options of their lists (so the parser is never called with an
    unknown marketplace), no run is left under way, and every result shown
    is about a PDF file under its own name, an unmatched one keeping that
    name. *)
Theorem session_keeps_state_coherent `{Host} {W : Type} (sv : IO.Services W) (w : W)
    (actions : list App.action) :
  let st := IO.value sv (App.session actions App.initial) w in
  Forall (fun f => IO.type f = js "application/pdf") (App.pdfFiles st)
  /\ (forall f, App.tableFile st = Some f -> exists rest, IO.type f = js "image/" ++ rest)
  /\ In (App.marketplace st) [js "Shopee"; js "Mercado Livre"; js "Magalu"]
  /\ In (App.unidade st) [js "Ninja PR"; js "Ninja SC"; js "Ninja SP"]
  /\ App.processing st = false
  /\ Forall (fun r => IO.type (App.file r) = js "application/pdf"
                      /\ App.originalName r = IO.name (App.file r)
                      /\ (App.matched r = false -> App.newName r = App.originalName r))
            (App.results st).
Proof.
  cbv zeta.
  destruct (session_coherent sv actions App.initial w)
    as (Hpdf & Himg & Hmk & Hun & Hproc & Hres).
  { split; [constructor|]. split; [discriminate|].
    split; [left; reflexivity|]. split; [left; reflexivity|].
    split; [reflexivity|constructor]. }
  split; [eapply Forall_impl; [exact Hpdf|]; intros f Hf; apply str_eqb_eq; exact Hf|].
  split; [intros f Hf; apply starts_with_spec; apply Himg; exact Hf|].
  split; [exact Hmk|]. split; [exact Hun|]. split; [exact Hproc|].
  eapply Forall_impl; [exact Hres|]. intros r (Hf & Hn & Hk).
  split; [apply str_eqb_eq; exact Hf|]. split; assumption.
Qed.

(** ** Text extraction *)

Section BlankFacts.

Lemma join_ws items :
  Forall (Forall (fun c => is_ws c = true)) items ->
  Forall (fun c => is_ws c = true) (join (js " ") items).
Proof.
  induction 1 as [|x items Hx _ IH]; [constructor|].
  cbn [join]. destruct items as [|y items]; [exact Hx|].
  apply Forall_app. split; [exact Hx|]. apply Forall_app. split; [|exact IH].
  repeat constructor.
Qed.

Lemma fullText_ws pages :
  Forall (Forall (Forall (fun c => is_ws c = true))) pages ->
  Forall (fun c => is_ws c = true) (fullText_of pages).
Proof.
  unfold fullText_of. intros Hp.
  assert (Forall (fun c => is_ws c = true) (@nil N)) as Hacc by constructor.
  revert Hacc. generalize (@nil N). induction Hp as [|items pages Hi _ IH]; intros acc Hacc.
  - exact Hacc.
  - cbn [fold_left]. apply IH. apply Forall_app. split; [exact Hacc|].
    apply Forall_app. split; [apply join_ws; exact Hi|repeat constructor].
Qed.

End BlankFacts.

(** X19. A PDF without a text layer goes to the OCR in Magalu and nowhere
    else.  When pdf.js finds only blank items, or none, on every page, the
    Magalu extraction asks the OCR service and returns its text when that is
    not empty; when the OCR fails or returns nothing, the blank text of
    pdf.js is returned.  For any other marketplace the text of pdf.js is
    returned and the OCR is not asked. *)
Theorem blank_pdf_goes_to_ocr {W : Type} (sv : IO.Services W) (w w1 : W)
    (file : IO.File) (pages : list (list jsstring)) (marketplace : jsstring) :
  IO.pdf_js sv file w = (Some pages, w1) ->
  Forall (Forall (Forall (fun c => is_ws c = true))) pages ->
  (marketplace = js "Magalu" ->
   IO.asked sv (extractTextFromPDF file marketplace) w
   = [IO.AskPdfJs file; IO.AskOcr file true]
   /\ IO.value sv (extractTextFromPDF file marketplace) w
      = match fst (IO.ocr_space sv file true w1) with
        | Some (c :: ocrText) => c :: ocrText
        | Some [] | None => fullText_of pages
        end)
  /\ (marketplace <> js "Magalu" ->
      IO.asked sv (extractTextFromPDF file marketplace) w = [IO.AskPdfJs file]
      /\ IO.value sv (extractTextFromPDF file marketplace) w = fullText_of pages).
Proof.
  intros Hpdf Hblank. unfold IO.asked, IO.value, extractTextFromPDF.
  cbn [IO.perform]. rewrite Hpdf. split.
  - intros ->. rewrite (proj2 (str_eqb_eq _ _) eq_refl).
    rewrite (trim_ws _ (fullText_ws pages Hblank)). cbn [length andb].
    rewrite bool_decide_eq_true_2 by lia.
    unfold extractTextFromPDFWithOCR, mbind, IO.io_bind. cbn [IO.bind IO.perform].
    destruct (IO.ocr_space sv file true w1) as [[[|c ocrText]|] w2]; cbn; auto.
  - intros Hm. rewrite (str_eqb_neq _ _ Hm). cbn. auto.
Qed.

Lemma blank_pdf_goes_to_ocr_witness :
  IO.asked Sample.magalu_services (extractTextFromPDF Sample.scanned (js "Magalu")) tt
  = [IO.AskPdfJs Sample.scanned; IO.AskOcr Sample.scanned true]
  /\ IO.value Sample.magalu_services (extractTextFromPDF Sample.scanned (js "Magalu")) tt
     = js "NOTA DE DEBITO Nº da Nota: 8841 Valor R$ 150,00".
Proof.
  destruct (blank_pdf_goes_to_ocr Sample.magalu_services tt tt Sample.scanned
              [[]; [js " "]] (js "Magalu")) as [Hmagalu _].
  - reflexivity.
  - repeat constructor.
  - destruct (Hmagalu eq_refl) as [Hasked Hvalue].
    split; [exact Hasked|]. rewrite Hvalue. vm_compute. reflexivity.
Defined.

(** ** From the table to the match *)

Import ReFacts RoundFacts.

(** *** A text between the matches of a global replacement survives it *)

Section Segments.
Variable p : N -> bool.
Variables t y : jsstring.
Hypothesis Ht : Forall (fun c => p c = false) t.

Lemma segment_in_front w post :
  w <> [] -> Forall (fun c => p c = true) w ->
  forall t', Forall (fun c => p c = false) t' ->
  forall pre', t' ++ y = pre' ++ w ++ post -> exists x', pre' = t' ++ x'.
Proof.
  intros Hne Hw. induction 1 as [|c t' Hc _ IH]; intros pre' E.
  - exists pre'. reflexivity.
  - destruct pre' as [|c' pre'].
    + destruct w as [|c' w]; [contradiction|]. cbn in E. injection E as <- _.
      apply Forall_cons in Hw as [Hw _]. congruence.
    + cbn in E. injection E as <- E. destruct (IH pre' E) as (x' & ->).
      exists x'. reflexivity.
Qed.

Lemma segment_behind w post :
  t <> [] -> Forall (fun c => p c = true) w ->
  forall x, x ++ t ++ y = w ++ post -> exists x', post = x' ++ t ++ y.
Proof.
  intros Hne. induction 1 as [|c w Hc _ IH]; intros x E.
  - exists x. cbn in E. congruence.
  - destruct x as [|c0 x].
    + destruct t as [|c' t']; [contradiction|]. cbn in E. injection E as <- _.
      apply Forall_cons in Ht as [Ht' _]. congruence.
    + cbn in E. injection E as _ E. exact (IH x E).
Qed.

Lemma segment_cases pre w post :
  t <> [] -> w <> [] -> Forall (fun c => p c = true) w ->
  forall x, x ++ t ++ y = pre ++ w ++ post ->
  (exists x', pre = x ++ t ++ x') \/ (exists x', post = x' ++ t ++ y).
Proof.
  intros Hne Hwne Hw. induction pre as [|c pre IH]; intros x E.
  - right. exact (segment_behind w post Hne Hw x E).
  - destruct x as [|c0 x].
    + left. cbn [app] in E |- *.
      exact (segment_in_front w post Hwne Hw t Ht (c :: pre) E).
    + cbn in E. injection E as <- E. destruct (IH x E) as [(x' & ->)|Hpost].
      * left. exists x'. reflexivity.
      * right. exact Hpost.
Qed.

End Segments.

Lemma part_of_app_l t a b : part_of t a -> part_of t (a ++ b).
Proof. intros (x & z & ->). exists x, (z ++ b). rewrite <- !app_assoc. reflexivity. Qed.

Lemma part_of_app_r t a b : part_of t b -> part_of t (a ++ b).
Proof. intros (x & z & ->). exists (a ++ x), z. rewrite <- !app_assoc. reflexivity. Qed.

Lemma splice_scan_keeps r p by_ t :
  eats r p -> Forall (fun c => p c = false) t -> t <> [] ->
  forall fuel pos s y x, length s < fuel -> s = x ++ t ++ y ->
    part_of t (splice (scan fuel r pos s) by_ pos s).
Proof.
  intros He Ht Hne. induction fuel as [|fuel IH]; intros pos s y x Hlen Hs; [lia|].
  cbn [scan].
  pose proof (search_eats r p He s pos) as Hsearch.
  destruct (search r pos s) as [m|].
  - destruct Hsearch as (pre & post & Hsplit & Hpre & Hall & Hwne & Hi).
    assert (Hnext : match whole m with
                    | [] => S (index m + length (whole m))
                    | _ :: _ => index m + length (whole m)
                    end = index m + length (whole m)).
    { destruct (whole m); [contradiction|reflexivity]. }
    rewrite Hnext, Hi.
    assert (0 < length (whole m)) by (destruct (whole m); [contradiction|cbn; lia]).
    assert (length s = length pre + length (whole m) + length post) as Hlens.
    { rewrite Hsplit, !length_app. lia. }
    replace (pos + length pre + length (whole m) - pos)
      with (length pre + length (whole m)) by lia.
    case_bool_decide; [|lia].
    cbn [splice]. rewrite Hi.
    replace (pos + length pre - pos) with (length pre) by lia.
    replace (pos + length pre + length (whole m) - pos)
      with (length pre + length (whole m)) by lia.
    rewrite Hsplit at 1 2 3.
    rewrite take_app_length.
    rewrite <- drop_drop, drop_app_length, drop_app_length.
    rewrite Hsplit in Hs. symmetry in Hs.
    destruct (segment_cases p t y Ht pre (whole m) post Hne Hwne Hall x Hs)
      as [(x' & ->)|(x' & Hpost)].
    + apply part_of_app_l. exists x, x'. reflexivity.
    + apply part_of_app_r, part_of_app_r.
      apply (IH _ post y x'); [lia|exact Hpost].
  - cbn [splice]. exists x, y. exact Hs.
Qed.

(** A text free of the class survives the replacement of the runs of the
    class around it. *)
Lemma replace_g_keeps r p by_ t x y :
  eats r p -> Forall (fun c => p c = false) t ->
  part_of t (replace_g r by_ (x ++ t ++ y)).
Proof.
  intros He Ht. destruct t as [|c t].
  { exists [], (replace_g r by_ (x ++ [] ++ y)). reflexivity. }
  unfold replace_g, scan_all.
  apply (splice_scan_keeps r p by_ (c :: t) He Ht) with (y := y) (x := x);
    [discriminate|lia|reflexivity].
Qed.

Section DisplayAmounts.
Import DecimalHost.

Lemma amount_text_units t :
  amount_text t ->
  Forall (fun c => is_digit c = true \/ c = 46%N \/ c = 44%N) t.
Proof.
  intros (body & fraction & -> & _ & Hb & _ & Hf).
  apply Forall_app. split.
  - eapply Forall_impl; [exact Hb|]. intros c Hc. unfold Pat.digit_or_dot, either in Hc.
    apply orb_true_iff in Hc as [Hc|Hc%N.eqb_eq]; auto.
  - change (js ",") with [44%N]. constructor; [auto|].
    eapply Forall_impl; [exact Hf|]. auto.
Qed.

Lemma amount_unit_plain c :
  is_digit c = true \/ c = 46%N \/ c = 44%N -> is_ws c = false /\ upper_unit c = [c].
Proof.
  intros [Hd|[-> | ->]]; [|split; reflexivity|split; reflexivity].
  destruct (digit_cases c Hd) as [->|[->|[->|[->|[->|[->|[->|[->|[->| ->]]]]]]]]];
    split; reflexivity.
Qed.

Lemma upper_app a b : upper (a ++ b) = upper a ++ upper b.
Proof. unfold upper. rewrite map_app, concat_app. reflexivity. Qed.

Lemma upper_plain t : Forall (fun c => upper_unit c = [c]) t -> upper t = t.
Proof.
  induction 1 as [|c t Hc _ IH]; [reflexivity|].
  unfold upper in *. cbn [map concat]. rewrite Hc, IH. reflexivity.
Qed.

Lemma upper_part_of t s :
  Forall (fun c => upper_unit c = [c]) t -> part_of t s -> part_of t (upper s).
Proof.
  intros Ht (a & b & ->). exists (upper a), (upper b).
  rewrite !upper_app, (upper_plain t Ht). reflexivity.
Qed.

(** Every record of every parser shows an amount text. *)
Lemma parsed_rows_amount_text tableText marketplace rows :
  parseTableText (H := host) tableText marketplace = Ok rows ->
  Forall (fun row => amount_text (valorFormatado row)) rows.
Proof.
  unfold parseTableText, parseTableTextShopee, parseTableTextMercadoLivre,
    parseTableTextMagalu, classifyShopee, classifyMercadoLivre, classifyMagalu.
  cbv zeta.
  destruct (Str.eqb marketplace (js "Shopee")).
  { destruct (classify_with _ _ _ shopee_line (lines_of tableText)
                (fun i c Hi => shopee_line_with _ i c Hi)) as (c & -> & Hold).
    rewrite bind_Ok. intros Hrows.
    eapply Forall_impl; [exact (paired_rows_hold _ _ _ c rows Hold Hrows)|].
    intros row (_ & _ & (Ht & _) & _). exact Ht. }
  destruct (Str.eqb marketplace (js "Mercado Livre")).
  { destruct (classify_with _ _ _ ml_line (lines_of tableText)
                (fun i c Hi => ml_line_with _ i c Hi)) as (c & -> & Hold).
    rewrite bind_Ok. intros Hrows.
    eapply Forall_impl; [exact (paired_rows_hold _ _ _ c rows Hold Hrows)|].
    intros row (_ & _ & (Ht & _) & _). exact Ht. }
  destruct (Str.eqb marketplace (js "Magalu")).
  { destruct (classify_with _ _ _ magalu_line (lines_of tableText)
                (fun i c Hi => magalu_line_with _ i c Hi)) as (c & -> & Hold).
    rewrite bind_Ok. intros Hrows.
    eapply Forall_impl; [exact (unpaired_rows_hold _ _ _ c rows Hold Hrows)|].
    intros row (_ & _ & ((Ht & _) & _) & _). exact Ht. }
  intros [= <-]. constructor.
Qed.

End DisplayAmounts.

(** X21. Round trip between the parsers and the matchers, for amounts held
    in cents: a record that a parser took from the table is never missed
    when the PDF text shows its amount as the table displays it.  For every
    marketplace, if the PDF text contains the display string of a parsed
    record, the matcher returns a record, not null. *)
Theorem parsed_record_found_by_amount
    (tableText pdfText fileName marketplace before after : jsstring)
    (rows : list (@TableRow DecimalHost.host)) (row : @TableRow DecimalHost.host) :
  parseTableText (H := DecimalHost.host) tableText marketplace = Ok rows ->
  In row rows ->
  pdfText = before ++ valorFormatado row ++ after ->
  exists found,
    findMatchingRow (H := DecimalHost.host) pdfText rows fileName marketplace = Some found.
Proof.
  intros Hparse Hin ->.
  pose proof (parsed_rows_amount_text _ _ _ Hparse) as Hamounts.
  rewrite Forall_forall in Hamounts.
  pose proof (amount_text_units _ (Hamounts row (proj2 (list_elem_of_In _ _) Hin))) as Hunits.
  assert (Forall (fun c => is_ws c = false) (valorFormatado row)) as Hnws.
  { eapply Forall_impl; [exact Hunits|]. intros c Hc. apply amount_unit_plain, Hc. }
  assert (Forall (fun c => DecimalHost.upper_unit c = [c]) (valorFormatado row)) as Hup.
  { eapply Forall_impl; [exact Hunits|]. intros c Hc. apply amount_unit_plain, Hc. }
  destruct (Str.eqb marketplace (js "Magalu")) eqn:Em.
  - apply str_eqb_eq in Em as ->.
    unfold findMatchingRow. rewrite (proj2 (str_eqb_eq _ _) eq_refl).
    unfold findMatchingRowMagalu. rewrite findMagaluFrom_find.
    destruct (find_some_first
                (valorFoundMagalu (normalizeMagalu (before ++ valorFormatado row ++ after)))
                rows row Hin) as (y & ->); [|eauto].
    unfold valorFoundMagalu. apply existsb_exists. exists (valorFormatado row). split.
    { unfold valorFormatsMagalu. cbv zeta. do 12 right. left. reflexivity. }
    apply includes_spec. unfold normalizeMagalu. rewrite !ReFacts.strip_spaces.
    rewrite !List.filter_app, (ReFacts.filter_all_false is_ws _ Hnws).
    change (@toUpperCase DecimalHost.host) with DecimalHost.upper.
    rewrite (upper_plain _ Hup).
    apply (upper_part_of _ _ Hup). eexists _, _. reflexivity.
  - assert (marketplace <> js "Magalu") as Hm.
    { intros ->. rewrite (proj2 (str_eqb_eq _ _) eq_refl) in Em. discriminate. }
    rewrite findMatchingRow_cascade by exact Hm.
    destruct (matchByFileName fileName rows); [eauto|].
    destruct (matchByNumberAndValue _ rows); [eauto|].
    unfold matchByValue.
    destruct (find_some_first
                (valorFound (normalizePdf (before ++ valorFormatado row ++ after)))
                rows row Hin) as (y & ->); [|eauto].
    unfold valorFound. apply existsb_exists. exists (valorFormatado row). split.
    { left. reflexivity. }
    apply includes_spec. rewrite ReFacts.strip_spaces.
    rewrite (ReFacts.filter_all_false is_ws _ Hnws).
    unfold normalizePdf. change (@toUpperCase DecimalHost.host) with DecimalHost.upper.
    apply (upper_part_of _ _ Hup).
    apply (replace_g_keeps Pat.spaces is_ws); [apply ReFacts.eats_plus|exact Hnws].
Qed.

Lemma parsed_record_found_by_amount_witness :
  exists found,
    findMatchingRow (H := DecimalHost.host)
      (js "Total   da fatura: R$ " ++ js "20,00" ++ js " (pago)")
      [DecimalHost.row (Some (js "1234567")) 1000 (js "10,00") (js "Taxa - de envio")
         TipoAbsent;
       DecimalHost.row (Some (js "7654321")) 2000 (js "20,00") (js "Serviço") TipoAbsent]
      (js "recibo.pdf") (js "Shopee")
    = Some found.
Proof.
  apply (parsed_record_found_by_amount Sample.tabela_text
           (js "Total   da fatura: R$ " ++ js "20,00" ++ js " (pago)")
           (js "recibo.pdf") (js "Shopee")
           (js "Total   da fatura: R$ ") (js " (pago)")
           [DecimalHost.row (Some (js "1234567")) 1000 (js "10,00") (js "Taxa - de envio")
              TipoAbsent;
            DecimalHost.row (Some (js "7654321")) 2000 (js "20,00") (js "Serviço") TipoAbsent]
           (DecimalHost.row (Some (js "7654321")) 2000 (js "20,00") (js "Serviço") TipoAbsent)).
  - vm_compute. reflexivity.
  - right. left. reflexivity.
  - reflexivity.
Defined.

